(** * ParkPulse proposal ledger: the two voting contracts and the listing endpoint

  Shallow embedding of
    - [src/contracts/flowVoting.sol]   (contract FlowVoting),
    - [src/unnamed/part_000]           (contract HederaVoting),
    - [src/server.js]                  (GET /api/proposals, calculateTimeLeft),
  followed by the properties of the proposal ledger.

  Conventions.  A [uint256] and an [address] are integers in [Z]; Solidity
  0.8 arithmetic is checked, so [+= 1] and [++] revert with [Panic(0x11)]
  instead of wrapping.  A [mapping] is a finite map read with the zero value
  as default.  A transaction either reverts (the ledger is left as it was)
  or yields the new ledger, the emitted events and the ABI return data. *)

From stdpp Require Import gmap strings list fin_maps pretty sorting.
From Stdlib Require Import ZArith Lia Ascii.

#[local] Open Scope Z_scope.

(** ** The execution environment shared by both contracts *)

Module Evm.

Definition MAX_UINT256 : Z := 2 ^ 256 - 1.

Abbreviation address := Z (only parsing).

(** [require(c, reason)] fails with [Error(reason)]; checked arithmetic and
    array indexing fail with [Panic(code)]; a loop that is not given
    enough steps stops with [OutOfGas]. *)
Inductive Error : Type :=
  | ErrorString (reason : string)
  | Panic (code : Z)
  | OutOfGas.

Inductive Result (A : Type) : Type :=
  | Ok (a : A)
  | Revert (e : Error).
Arguments Ok {A} a.
Arguments Revert {A} e.

#[export] Instance Result_ret : MRet Result := fun A a => Ok a.
#[export] Instance Result_bind : MBind Result := fun A B f m =>
  match m with
  | Ok a => f a
  | Revert e => Revert e
  end.

Definition require (c : bool) (reason : string) : Result unit :=
  if c then Ok tt else Revert (ErrorString reason).

Definition PANIC_OVERFLOW : Z := 17.       (* 0x11 *)
Definition PANIC_INDEX : Z := 50.          (* 0x32 *)

(** [a + b] on [uint256], Solidity >= 0.8 *)
Definition checked_add (a b : Z) : Result Z :=
  if a + b <=? MAX_UINT256 then Ok (a + b) else Revert (Panic PANIC_OVERFLOW).

(** [msg.sender] and [block.timestamp] *)
Record Env : Type := { msg_sender : address; block_timestamp : Z }.

(** Reading a [mapping]: absent keys hold the zero value. *)
Definition mapping_get {A : Type} (zero : A) (m : gmap Z A) (k : Z) : A :=
  default zero (m !! k).

(** Memory arrays: [new uint256[](n)], [a[i] = v], [a[i]]. *)
Definition new_array (n : Z) : list Z := replicate (Z.to_nat n) 0.

Definition array_set (a : list Z) (i v : Z) : Result (list Z) :=
  if (0 <=? i) && (i <? Z.of_nat (length a))
  then Ok (<[Z.to_nat i := v]> a)
  else Revert (Panic PANIC_INDEX).

Definition array_get (a : list Z) (i : Z) : Result Z :=
  if 0 <=? i then
    match a !! Z.to_nat i with
    | Some v => Ok v
    | None => Revert (Panic PANIC_INDEX)
    end
  else Revert (Panic PANIC_INDEX).

(** Values of the ABI return tuple of an external call. *)
Inductive AbiValue : Type :=
  | AUint (n : Z)
  | AString (s : string)
  | AAddress (a : address)
  | ABool (b : bool).

End Evm.
Export Evm.

(** unfold the binds of the [Result] monad *)
Ltac rsimpl := cbn [mbind mret Result_bind Result_ret andb negb].

(** ** What the two contracts declare identically *)

Module Ledger.

(** [struct Proposal] *)
Record Proposal : Type := {
    proposalId : Z;
    parkName : string;
    message : string;
    parkSize : Z;
    chatTopicHistory : string;
    creator : address;
    yesVotes : Z;
    noVotes : Z;
    deadline : Z;
    exists_ : bool
  }.

(** the zero value of [Proposal], read from an unset mapping slot *)
Definition zeroProposal : Proposal :=
  {| proposalId := 0; parkName := ""; message := ""; parkSize := 0;
     chatTopicHistory := ""; creator := 0; yesVotes := 0; noVotes := 0;
     deadline := 0; exists_ := false |}.

(** the storage writes [p.yesVotes = y] and [p.noVotes = n] *)
Definition set_yesVotes (p : Proposal) (y : Z) : Proposal :=
  {| proposalId := proposalId p; parkName := parkName p;
     message := message p; parkSize := parkSize p;
     chatTopicHistory := chatTopicHistory p; creator := creator p;
     yesVotes := y; noVotes := noVotes p;
     deadline := deadline p; exists_ := exists_ p |}.

Definition set_noVotes (p : Proposal) (n : Z) : Proposal :=
  {| proposalId := proposalId p; parkName := parkName p;
     message := message p; parkSize := parkSize p;
     chatTopicHistory := chatTopicHistory p; creator := creator p;
     yesVotes := yesVotes p; noVotes := n;
     deadline := deadline p; exists_ := exists_ p |}.

Inductive Event : Type :=
  | ProposalCreated (proposalId : Z) (parkName message : string) (parkSize : Z)
                    (chatTopicHistory : string) (creator : address) (deadline : Z)
  | VoteCast (proposalId : Z) (voter : address) (vote : bool).

(** the return tuple of [getProposal] *)
Record ProposalView : Type := {
    v_proposalId : Z;
    v_parkName : string;
    v_message : string;
    v_parkSize : Z;
    v_chatTopicHistory : string;
    v_creator : address;
    v_yesVotes : Z;
    v_noVotes : Z;
    v_deadline : Z;
    v_active : bool
  }.

Definition abi_of_view (v : ProposalView) : list AbiValue :=
  [ AUint (v_proposalId v); AString (v_parkName v); AString (v_message v);
    AUint (v_parkSize v); AString (v_chatTopicHistory v);
    AAddress (v_creator v); AUint (v_yesVotes v); AUint (v_noVotes v);
    AUint (v_deadline v); ABool (v_active v) ].

(** the revert reasons of the [require] statements, named as the
  specification names the error kinds *)
Definition InvalidDeadline : Error := ErrorString "Deadline must be in the future".
Definition ProposalNotFound : Error := ErrorString "Proposal does not exist".
Definition VotingClosed : Error := ErrorString "Voting period has ended".
Definition DuplicateVote : Error := ErrorString "Already voted on this proposal".

(** The body of [getActiveProposals], the same text in both contracts.
  [proposals], [proposalCount] are the contract's storage and [now] is
  [block.timestamp]. *)
Section ActiveScan.
Variable proposals : gmap Z Proposal.
Variable proposalCount : Z.
Variable now : Z.

(** [proposals[i].exists && block.timestamp <= proposals[i].deadline] *)
Definition isActiveAt (i : Z) : bool :=
  exists_ (mapping_get zeroProposal proposals i)
  && (now <=? deadline (mapping_get zeroProposal proposals i)).

(** [for (uint256 i = 1; i <= proposalCount; i++) { ... }],
  from the loop head with the current [i], [tempActive], [activeCount] *)
Fixpoint scanLoop (gas : nat) (i : Z) (tempActive : list Z) (activeCount : Z)
  : Result (list Z * Z) :=
  match gas with
  | O => Revert OutOfGas
  | S gas' =>
      if i <=? proposalCount then
        '(tempActive', activeCount') ←
          (if isActiveAt i then
             t ← array_set tempActive activeCount i;
             c ← checked_add activeCount 1;
             mret (t, c)
           else mret (tempActive, activeCount));
        i' ← checked_add i 1;
        scanLoop gas' i' tempActive' activeCount'
      else mret (tempActive, activeCount)
  end.

(** [for (uint256 j = 0; j < activeCount; j++) activeProposals[j] = tempActive[j];] *)
Fixpoint copyLoop (gas : nat) (j : Z) (activeCount : Z)
         (tempActive activeProposals : list Z) : Result (list Z) :=
  match gas with
  | O => Revert OutOfGas
  | S gas' =>
      if j <? activeCount then
        v ← array_get tempActive j;
        a ← array_set activeProposals j v;
        j' ← checked_add j 1;
        copyLoop gas' j' activeCount tempActive a
      else mret activeProposals
  end.

Definition getActiveProposals_body : Result (list Z) :=
  let tempActive := new_array proposalCount in
  let activeCount := 0 in
  '(tempActive, activeCount) ←
     scanLoop (S (Z.to_nat proposalCount)) 1 tempActive activeCount;
  let activeProposals := new_array activeCount in
  copyLoop (S (Z.to_nat activeCount)) 0 activeCount tempActive activeProposals.

(** What the scan is meant to compute: the ids of [1 .. proposalCount]
  whose proposal exists and is not past its deadline, ascending. *)
Definition activeIds : list Z :=
  filter (λ i, isActiveAt i = true) (seqZ 1 proposalCount).

(** [tempActive] while the scan runs: the ids found so far, then zeros *)
Definition padded (found : list Z) : list Z :=
  found ++ replicate (Z.to_nat proposalCount - length found)%nat 0.

(** a result of [getActiveProposals] that lists exactly the active ids,
  in strictly ascending order *)
Definition ActiveListing (r : Result (list Z)) : Prop :=
  ∃ ids, r = Ok ids
    ∧ StronglySorted Z.lt ids
    ∧ ∀ i, i ∈ ids ↔
           1 ≤ i ≤ proposalCount
           ∧ exists_ (mapping_get zeroProposal proposals i) = true
           ∧ now ≤ deadline (mapping_get zeroProposal proposals i).
End ActiveScan.

(** the ids carried by the [ProposalCreated] events of a log, in order *)
Definition createdIds (evs : list Event) : list Z :=
  omap (λ e, match e with
             | ProposalCreated i _ _ _ _ _ _ => Some i
             | VoteCast _ _ _ => None
             end) evs.

(** the counter a vote with the given [support] increments *)
Definition chosenVotes (support : bool) (p : Proposal) : Z :=
  if support then yesVotes p else noVotes p.

(** a proposal after one more accepted vote *)
Definition castOn (support : bool) (p : Proposal) : Proposal :=
  if support then set_yesVotes p (yesVotes p + 1)
  else set_noVotes p (noVotes p + 1).

End Ledger.
Export Ledger.

(** ** contract HederaVoting  (src/unnamed/part_000) *)

Module HederaVoting.

Record State : Type := {
    proposals : gmap Z Proposal;
    voters : gmap Z (list address);   (* all voter addresses for each proposal *)
    proposalCount : Z                 (* latest proposalId *)
  }.

(** storage of a freshly deployed contract *)
Definition init : State :=
  {| proposals := ∅; voters := ∅; proposalCount := 0 |}.

Definition createProposal (env : Env)
    (_parkName _message : string) (_parkSize : Z)
    (_chatTopicHistory : string) (_deadline : Z)
    (s : State) : Result (State * list Event) :=
  _ ← require (block_timestamp env <? _deadline) "Deadline must be in the future";
  count ← checked_add (proposalCount s) 1;
  let newProposalId := count in
  let p := {| proposalId := newProposalId;
              parkName := _parkName;
              message := _message;
              parkSize := _parkSize;
              chatTopicHistory := _chatTopicHistory;
              creator := msg_sender env;
              yesVotes := 0;
              noVotes := 0;
              deadline := _deadline;
              exists_ := true |} in
  mret ({| proposals := <[newProposalId := p]> (proposals s);
           voters := voters s;
           proposalCount := count |},
        [ProposalCreated newProposalId _parkName _message _parkSize
                         _chatTopicHistory (msg_sender env) _deadline]).

(** vote on a proposal on behalf of a given address *)
Definition vote (env : Env) (_proposalId : Z) (_support : bool) (_voter : address)
    (s : State) : Result (State * list Event) :=
  let p := mapping_get zeroProposal (proposals s) _proposalId in
  _ ← require (exists_ p) "Proposal does not exist";
  _ ← require (block_timestamp env <=? deadline p) "Voting period has ended";
  p' ← (if _support then
          y ← checked_add (yesVotes p) 1;
          mret (set_yesVotes p y)
        else
          n ← checked_add (noVotes p) 1;
          mret (set_noVotes p n));
  mret ({| proposals := <[_proposalId := p']> (proposals s);
           voters := <[_proposalId := mapping_get [] (voters s) _proposalId ++ [_voter]]>
                       (voters s);
           proposalCount := proposalCount s |},
        [VoteCast _proposalId _voter _support]).

Definition getProposal (env : Env) (_proposalId : Z) (s : State)
  : Result ProposalView :=
  let p := mapping_get zeroProposal (proposals s) _proposalId in
  _ ← require (exists_ p) "Proposal does not exist";
  let isActiveNow := block_timestamp env <=? deadline p in
  mret {| v_proposalId := proposalId p; v_parkName := parkName p;
          v_message := message p; v_parkSize := parkSize p;
          v_chatTopicHistory := chatTopicHistory p; v_creator := creator p;
          v_yesVotes := yesVotes p; v_noVotes := noVotes p;
          v_deadline := deadline p; v_active := isActiveNow |}.

Definition getVoters (_proposalId : Z) (s : State) : list address :=
  mapping_get [] (voters s) _proposalId.

Definition getActiveProposals (env : Env) (s : State) : Result (list Z) :=
  getActiveProposals_body (proposals s) (proposalCount s) (block_timestamp env).

Definition getTotalProposals (s : State) : Z := proposalCount s.

(** The state-changing external functions, and a call through the ABI:
    neither function declares [returns], so the return data is empty. *)
Inductive Call : Type :=
  | CreateProposal (_parkName _message : string) (_parkSize : Z)
                   (_chatTopicHistory : string) (_deadline : Z)
  | Vote (_proposalId : Z) (_support : bool) (_voter : address).

Definition transact (env : Env) (c : Call) (s : State)
  : Result (list AbiValue * State * list Event) :=
  match c with
  | CreateProposal n m sz h d =>
      '(s', evs) ← createProposal env n m sz h d s; mret ([], s', evs)
  | Vote pid sup v =>
      '(s', evs) ← vote env pid sup v s; mret ([], s', evs)
  end.

(** read-only calls through the ABI, as the scripts and the server issue them *)
Definition query_getProposal (env : Env) (_proposalId : Z) (s : State)
  : Result (list AbiValue) :=
  v ← getProposal env _proposalId s; mret (abi_of_view v).

Definition query_proposalCount (s : State) : list AbiValue :=
  [AUint (proposalCount s)].

(** A history is a list of transactions, each with its own sender and
  block time; a reverted transaction leaves the storage as it was. *)
Definition Tx : Type := Env * Call.

Definition apply (s : State) (tx : Tx) : State :=
  match transact tx.1 tx.2 s with
  | Ok (_, s', _) => s'
  | Revert _ => s
  end.

Definition run (txs : list Tx) (s : State) : State := foldl apply s txs.

(** the transactions of a history that did not revert, in order *)
Fixpoint accepted (txs : list Tx) (s : State) : list Tx :=
  match txs with
  | [] => []
  | tx :: rest =>
      match transact tx.1 tx.2 s with
      | Ok (_, s', _) => tx :: accepted rest s'
      | Revert _ => accepted rest s
      end
  end.

(** the events and the return data of the accepted transactions, in order *)
Fixpoint emitted (txs : list Tx) (s : State) : list Event :=
  match txs with
  | [] => []
  | tx :: rest =>
      match transact tx.1 tx.2 s with
      | Ok (_, s', evs) => evs ++ emitted rest s'
      | Revert _ => emitted rest s
      end
  end.

Fixpoint returned (txs : list Tx) (s : State) : list (list AbiValue) :=
  match txs with
  | [] => []
  | tx :: rest =>
      match transact tx.1 tx.2 s with
      | Ok (rd, s', _) => rd :: returned rest s'
      | Revert _ => returned rest s
      end
  end.

(** the voter identities named by the [vote] calls on a proposal, in call order *)
Definition votersOf (_proposalId : Z) (txs : list Tx) : list address :=
  omap (λ tx : Tx, match tx.2 with
                   | Vote p _ v => if decide (p = _proposalId) then Some v else None
                   | CreateProposal _ _ _ _ _ => None
                   end) txs.

(** What every ledger reached from [init] satisfies, for each id: the two
    counters add up to the number of recorded voters; a stored proposal has
    its id in [1 .. proposalCount] and carries it in [proposalId]; an id
    without a proposal has no voters. *)
Definition Consistent (s : State) : Prop :=
  0 ≤ proposalCount s ∧
  ∀ pid,
    let p := mapping_get zeroProposal (proposals s) pid in
    yesVotes p + noVotes p = Z.of_nat (length (getVoters pid s))
    ∧ (exists_ p = true → 1 ≤ pid ≤ proposalCount s ∧ proposalId p = pid)
    ∧ (exists_ p = false → getVoters pid s = []).

End HederaVoting.

(** ** contract FlowVoting  (src/contracts/flowVoting.sol) *)

Module FlowVoting.

Record State : Type := {
    proposals : gmap Z Proposal;
    hasVoted : gmap Z (gmap address bool);
    proposalCount : Z                 (* latest proposalId *)
  }.

Definition init : State :=
  {| proposals := ∅; hasVoted := ∅; proposalCount := 0 |}.

(** [hasVoted[_proposalId][_user]] *)
Definition hasVoted_get (s : State) (_proposalId : Z) (_user : address) : bool :=
  default false (mapping_get ∅ (hasVoted s) _proposalId !! _user).

Definition createProposal (env : Env)
    (_parkName _message : string) (_parkSize : Z)
    (_chatTopicHistory : string) (_deadline : Z)
    (s : State) : Result (State * list Event) :=
  _ ← require (block_timestamp env <? _deadline) "Deadline must be in the future";
  count ← checked_add (proposalCount s) 1;
  let newProposalId := count in
  let p := {| proposalId := newProposalId;
              parkName := _parkName;
              message := _message;
              parkSize := _parkSize;
              chatTopicHistory := _chatTopicHistory;
              creator := msg_sender env;
              yesVotes := 0;
              noVotes := 0;
              deadline := _deadline;
              exists_ := true |} in
  mret ({| proposals := <[newProposalId := p]> (proposals s);
           hasVoted := hasVoted s;
           proposalCount := count |},
        [ProposalCreated newProposalId _parkName _message _parkSize
                         _chatTopicHistory (msg_sender env) _deadline]).

(** the voter is the caller *)
Definition vote (env : Env) (_proposalId : Z) (_support : bool)
    (s : State) : Result (State * list Event) :=
  let p := mapping_get zeroProposal (proposals s) _proposalId in
  _ ← require (exists_ p) "Proposal does not exist";
  _ ← require (block_timestamp env <=? deadline p) "Voting period has ended";
  _ ← require (negb (hasVoted_get s _proposalId (msg_sender env)))
              "Already voted on this proposal";
  (* record that this address has voted *)
  let hasVoted' :=
    <[_proposalId := <[msg_sender env := true]> (mapping_get ∅ (hasVoted s) _proposalId)]>
      (hasVoted s) in
  (* update vote counts *)
  p' ← (if _support then
          y ← checked_add (yesVotes p) 1;
          mret (set_yesVotes p y)
        else
          n ← checked_add (noVotes p) 1;
          mret (set_noVotes p n));
  mret ({| proposals := <[_proposalId := p']> (proposals s);
           hasVoted := hasVoted';
           proposalCount := proposalCount s |},
        [VoteCast _proposalId (msg_sender env) _support]).

Definition isProposalActive (env : Env) (_proposalId : Z) (s : State) : Result bool :=
  let p := mapping_get zeroProposal (proposals s) _proposalId in
  _ ← require (exists_ p) "Proposal does not exist";
  mret (block_timestamp env <=? deadline p).

Definition getProposal (env : Env) (_proposalId : Z) (s : State)
  : Result ProposalView :=
  let p := mapping_get zeroProposal (proposals s) _proposalId in
  _ ← require (exists_ p) "Proposal does not exist";
  let isActiveNow := block_timestamp env <=? deadline p in
  mret {| v_proposalId := proposalId p; v_parkName := parkName p;
          v_message := message p; v_parkSize := parkSize p;
          v_chatTopicHistory := chatTopicHistory p; v_creator := creator p;
          v_yesVotes := yesVotes p; v_noVotes := noVotes p;
          v_deadline := deadline p; v_active := isActiveNow |}.

Definition hasUserVoted (_proposalId : Z) (_user : address) (s : State) : bool :=
  hasVoted_get s _proposalId _user.

Definition getActiveProposals (env : Env) (s : State) : Result (list Z) :=
  getActiveProposals_body (proposals s) (proposalCount s) (block_timestamp env).

Definition getTotalProposals (s : State) : Z := proposalCount s.

Inductive Call : Type :=
  | CreateProposal (_parkName _message : string) (_parkSize : Z)
                   (_chatTopicHistory : string) (_deadline : Z)
  | Vote (_proposalId : Z) (_support : bool).

Definition transact (env : Env) (c : Call) (s : State)
  : Result (list AbiValue * State * list Event) :=
  match c with
  | CreateProposal n m sz h d =>
      '(s', evs) ← createProposal env n m sz h d s; mret ([], s', evs)
  | Vote pid sup =>
      '(s', evs) ← vote env pid sup s; mret ([], s', evs)
  end.

Definition Tx : Type := Env * Call.

Definition apply (s : State) (tx : Tx) : State :=
  match transact tx.1 tx.2 s with
  | Ok (_, s', _) => s'
  | Revert _ => s
  end.

Definition run (txs : list Tx) (s : State) : State := foldl apply s txs.

Fixpoint accepted (txs : list Tx) (s : State) : list Tx :=
  match txs with
  | [] => []
  | tx :: rest =>
      match transact tx.1 tx.2 s with
      | Ok (_, s', _) => tx :: accepted rest s'
      | Revert _ => accepted rest s
      end
  end.

Fixpoint emitted (txs : list Tx) (s : State) : list Event :=
  match txs with
  | [] => []
  | tx :: rest =>
      match transact tx.1 tx.2 s with
      | Ok (_, s', evs) => evs ++ emitted rest s'
      | Revert _ => emitted rest s
      end
  end.

Fixpoint returned (txs : list Tx) (s : State) : list (list AbiValue) :=
  match txs with
  | [] => []
  | tx :: rest =>
      match transact tx.1 tx.2 s with
      | Ok (rd, s', _) => rd :: returned rest s'
      | Revert _ => returned rest s
      end
  end.

(** the identities recorded as having voted on a proposal *)
Definition votedSet (s : State) (_proposalId : Z) : gmap address bool :=
  filter (λ kv, kv.2 = true) (mapping_get ∅ (hasVoted s) _proposalId).

(** the callers of the [vote] calls on a proposal, in call order *)
Definition votersOf (_proposalId : Z) (txs : list Tx) : list address :=
  omap (λ tx : Tx, match tx.2 with
                   | Vote p _ => if decide (p = _proposalId) then Some (msg_sender tx.1) else None
                   | CreateProposal _ _ _ _ _ => None
                   end) txs.

(** What every ledger reached from [init] satisfies, for each id: the two
    counters add up to the number of identities with [hasVoted] true; a
    stored proposal has its id in [1 .. proposalCount] and carries it in
    [proposalId]; an id without a proposal has no recorded voter. *)
Definition Consistent (s : State) : Prop :=
  0 ≤ proposalCount s ∧
  ∀ pid,
    let p := mapping_get zeroProposal (proposals s) pid in
    yesVotes p + noVotes p = Z.of_nat (size (votedSet s pid))
    ∧ (exists_ p = true → 1 ≤ pid ≤ proposalCount s ∧ proposalId p = pid)
    ∧ (exists_ p = false → votedSet s pid = ∅).

End FlowVoting.

(** ** GET /api/proposals  (src/server.js) *)

Module Server.

(** One element of the [proposals] array of the JSON response.  The
    [toNumber()] conversions are kept as integers (they are exact below
    [2^53]) and the template strings print integers in decimal (as the
    ledger SDK's big numbers do below [10^21]). *)
Record ProposalEntry : Type := {
    id : Z;
    title : string;
    description : string;
    location : string;
    status : string;
    votes_yes : Z;
    votes_no : Z;
    timeLeft : string;
    e_creator : address;
    e_deadline : Z;
    e_chatTopicHistory : string;
    e_parkSize : Z
  }.

(** the result accessors of the ledger SDK; a failed access throws *)
Definition getUint256 (i : nat) (result : list AbiValue) : option Z :=
  match result !! i with Some (AUint n) => Some n | _ => None end.
Definition getString (i : nat) (result : list AbiValue) : option string :=
  match result !! i with Some (AString s) => Some s | _ => None end.
Definition getAddress (i : nat) (result : list AbiValue) : option address :=
  match result !! i with Some (AAddress a) => Some a | _ => None end.
Definition getBool (i : nat) (result : list AbiValue) : option bool :=
  match result !! i with Some (ABool b) => Some b | _ => None end.

(** JavaScript [a || b] on strings: the empty string is falsy *)
Definition str_or (a b : string) : string :=
  match a with EmptyString => b | _ => a end.

(** [calculateTimeLeft]; [now] is [Math.floor(Date.now() / 1000)] *)
Definition calculateTimeLeft (now : Z) (deadlineTimestamp : Z) : string :=
  let timeLeft := deadlineTimestamp - now in
  if timeLeft <=? 0 then "Expired" else
  let days := timeLeft / (24 * 60 * 60) in
  let hours := (timeLeft mod (24 * 60 * 60)) / (60 * 60) in
  if 0 <? days then pretty days +:+ " day" +:+ (if 1 <? days then "s" else "") +:+ " left"
  else if 0 <? hours then pretty hours +:+ " hour" +:+ (if 1 <? hours then "s" else "") +:+ " left"
  else "Less than 1 hour left".

Definition totalProposals : Z := 20.

Section Handler.
(** the contract call [getProposal(id)] issued through the SDK, and the
    server's clock *)
Variable query : Z → Result (list AbiValue).
Variable now : Z.

(** the body of the [try] block for one [id]: [None] when something
    threw, otherwise the array after the (conditional) push *)
Definition tryOne (id : Z) (proposals : list ProposalEntry)
  : option (list ProposalEntry) :=
  match query id with
  | Revert _ => None
  | Ok result =>
      proposalId ← getUint256 0 result;
      parkName ← getString 1 result;
      message ← getString 2 result;
      parkSize ← getUint256 3 result;
      chatTopicHistory ← getString 4 result;
      creator ← getAddress 5 result;
      yesVotes ← getUint256 6 result;
      noVotes ← getUint256 7 result;
      deadline ← getUint256 8 result;
      isActive ← getBool 9 result;
      if isActive : bool then
        Some (proposals ++
          [{| id := proposalId;
              title := str_or parkName ("Park Proposal #" +:+ pretty proposalId);
              description := str_or message "No description provided";
              location := "Park Size: " +:+ pretty parkSize +:+ " sq ft";
              status := "Active Voting";
              votes_yes := yesVotes;
              votes_no := noVotes;
              timeLeft := calculateTimeLeft now deadline;
              e_creator := creator;
              e_deadline := deadline;
              e_chatTopicHistory := chatTopicHistory;
              e_parkSize := parkSize |}])
      else Some proposals
  end.

(** [for (let id = 1; id <= totalProposals; id++) { try {...} catch { continue; } }] *)
Definition listProposals : list ProposalEntry :=
  foldl (λ proposals id, default proposals (tryOne id proposals))
        [] (seqZ 1 totalProposals).
End Handler.

(** the endpoint against a deployed HederaVoting ledger: [chain] carries
    the operator account and the block time of the queries *)
Definition apiProposals (chain : Env) (now : Z) (s : HederaVoting.State)
  : list ProposalEntry :=
  listProposals (λ id, HederaVoting.query_getProposal chain id s) now.

End Server.

(** ** Sample histories, used to exercise the statements below *)

Module Sample.

(** sender [a] at block time [t] *)
Definition at_ (a : address) (t : Z) : Env :=
  {| msg_sender := a; block_timestamp := t |}.

(** one proposal created at time 100 with deadline 3700, then votes by the
    identities 5 and 6 *)
Definition hederaTxs : list HederaVoting.Tx :=
  [ (at_ 7 100, HederaVoting.CreateProposal "Oak Park" "add benches" 120 "topic-1" 3700);
    (at_ 9 110, HederaVoting.Vote 1 true 5);
    (at_ 9 120, HederaVoting.Vote 1 false 6) ].

Definition hederaState : HederaVoting.State :=
  HederaVoting.run hederaTxs HederaVoting.init.

Definition flowTxs : list FlowVoting.Tx :=
  [ (at_ 7 100, FlowVoting.CreateProposal "Oak Park" "add benches" 120 "topic-1" 3700);
    (at_ 5 110, FlowVoting.Vote 1 true);
    (at_ 6 120, FlowVoting.Vote 1 false) ].

Definition flowState : FlowVoting.State :=
  FlowVoting.run flowTxs FlowVoting.init.

(** twenty-one proposals, all open until time 3700 *)
Definition manyTxs : list HederaVoting.Tx :=
  (λ i, (at_ 7 100, HederaVoting.CreateProposal "Park" "proposal" i "topic" 3700))
    <$> seqZ 1 21.

Definition manyState : HederaVoting.State :=
  HederaVoting.run manyTxs HederaVoting.init.

End Sample.

(** ** Quantities read off a ledger or its event log, used in later statements *)

Module Observed.

(** the fields of a proposal that are written at creation only *)
Definition staticFields (p : Proposal)
  : Z * string * string * Z * string * address * Z * bool :=
  (proposalId p, parkName p, message p, parkSize p, chatTopicHistory p,
   creator p, deadline p, exists_ p).

(** voter and support of the [VoteCast] events on a proposal, in order *)
Definition castsOn (pid : Z) (evs : list Event) : list (address * bool) :=
  omap (λ e, match e with
             | VoteCast p v b => if decide (p = pid) then Some (v, b) else None
             | ProposalCreated _ _ _ _ _ _ _ => None
             end) evs.

(** how many of them have the given support *)
Definition countSupport (b : bool) (l : list (address * bool)) : Z :=
  Z.of_nat (length (filter (λ vb, vb.2 = b) l)).

End Observed.
Export Observed.

(** ** The object the listing endpoint builds from one [getProposal] result *)

Module ServerView.

(** the object literal pushed by the handler, from the decoded tuple *)
Definition entryOf (now : Z) (w : ProposalView) : Server.ProposalEntry :=
  {| Server.id := v_proposalId w;
     Server.title :=
       Server.str_or (v_parkName w) ("Park Proposal #" +:+ pretty (v_proposalId w));
     Server.description := Server.str_or (v_message w) "No description provided";
     Server.location := "Park Size: " +:+ pretty (v_parkSize w) +:+ " sq ft";
     Server.status := "Active Voting";
     Server.votes_yes := v_yesVotes w;
     Server.votes_no := v_noVotes w;
     Server.timeLeft := Server.calculateTimeLeft now (v_deadline w);
     Server.e_creator := v_creator w;
     Server.e_deadline := v_deadline w;
     Server.e_chatTopicHistory := v_chatTopicHistory w;
     Server.e_parkSize := v_parkSize w |}.

(** what one round of the loop contributes for id [i] *)
Definition entryAt (chain : Env) (now : Z) (s : HederaVoting.State) (i : Z)
  : option Server.ProposalEntry :=
  match HederaVoting.getProposal chain i s with
  | Ok w => if v_active w then Some (entryOf now w) else None
  | Revert _ => None
  end.

End ServerView.

(** ** The chat endpoint's topic-id extraction  (src/server.js) *)

Module Agent.

(** [text.indexOf(pat)]: the index of the first occurrence, [-1] if none *)
Definition indexOf (pat text : string) : Z :=
  match String.index 0 pat text with
  | Some n => Z.of_nat n
  | None => -1
  end.

(** the largest index at which [pat] occurs in [text] *)
Fixpoint lastIndex (pat text : string) : option nat :=
  match text with
  | EmptyString => if String.prefix pat text then Some 0%nat else None
  | String _ rest =>
      match lastIndex pat rest with
      | Some n => Some (S n)
      | None => if String.prefix pat text then Some 0%nat else None
      end
  end.

(** [text.lastIndexOf(pat)]: the index of the last occurrence, [-1] if none *)
Definition lastIndexOf (pat text : string) : Z :=
  match lastIndex pat text with
  | Some n => Z.of_nat n
  | None => -1
  end.

(** [text.substring(start, end)]: negative arguments count as 0, the two
    are swapped when [start > end], and the end is cut at the length *)
Definition substring (start end_ : Z) (text : string) : string :=
  let a := Z.max 0 start in
  let b := Z.max 0 end_ in
  let lo := Z.min a b in
  let hi := Z.max a b in
  String.substring (Z.to_nat lo) (Z.to_nat (hi - lo)) text.

(** [extractTopicIdString]; [None] is JavaScript's [null] *)
Definition extractTopicIdString (text : string) : option string :=
  let start := indexOf "**" text + 2 in
  let end_ := lastIndexOf "**" text in
  if (1 <? start) && (start <? end_)
  then Some (substring start end_ text)
  else None.

End Agent.

(** ** The vote endpoint  (src/server.js, POST /api/vote) *)

Module VoteEndpoint.
Import HederaVoting.

(** The values a parsed JSON body can hold in a property; an absent
    property reads as [undefined]. *)
Inductive JsNumber : Type :=
  | NInt (z : Z)
  | NOther.             (* a fraction or an infinity *)

Inductive JsValue : Type :=
  | JUndefined
  | JNull
  | JBool (b : bool)
  | JNumber (n : JsNumber)
  | JString (s : string)
  | JObject.            (* an object or an array *)

Definition typeof (v : JsValue) : string :=
  match v with
  | JUndefined => "undefined"
  | JNull => "object"
  | JBool _ => "boolean"
  | JNumber _ => "number"
  | JString _ => "string"
  | JObject => "object"
  end.

(** [!v] *)
Definition not_ (v : JsValue) : bool :=
  match v with
  | JUndefined | JNull => true
  | JBool b => negb b
  | JNumber (NInt z) => z =? 0
  | JNumber NOther => false
  | JString s => match s with EmptyString => true | _ => false end
  | JObject => false
  end.

(** [var { proposalId, vote, voterAddress } = req.body] *)
Record Body : Type := {
    b_proposalId : JsValue;
    b_vote : JsValue;
    b_voterAddress : JsValue
  }.

(** HTTP status and the [success] and [error]/[message] properties of the
    JSON reply (the transaction id and its links are left out) *)
Record Reply : Type := { r_code : Z; r_success : bool; r_text : string }.

(** the reply, the ledger after the request, and whether the token
    transfer went through *)
Record Outcome : Type := { reply : Reply; ledger : State; transferred : bool }.

Section Sdk.
(** What the ledger SDK makes of the request's values: the [uint256]
    argument built from a number, the Solidity address of an account id
    ([None] when the SDK throws), and the number as a template string
    prints it. *)
Variable addUint256 : JsNumber → option Z.
Variable toSolidityAddress : JsValue → option address.
Variable numberToString : JsNumber → string.

(** [chain] is the operator account and the consensus time of the contract
    call; [transferOk] tells whether the token transfer that follows the
    vote succeeds.  A contract call that reverts makes the receipt throw. *)
Definition apiVote (chain : Env) (transferOk : bool) (body : Body) (s : State)
  : Outcome :=
  if negb (String.eqb (typeof (b_vote body)) "boolean")
     || not_ (b_voterAddress body)
     || negb (String.eqb (typeof (b_proposalId body)) "number")
  then {| reply := {| r_code := 400; r_success := false;
                      r_text := "Invalid parameters" |};
          ledger := s; transferred := false |}
  else
    let failed (s' : State) :=
      {| reply := {| r_code := 500; r_success := false;
                     r_text := "Failed to vote" |};
         ledger := s'; transferred := false |} in
    match b_proposalId body, b_vote body with
    | JNumber proposalId, JBool vote =>
        match addUint256 proposalId, toSolidityAddress (b_voterAddress body) with
        | Some pid, Some voter =>
            match transact chain (Vote pid vote voter) s with
            | Revert _ => failed s
            | Ok (_, s', _) =>
                if transferOk then
                  {| reply := {| r_code := 200; r_success := true;
                                 r_text := "Vote " +:+ (if vote then "Yes" else "No")
                                           +:+ " submitted for Proposal "
                                           +:+ numberToString proposalId |};
                     ledger := s'; transferred := true |}
                else failed s'
            end
        | _, _ => failed s
        end
    | _, _ => failed s
    end.
End Sdk.

End VoteEndpoint.

(** ** Return data of [getVoters] and the scripts that read it
    (src/scripts/getVoterAddress.js, src/scripts/callContractFunctions.js) *)

Module Abi.

(** the [len] low bytes of [n], most significant first *)
Fixpoint be_bytes (len : nat) (n : Z) : list Z :=
  match len with
  | O => []
  | S l => be_bytes l (n / 256) ++ [n mod 256]
  end.

(** one 32-byte ABI word *)
Definition word (n : Z) : list Z := be_bytes 32 n.

(** the return data of a function with the single result [address[] memory]:
    the offset of the array, its length, its elements *)
Definition encode_address_array (l : list address) : list Z :=
  word 32 ++ word (Z.of_nat (length l)) ++ concat (word <$> l).

End Abi.

Module Scripts.
Import HederaVoting.

(** [bytes.slice(a, b)] on a [Uint8Array], for [0 <= a <= b] *)
Definition slice {A : Type} (a b : nat) (l : list A) : list A :=
  take (b - a) (drop a l).

Definition hexDigit (d : Z) : ascii :=
  default "?"%char (String.get (Z.to_nat d) "0123456789abcdef").

Definition hexByte (b : Z) : string :=
  String (hexDigit (b / 16)) (String (hexDigit (b mod 16)) EmptyString).

(** [Buffer.from(bytes).toString("hex")] *)
Fixpoint toHex (bytes : list Z) : string :=
  match bytes with
  | [] => EmptyString
  | b :: rest => hexByte b +:+ toHex rest
  end.

(** [for (let i = 0; i < n; i += 32) body]; [None] when the steps run out *)
Fixpoint forStep32 {A : Type} (steps : nat) (n i : nat) (body : nat → A → A) (acc : A)
  : option A :=
  match steps with
  | O => None
  | S steps' =>
      if (i <? n)%nat then forStep32 steps' n (i + 32)%nat body (body i acc)
      else Some acc
  end.

(** the decoding loop of getVoterAddress.js *)
Definition decodeVoters (encoded : list Z) : option (list string) :=
  forStep32 (S (length encoded)) (length encoded) 0
    (λ i voters,
       let addressBytes := slice (i + 12) (i + 32) encoded in
       let hex := "0x" +:+ toHex addressBytes in
       voters ++ [hex])
    [].

(** the decoding loop of the archive script, which keeps full entries only *)
Definition decodeVotersChecked (encoded : list Z) : option (list string) :=
  forStep32 (S (length encoded)) (length encoded) 0
    (λ i voters,
       let addressBytes := slice (i + 12) (i + 32) encoded in
       if (length addressBytes =? 20)%nat then
         let hex := "0x" +:+ toHex addressBytes in
         voters ++ [hex]
       else voters)
    [].

(** an address as 0x and its 40 hex digits *)
Definition addressHex (a : address) : string := "0x" +:+ toHex (Abi.be_bytes 20 a).

(** [result.bytes] of the query [getVoters(_proposalId)] *)
Definition query_getVoters (_proposalId : Z) (s : State) : list Z :=
  Abi.encode_address_array (getVoters _proposalId s).

(** getVoterAddress.js: the array it prints for a proposal id (the script
    fixes the id 2) *)
Definition votersReport (proposalId : Z) (s : State) : option (list string) :=
  decodeVoters (query_getVoters proposalId s).

Definition getVoterAddress_main (s : State) : option (list string) :=
  votersReport 2 s.

(** One element of the archive's [inactiveProposals] array. *)
Record ArchiveEntry : Type := {
    a_proposalId : Z;
    a_parkName : string;
    a_message : string;
    a_parkSize : Z;
    a_chatTopicHistory : string;
    a_creator : address;
    a_yesVotes : Z;
    a_noVotes : Z;
    a_deadline : Z;
    a_voters : list string
  }.

Section Archive.
(** the operator account and the block time of the queries, and the ledger *)
Variable chain : Env.
Variable s : State.

(** one round of the archive loop; nothing catches inside the loop, so a
    failed query or access ([None]) ends the run *)
Definition archiveOne (proposalId : Z) (inactiveProposals : list ArchiveEntry)
  : option (list ArchiveEntry) :=
  match query_getProposal chain proposalId s with
  | Revert _ => None
  | Ok propResult =>
      id ← Server.getUint256 0 propResult;
      parkName ← Server.getString 1 propResult;
      message ← Server.getString 2 propResult;
      parkSize ← Server.getUint256 3 propResult;
      chatTopicHistory ← Server.getString 4 propResult;
      creator ← Server.getAddress 5 propResult;
      yesVotes ← Server.getUint256 6 propResult;
      noVotes ← Server.getUint256 7 propResult;
      deadline ← Server.getUint256 8 propResult;
      isActive ← Server.getBool 9 propResult;
      if negb isActive then
        voters ← decodeVotersChecked (query_getVoters proposalId s);
        Some (inactiveProposals ++
          [{| a_proposalId := id;
              a_parkName := parkName;
              a_message := message;
              a_parkSize := parkSize;
              a_chatTopicHistory := chatTopicHistory;
              a_creator := creator;
              a_yesVotes := yesVotes;
              a_noVotes := noVotes;
              a_deadline := deadline;
              a_voters := voters |}])
      else Some inactiveProposals
  end.

(** [for (let proposalId = 1; proposalId <= totalProposals; proposalId++)] *)
Definition archive : option (list ArchiveEntry) :=
  let totalProposals := getTotalProposals s in
  foldl (λ acc proposalId, acc ≫= archiveOne proposalId)
        (Some []) (seqZ 1 totalProposals).
End Archive.

(** The message the create script submits to the notification topic. *)
Record ProposalMessage : Type := {
    m_proposalId : Z;
    m_parkName : string;
    m_message : string;
    m_parkSize : Z;
    m_chatTopicHistory : string;
    m_deadline : Z;
    m_createdAt : Z
  }.

(** callContractFunctions.js, the create script: [now] and [later] are the
    two readings of [Date.now()], [chain] the operator account and the
    consensus time of the transaction.  The result is the ledger afterwards
    and the message handed to the topic, if the script gets that far. *)
Definition createAndNotify (chain : Env) (now later : Z) (s : State)
  : State * option ProposalMessage :=
  let parkName := "Aoma Park" in
  let message := "Add no trees" in
  let parkSize := 120 in
  let chatTopicHistory := "Initial proposal created" in
  let deadline := now / 1000 + 3600 in
  match Server.getUint256 0 (query_proposalCount s) with
  | None => (s, None)
  | Some proposalId =>
      match transact chain
              (CreateProposal parkName message parkSize chatTopicHistory deadline) s with
      | Revert _ => (s, None)
      | Ok (_, s', _) =>
          (s', Some {| m_proposalId := proposalId;
                       m_parkName := parkName;
                       m_message := message;
                       m_parkSize := parkSize;
                       m_chatTopicHistory := chatTopicHistory;
                       m_deadline := deadline;
                       m_createdAt := later |})
      end
  end.

End Scripts.

(** ** The object the archive script builds from one closed proposal *)

Module ArchiveView.
Import HederaVoting.

(** the object literal pushed by the script, from the decoded tuple and the
    decoded voters *)
Definition entryOf (w : ProposalView) (voters : list string) : Scripts.ArchiveEntry :=
  {| Scripts.a_proposalId := v_proposalId w;
     Scripts.a_parkName := v_parkName w;
     Scripts.a_message := v_message w;
     Scripts.a_parkSize := v_parkSize w;
     Scripts.a_chatTopicHistory := v_chatTopicHistory w;
     Scripts.a_creator := v_creator w;
     Scripts.a_yesVotes := v_yesVotes w;
     Scripts.a_noVotes := v_noVotes w;
     Scripts.a_deadline := v_deadline w;
     Scripts.a_voters := voters |}.

(** the words of the return data of [getVoters(i)], each printed as an address *)
Definition votersWords (s : State) (i : Z) : list string :=
  Scripts.addressHex <$> (32 :: Z.of_nat (length (getVoters i s)) :: getVoters i s).

(** what one round of the loop contributes for id [i] *)
Definition entryAt (chain : Env) (s : State) (i : Z) : option Scripts.ArchiveEntry :=
  match getProposal chain i s with
  | Ok w => if v_active w then None else Some (entryOf w (votersWords s i))
  | Revert _ => None
  end.

End ArchiveView.

(** ** Stand-ins for the SDK conversions, used to exercise the vote endpoint *)

Module SampleSdk.
Import VoteEndpoint.

Definition addUint256 (n : JsNumber) : option Z :=
  match n with
  | NInt z => if 0 <=? z then Some z else None
  | NOther => None
  end.

(** the two account ids of the samples *)
Definition toSolidityAddress (v : JsValue) : option address :=
  match v with
  | JString "0.0.5" => Some 5
  | JString "0.0.6" => Some 6
  | _ => None
  end.

Definition numberToString (n : JsNumber) : string :=
  match n with
  | NInt z => pretty z
  | NOther => "NaN"
  end.

Definition voteBody (pid : Z) (b : bool) (account : string) : Body :=
  {| b_proposalId := JNumber (NInt pid); b_vote := JBool b;
     b_voterAddress := JString account |}.

End SampleSdk.

(** * Properties *)

(** ** Basic facts about the execution environment *)

Section EvmFacts.
Context {A : Type}.
Implicit Types (m : gmap Z A) (zero x : A) (k : Z).

Lemma mapping_get_empty zero k : mapping_get zero (∅ : gmap Z A) k = zero.
Proof. unfold mapping_get. by rewrite lookup_empty. Qed.

Lemma mapping_get_insert_eq zero m k x :
  mapping_get zero (<[k := x]> m) k = x.
Proof. unfold mapping_get. by rewrite lookup_insert_eq. Qed.

Lemma mapping_get_insert_ne zero m k k' x :
  k ≠ k' → mapping_get zero (<[k := x]> m) k' = mapping_get zero m k'.
Proof. intros. unfold mapping_get. by rewrite lookup_insert_ne. Qed.
End EvmFacts.

Lemma checked_add_Ok a b c :
  checked_add a b = Ok c ↔ c = a + b ∧ a + b ≤ MAX_UINT256.
Proof.
  unfold checked_add. destruct (Z.leb_spec (a + b) MAX_UINT256); split.
  - intros [= <-]. done.
  - intros [-> _]. done.
  - discriminate.
  - lia.
Qed.

Lemma checked_add_fits a b :
  a + b ≤ MAX_UINT256 → checked_add a b = Ok (a + b).
Proof. intros. by apply checked_add_Ok. Qed.

Lemma checked_add_overflow a b :
  MAX_UINT256 < a + b → checked_add a b = Revert (Panic PANIC_OVERFLOW).
Proof. intros. unfold checked_add. destruct (Z.leb_spec (a + b) MAX_UINT256); [lia | done]. Qed.

Lemma require_Ok c reason : require c reason = Ok tt ↔ c = true.
Proof. destruct c; simpl; split; done. Qed.

(** ** The scan of [getActiveProposals] computes a filter *)

Section ActiveScanFacts.
Variable proposals : gmap Z Proposal.
Variable proposalCount : Z.
Variable now : Z.
Hypothesis count_fits : proposalCount < MAX_UINT256.

Local Abbreviation P := (λ i : Z, isActiveAt proposals now i = true).
Local Abbreviation N := (Z.to_nat proposalCount).
Local Abbreviation padded := (padded proposalCount).
Local Abbreviation activeIds := (activeIds proposals proposalCount now).

Lemma length_padded found :
  (length found ≤ N)%nat → length (padded found) = N.
Proof. intros. unfold padded. rewrite length_app, length_replicate. lia. Qed.

Lemma scanLoop_spec k : ∀ gas i found,
  i = proposalCount + 1 - Z.of_nat k →
  1 ≤ i →
  Z.of_nat (length found) ≤ i - 1 →
  (k < gas)%nat →
  scanLoop proposals proposalCount now gas i (padded found) (Z.of_nat (length found))
  = Ok (padded (found ++ filter P (seqZ i (Z.of_nat k))),
        Z.of_nat (length (found ++ filter P (seqZ i (Z.of_nat k))))).
Proof.
  induction k as [|k IH]; intros gas i found Hi H1 Hlen Hgas;
    (destruct gas as [|gas]; [lia|]); simpl scanLoop.
  - destruct (Z.leb_spec i proposalCount); [lia|].
    simpl. by rewrite app_nil_r.
  - destruct (Z.leb_spec i proposalCount); [|lia].
    rewrite seqZ_cons by lia.
    replace (Z.pred (Z.of_nat (S k))) with (Z.of_nat k) by lia.
    assert (Hnext : checked_add i 1 = Ok (i + 1)) by (apply checked_add_fits; lia).
    destruct (isActiveAt proposals now i) eqn:Hact.
    + rewrite filter_cons_True by done.
      unfold array_set. rewrite length_padded by lia.
      destruct (Z.leb_spec 0 (Z.of_nat (length found))); [|lia].
      destruct (Z.ltb_spec (Z.of_nat (length found)) (Z.of_nat N)); [|lia].
      rsimpl. rewrite Hnext. rewrite checked_add_fits by lia. rsimpl.
      replace (<[Z.to_nat (Z.of_nat (length found)) := i]> (padded found))
        with (padded (found ++ [i])).
      2:{ unfold padded. rewrite Nat2Z.id.
          rewrite insert_app_r_alt, Nat.sub_diag, length_app by lia. simpl.
          destruct (N - length found)%nat as [|r] eqn:Hr; [lia|].
          replace (N - (length found + 1))%nat with r by lia.
          simpl. by rewrite <- app_assoc. }
      replace (Z.of_nat (length found) + 1) with (Z.of_nat (length (found ++ [i])))
        by (rewrite length_app; simpl; lia).
      rewrite (IH gas (i + 1) (found ++ [i])); try lia.
      * by rewrite <- app_assoc.
      * rewrite length_app; simpl; lia.
    + rewrite filter_cons_False by (rewrite Hact; done).
      rsimpl. rewrite Hnext. rsimpl.
      rewrite (IH gas (i + 1) found); try lia. done.
Qed.

Lemma copyLoop_spec k : ∀ gas (j : nat) found rest,
  (j + k = length found)%nat →
  Z.of_nat (length found) ≤ proposalCount →
  (k < gas)%nat →
  copyLoop gas (Z.of_nat j) (Z.of_nat (length found)) (found ++ rest)
           (take j found ++ replicate k 0)
  = Ok found.
Proof.
  induction k as [|k IH]; intros gas j found rest Hj Hlen Hgas;
    (destruct gas as [|gas]; [lia|]); simpl copyLoop.
  - destruct (Z.ltb_spec (Z.of_nat j) (Z.of_nat (length found))); [lia|].
    simpl. rewrite app_nil_r, take_ge by lia. done.
  - destruct (Z.ltb_spec (Z.of_nat j) (Z.of_nat (length found))); [|lia].
    destruct (lookup_lt_is_Some_2 found j) as [v Hv]; [lia|].
    unfold array_get. destruct (Z.leb_spec 0 (Z.of_nat j)); [|lia].
    rewrite Nat2Z.id, (lookup_app_l_Some _ _ _ _ Hv). rsimpl.
    assert (Hl : length (take j found) = j) by (rewrite length_take; lia).
    unfold array_set.
    rewrite length_app, Hl. cbn [length]. rewrite length_replicate.
    destruct (Z.leb_spec 0 (Z.of_nat j)); [|lia].
    destruct (Z.ltb_spec (Z.of_nat j) (Z.of_nat (j + S k))); [|lia].
    rsimpl. rewrite checked_add_fits by lia. rsimpl.
    replace (<[Z.to_nat (Z.of_nat j) := v]> (take j found ++ 0 :: replicate k 0))
      with (take (S j) found ++ replicate k 0).
    2:{ rewrite Nat2Z.id, (take_S_r _ _ _ Hv), <- app_assoc. simpl.
        rewrite insert_app_r_alt by lia. rewrite Hl, Nat.sub_diag. done. }
    replace (Z.of_nat j + 1) with (Z.of_nat (S j)) by lia.
    apply IH; lia.
Qed.

(** C5, first half: the two loops return the filtered id list *)
Lemma getActiveProposals_body_spec :
  getActiveProposals_body proposals proposalCount now = Ok activeIds.
Proof.
  unfold getActiveProposals_body. cbv zeta.
  destruct (Z.le_gt_cases 0 proposalCount) as [Hpos|Hneg].
  - assert (Hpad : new_array proposalCount = padded []).
    { unfold new_array, Ledger.padded. cbn [length app]. by rewrite Nat.sub_0_r. }
    pose proof (scanLoop_spec N (S N) 1 []) as Hscan.
    cbn [length app] in Hscan. change (Z.of_nat 0) with 0 in Hscan.
    replace (Z.of_nat N) with proposalCount in Hscan by lia.
    rewrite Hpad, Hscan by lia. rsimpl. fold activeIds.
    assert (Hle : (length activeIds ≤ N)%nat).
    { unfold Ledger.activeIds. etrans; [apply length_filter|]. rewrite length_seqZ. lia. }
    rewrite Nat2Z.id.
    pose proof (copyLoop_spec (length activeIds) (S (length activeIds)) 0 activeIds
                  (replicate (N - length activeIds)%nat 0)) as Hcopy.
    change (Z.of_nat 0) with 0 in Hcopy.
    unfold new_array. rewrite Nat2Z.id. apply Hcopy; lia.
  - replace N with 0%nat by lia. simpl.
    destruct (Z.leb_spec 1 proposalCount); [lia|]. simpl.
    unfold activeIds, seqZ. replace (Z.to_nat proposalCount) with 0%nat by lia. done.
Qed.

Lemma elem_of_activeIds i :
  i ∈ activeIds ↔
  1 ≤ i ≤ proposalCount
  ∧ exists_ (mapping_get zeroProposal proposals i) = true
  ∧ now ≤ deadline (mapping_get zeroProposal proposals i).
Proof.
  unfold activeIds. rewrite list_elem_of_filter, elem_of_seqZ.
  unfold isActiveAt. rewrite andb_true_iff, Z.leb_le. intuition lia.
Qed.
End ActiveScanFacts.

Lemma StronglySorted_seqZ m n : StronglySorted Z.lt (seqZ m n).
Proof.
  remember (Z.to_nat n) as k eqn:Hk. revert m n Hk.
  induction k as [|k IH]; intros m n Hk.
  - unfold seqZ. rewrite <- Hk. constructor.
  - rewrite seqZ_cons by lia. constructor.
    + apply IH. lia.
    + apply Forall_forall. intros x Hx. apply elem_of_seqZ in Hx. lia.
Qed.

Lemma StronglySorted_filter {A} (R : relation A) (P : A → Prop)
    `{∀ x, Decision (P x)} (l : list A) :
  StronglySorted R l → StronglySorted R (filter P l).
Proof.
  induction 1 as [|x l Hl IH Hx]; [constructor|].
  rewrite filter_cons. destruct (decide (P x)); [|done].
  constructor; [done|].
  apply Forall_forall. intros y Hy. apply list_elem_of_filter in Hy as [_ Hy].
  by eapply (proj1 (Forall_forall _ _) Hx).
Qed.

Lemma getActiveProposals_body_listing proposals proposalCount now :
  proposalCount < MAX_UINT256 →
  ActiveListing proposals proposalCount now
    (getActiveProposals_body proposals proposalCount now).
Proof.
  intros Hfit. exists (activeIds proposals proposalCount now). split_and!.
  - by apply getActiveProposals_body_spec.
  - apply StronglySorted_filter, StronglySorted_seqZ.
  - apply elem_of_activeIds.
Qed.

(** ** HederaVoting: one call *)

Module HederaFacts.
Import HederaVoting.

Lemma hv_createProposal_Ok env n m sz h d s s' evs :
  createProposal env n m sz h d s = Ok (s', evs) ↔
    block_timestamp env < d
    ∧ proposalCount s + 1 ≤ MAX_UINT256
    ∧ s' = {| proposals :=
                <[proposalCount s + 1 :=
                    {| proposalId := proposalCount s + 1; parkName := n;
                       message := m; parkSize := sz; chatTopicHistory := h;
                       creator := msg_sender env; yesVotes := 0; noVotes := 0;
                       deadline := d; exists_ := true |}]> (proposals s);
              voters := voters s;
              proposalCount := proposalCount s + 1 |}
    ∧ evs = [ProposalCreated (proposalCount s + 1) n m sz h (msg_sender env) d].
Proof.
  unfold createProposal, require, checked_add.
  destruct (Z.ltb_spec (block_timestamp env) d);
    destruct (Z.leb_spec (proposalCount s + 1) MAX_UINT256); rsimpl;
    split; try (intros [= <- <-]; done); try (intros (? & ? & -> & ->); done);
    try discriminate; intros; lia.
Qed.

Lemma hv_createProposal_InvalidDeadline env n m sz h d s :
  d ≤ block_timestamp env →
  createProposal env n m sz h d s = Revert InvalidDeadline.
Proof.
  intros. unfold createProposal, require.
  destruct (Z.ltb_spec (block_timestamp env) d); [lia | done].
Qed.

Lemma hv_vote_Ok env pid sup v s s' evs :
  vote env pid sup v s = Ok (s', evs) ↔
    let p := mapping_get zeroProposal (proposals s) pid in
    exists_ p = true
    ∧ block_timestamp env ≤ deadline p
    ∧ chosenVotes sup p + 1 ≤ MAX_UINT256
    ∧ s' = {| proposals := <[pid := castOn sup p]> (proposals s);
              voters := <[pid := mapping_get [] (voters s) pid ++ [v]]> (voters s);
              proposalCount := proposalCount s |}
    ∧ evs = [VoteCast pid v sup].
Proof.
  unfold vote, require, checked_add, chosenVotes, castOn. cbv zeta.
  destruct (exists_ _); rsimpl; [|split; [discriminate | intros (? & _); done]].
  destruct (Z.leb_spec (block_timestamp env)
              (deadline (mapping_get zeroProposal (proposals s) pid))); rsimpl;
    [|split; [discriminate | intros (_ & ? & _); lia]].
  destruct sup.
  - destruct (Z.leb_spec (yesVotes (mapping_get zeroProposal (proposals s) pid) + 1)
                MAX_UINT256); rsimpl.
    + split; [intros [= <- <-]; done | intros (_ & _ & _ & -> & ->); done].
    + split; [discriminate | intros (_ & _ & ? & _); lia].
  - destruct (Z.leb_spec (noVotes (mapping_get zeroProposal (proposals s) pid) + 1)
                MAX_UINT256); rsimpl.
    + split; [intros [= <- <-]; done | intros (_ & _ & _ & -> & ->); done].
    + split; [discriminate | intros (_ & _ & ? & _); lia].
Qed.

Lemma hv_vote_not_found env pid sup v s :
  exists_ (mapping_get zeroProposal (proposals s) pid) = false →
  vote env pid sup v s = Revert ProposalNotFound.
Proof. intros H. unfold vote, require. cbv zeta. by rewrite H. Qed.

Lemma hv_vote_closed env pid sup v s :
  exists_ (mapping_get zeroProposal (proposals s) pid) = true →
  deadline (mapping_get zeroProposal (proposals s) pid) < block_timestamp env →
  vote env pid sup v s = Revert VotingClosed.
Proof.
  intros H Hd. unfold vote, require. cbv zeta. rewrite H. rsimpl.
  destruct (Z.leb_spec (block_timestamp env)
              (deadline (mapping_get zeroProposal (proposals s) pid))); [lia | done].
Qed.

Lemma hv_getProposal_Ok env pid s :
  exists_ (mapping_get zeroProposal (proposals s) pid) = true →
  getProposal env pid s =
    let p := mapping_get zeroProposal (proposals s) pid in
    Ok {| v_proposalId := proposalId p; v_parkName := parkName p;
          v_message := message p; v_parkSize := parkSize p;
          v_chatTopicHistory := chatTopicHistory p; v_creator := creator p;
          v_yesVotes := yesVotes p; v_noVotes := noVotes p;
          v_deadline := deadline p;
          v_active := block_timestamp env <=? deadline p |}.
Proof. intros H. unfold getProposal, require. cbv zeta. by rewrite H. Qed.

Lemma hv_getProposal_not_found env pid s :
  exists_ (mapping_get zeroProposal (proposals s) pid) = false →
  getProposal env pid s = Revert ProposalNotFound.
Proof. intros H. unfold getProposal, require. cbv zeta. by rewrite H. Qed.

(** *** histories *)

Lemma hv_run_cons tx txs s : run (tx :: txs) s = run txs (apply s tx).
Proof. done. Qed.

Lemma hv_run_app txs1 txs2 s : run (txs1 ++ txs2) s = run txs2 (run txs1 s).
Proof. unfold run. apply foldl_app. Qed.

Lemma hv_transact_create_Ok env n m sz h d s rd s' evs :
  transact env (CreateProposal n m sz h d) s = Ok (rd, s', evs) ↔
  rd = [] ∧ createProposal env n m sz h d s = Ok (s', evs).
Proof.
  simpl. destruct (createProposal env n m sz h d s) as [[??]|]; rsimpl;
    split; try (intros [= <- <- <-]; done); try (intros [-> [= <- <-]]; done);
    try discriminate; intros [_ ?]; discriminate.
Qed.

Lemma hv_transact_vote_Ok env pid sup v s rd s' evs :
  transact env (Vote pid sup v) s = Ok (rd, s', evs) ↔
  rd = [] ∧ vote env pid sup v s = Ok (s', evs).
Proof.
  simpl. destruct (vote env pid sup v s) as [[??]|]; rsimpl;
    split; try (intros [= <- <- <-]; done); try (intros [-> [= <- <-]]; done);
    try discriminate; intros [_ ?]; discriminate.
Qed.

End HederaFacts.

(** ** FlowVoting: one call *)

Module FlowFacts.
Import FlowVoting.

Lemma fv_createProposal_Ok env n m sz h d s s' evs :
  createProposal env n m sz h d s = Ok (s', evs) ↔
    block_timestamp env < d
    ∧ proposalCount s + 1 ≤ MAX_UINT256
    ∧ s' = {| proposals :=
                <[proposalCount s + 1 :=
                    {| proposalId := proposalCount s + 1; parkName := n;
                       message := m; parkSize := sz; chatTopicHistory := h;
                       creator := msg_sender env; yesVotes := 0; noVotes := 0;
                       deadline := d; exists_ := true |}]> (proposals s);
              hasVoted := hasVoted s;
              proposalCount := proposalCount s + 1 |}
    ∧ evs = [ProposalCreated (proposalCount s + 1) n m sz h (msg_sender env) d].
Proof.
  unfold createProposal, require, checked_add.
  destruct (Z.ltb_spec (block_timestamp env) d);
    destruct (Z.leb_spec (proposalCount s + 1) MAX_UINT256); rsimpl;
    split; try (intros [= <- <-]; done); try (intros (? & ? & -> & ->); done);
    try discriminate; intros; lia.
Qed.

Lemma fv_createProposal_InvalidDeadline env n m sz h d s :
  d ≤ block_timestamp env →
  createProposal env n m sz h d s = Revert InvalidDeadline.
Proof.
  intros. unfold createProposal, require.
  destruct (Z.ltb_spec (block_timestamp env) d); [lia | done].
Qed.

Lemma fv_vote_Ok env pid sup s s' evs :
  vote env pid sup s = Ok (s', evs) ↔
    let p := mapping_get zeroProposal (proposals s) pid in
    exists_ p = true
    ∧ block_timestamp env ≤ deadline p
    ∧ hasVoted_get s pid (msg_sender env) = false
    ∧ chosenVotes sup p + 1 ≤ MAX_UINT256
    ∧ s' = {| proposals := <[pid := castOn sup p]> (proposals s);
              hasVoted :=
                <[pid := <[msg_sender env := true]> (mapping_get ∅ (hasVoted s) pid)]>
                  (hasVoted s);
              proposalCount := proposalCount s |}
    ∧ evs = [VoteCast pid (msg_sender env) sup].
Proof.
  unfold vote, require, checked_add, chosenVotes, castOn. cbv zeta.
  destruct (exists_ _); rsimpl; [|split; [discriminate | intros (? & _); done]].
  destruct (Z.leb_spec (block_timestamp env)
              (deadline (mapping_get zeroProposal (proposals s) pid))); rsimpl;
    [|split; [discriminate | intros (_ & ? & _); lia]].
  destruct (hasVoted_get s pid (msg_sender env)); rsimpl;
    [split; [discriminate | intros (_ & _ & ? & _); done]|].
  destruct sup.
  - destruct (Z.leb_spec (yesVotes (mapping_get zeroProposal (proposals s) pid) + 1)
                MAX_UINT256); rsimpl.
    + split; [intros [= <- <-]; done | intros (_ & _ & _ & _ & -> & ->); done].
    + split; [discriminate | intros (_ & _ & _ & ? & _); lia].
  - destruct (Z.leb_spec (noVotes (mapping_get zeroProposal (proposals s) pid) + 1)
                MAX_UINT256); rsimpl.
    + split; [intros [= <- <-]; done | intros (_ & _ & _ & _ & -> & ->); done].
    + split; [discriminate | intros (_ & _ & _ & ? & _); lia].
Qed.

Lemma fv_vote_not_found env pid sup s :
  exists_ (mapping_get zeroProposal (proposals s) pid) = false →
  vote env pid sup s = Revert ProposalNotFound.
Proof. intros H. unfold vote, require. cbv zeta. by rewrite H. Qed.

Lemma fv_vote_closed env pid sup s :
  exists_ (mapping_get zeroProposal (proposals s) pid) = true →
  deadline (mapping_get zeroProposal (proposals s) pid) < block_timestamp env →
  vote env pid sup s = Revert VotingClosed.
Proof.
  intros H Hd. unfold vote, require. cbv zeta. rewrite H. rsimpl.
  destruct (Z.leb_spec (block_timestamp env)
              (deadline (mapping_get zeroProposal (proposals s) pid))); [lia | done].
Qed.

Lemma fv_vote_duplicate env pid sup s :
  exists_ (mapping_get zeroProposal (proposals s) pid) = true →
  block_timestamp env ≤ deadline (mapping_get zeroProposal (proposals s) pid) →
  hasVoted_get s pid (msg_sender env) = true →
  vote env pid sup s = Revert DuplicateVote.
Proof.
  intros H Hd Hv. unfold vote, require. cbv zeta. rewrite H. rsimpl.
  destruct (Z.leb_spec (block_timestamp env)
              (deadline (mapping_get zeroProposal (proposals s) pid))); [|lia].
  rsimpl. by rewrite Hv.
Qed.

Lemma fv_getProposal_Ok env pid s :
  exists_ (mapping_get zeroProposal (proposals s) pid) = true →
  getProposal env pid s =
    let p := mapping_get zeroProposal (proposals s) pid in
    Ok {| v_proposalId := proposalId p; v_parkName := parkName p;
          v_message := message p; v_parkSize := parkSize p;
          v_chatTopicHistory := chatTopicHistory p; v_creator := creator p;
          v_yesVotes := yesVotes p; v_noVotes := noVotes p;
          v_deadline := deadline p;
          v_active := block_timestamp env <=? deadline p |}.
Proof. intros H. unfold getProposal, require. cbv zeta. by rewrite H. Qed.

Lemma fv_run_cons tx txs s : run (tx :: txs) s = run txs (apply s tx).
Proof. done. Qed.

Lemma fv_run_app txs1 txs2 s : run (txs1 ++ txs2) s = run txs2 (run txs1 s).
Proof. unfold run. apply foldl_app. Qed.

Lemma fv_transact_create_Ok env n m sz h d s rd s' evs :
  transact env (CreateProposal n m sz h d) s = Ok (rd, s', evs) ↔
  rd = [] ∧ createProposal env n m sz h d s = Ok (s', evs).
Proof.
  simpl. destruct (createProposal env n m sz h d s) as [[??]|]; rsimpl;
    split; try (intros [= <- <- <-]; done); try (intros [-> [= <- <-]]; done);
    try discriminate; intros [_ ?]; discriminate.
Qed.

Lemma fv_transact_vote_Ok env pid sup s rd s' evs :
  transact env (Vote pid sup) s = Ok (rd, s', evs) ↔
  rd = [] ∧ vote env pid sup s = Ok (s', evs).
Proof.
  simpl. destruct (vote env pid sup s) as [[??]|]; rsimpl;
    split; try (intros [= <- <- <-]; done); try (intros [-> [= <- <-]]; done);
    try discriminate; intros [_ ?]; discriminate.
Qed.

Lemma fv_hasVoted_get_insert_eq s pid a hv pc pr :
  hasVoted_get {| proposals := pr;
                  hasVoted := <[pid := <[a := true]> hv]> (hasVoted s);
                  proposalCount := pc |} pid a = true.
Proof.
  unfold hasVoted_get. simpl. by rewrite mapping_get_insert_eq, lookup_insert_eq.
Qed.

End FlowFacts.

(** * The claims about single calls *)

(** C1: [vote] checks, in this order, that the proposal exists
    ([ProposalNotFound]), that the block time is not strictly after the
    deadline ([VotingClosed]; a vote at exactly the deadline passes), and, in
    FlowVoting only, that the caller has not voted on it ([DuplicateVote]).
    Once these checks pass, no [require] of [vote] fails. *)
Theorem vote_checks_in_order :
  (∀ env pid sup v s,
     let p := mapping_get zeroProposal (HederaVoting.proposals s) pid in
     (exists_ p = false →
        HederaVoting.vote env pid sup v s = Revert ProposalNotFound)
     ∧ (exists_ p = true → deadline p < block_timestamp env →
        HederaVoting.vote env pid sup v s = Revert VotingClosed)
     ∧ (exists_ p = true → block_timestamp env ≤ deadline p →
        ∀ reason, HederaVoting.vote env pid sup v s ≠ Revert (ErrorString reason)))
  ∧
  (∀ env pid sup s,
     let p := mapping_get zeroProposal (FlowVoting.proposals s) pid in
     (exists_ p = false →
        FlowVoting.vote env pid sup s = Revert ProposalNotFound)
     ∧ (exists_ p = true → deadline p < block_timestamp env →
        FlowVoting.vote env pid sup s = Revert VotingClosed)
     ∧ (exists_ p = true → block_timestamp env ≤ deadline p →
        FlowVoting.hasVoted_get s pid (msg_sender env) = true →
        FlowVoting.vote env pid sup s = Revert DuplicateVote)
     ∧ (exists_ p = true → block_timestamp env ≤ deadline p →
        FlowVoting.hasVoted_get s pid (msg_sender env) = false →
        ∀ reason, FlowVoting.vote env pid sup s ≠ Revert (ErrorString reason))).
Proof.
  split.
  - intros env pid sup v s p. split_and!.
    + apply HederaFacts.hv_vote_not_found.
    + apply HederaFacts.hv_vote_closed.
    + intros Hex Hdl reason. subst p.
      unfold HederaVoting.vote, require, checked_add. cbv zeta. rewrite Hex. rsimpl.
      destruct (Z.leb_spec (block_timestamp env)
        (deadline (mapping_get zeroProposal (HederaVoting.proposals s) pid))); [|lia].
      rsimpl. destruct sup; case_match; rsimpl; discriminate.
  - intros env pid sup s p. split_and!.
    + apply FlowFacts.fv_vote_not_found.
    + apply FlowFacts.fv_vote_closed.
    + apply FlowFacts.fv_vote_duplicate.
    + intros Hex Hdl Hv reason. subst p.
      unfold FlowVoting.vote, require, checked_add. cbv zeta. rewrite Hex, Hv. rsimpl.
      destruct (Z.leb_spec (block_timestamp env)
        (deadline (mapping_get zeroProposal (FlowVoting.proposals s) pid))); [|lia].
      rsimpl. destruct sup; case_match; rsimpl; discriminate.
Qed.

Lemma vote_checks_in_order_witness :
  HederaVoting.vote (Sample.at_ 9 5000) 2 true 5 Sample.hederaState
    = Revert ProposalNotFound
  ∧ HederaVoting.vote (Sample.at_ 9 3701) 1 true 5 Sample.hederaState
    = Revert VotingClosed
  ∧ (∀ reason, HederaVoting.vote (Sample.at_ 9 3700) 1 true 5 Sample.hederaState
               ≠ Revert (ErrorString reason))
  ∧ FlowVoting.vote (Sample.at_ 5 5000) 2 true Sample.flowState
    = Revert ProposalNotFound
  ∧ FlowVoting.vote (Sample.at_ 5 3701) 1 true Sample.flowState
    = Revert VotingClosed
  ∧ FlowVoting.vote (Sample.at_ 5 3700) 1 true Sample.flowState
    = Revert DuplicateVote
  ∧ (∀ reason, FlowVoting.vote (Sample.at_ 8 3700) 1 true Sample.flowState
               ≠ Revert (ErrorString reason)).
Proof.
  destruct vote_checks_in_order as [HH HF].
  split_and!.
  - apply (HH (Sample.at_ 9 5000) 2 true 5 Sample.hederaState). reflexivity.
  - apply (HH (Sample.at_ 9 3701) 1 true 5 Sample.hederaState); [reflexivity|].
    vm_compute. reflexivity.
  - apply (HH (Sample.at_ 9 3700) 1 true 5 Sample.hederaState); [reflexivity|].
    vm_compute. discriminate.
  - apply (HF (Sample.at_ 5 5000) 2 true Sample.flowState). reflexivity.
  - apply (HF (Sample.at_ 5 3701) 1 true Sample.flowState); [reflexivity|].
    vm_compute. reflexivity.
  - apply (HF (Sample.at_ 5 3700) 1 true Sample.flowState); [reflexivity| |reflexivity].
    vm_compute. discriminate.
  - apply (HF (Sample.at_ 8 3700) 1 true Sample.flowState); [reflexivity| |reflexivity].
    vm_compute. discriminate.
Defined.

(** C6: [createProposal] with a deadline less than or equal to the block time
    fails with [InvalidDeadline] and, the transaction being reverted, leaves the
    ledger as it was: [proposalCount] and the stored proposals are unchanged, so
    any later call sees the state it would have seen without the failed one.
    Both contracts. *)
Theorem createProposal_invalid_deadline :
  (∀ env n m sz h d s,
     d ≤ block_timestamp env →
     HederaVoting.createProposal env n m sz h d s = Revert InvalidDeadline
     ∧ HederaVoting.transact env (HederaVoting.CreateProposal n m sz h d) s
       = Revert InvalidDeadline
     ∧ HederaVoting.apply s (env, HederaVoting.CreateProposal n m sz h d) = s
     ∧ ∀ txs, HederaVoting.run ((env, HederaVoting.CreateProposal n m sz h d) :: txs) s
              = HederaVoting.run txs s)
  ∧
  (∀ env n m sz h d s,
     d ≤ block_timestamp env →
     FlowVoting.createProposal env n m sz h d s = Revert InvalidDeadline
     ∧ FlowVoting.transact env (FlowVoting.CreateProposal n m sz h d) s
       = Revert InvalidDeadline
     ∧ FlowVoting.apply s (env, FlowVoting.CreateProposal n m sz h d) = s
     ∧ ∀ txs, FlowVoting.run ((env, FlowVoting.CreateProposal n m sz h d) :: txs) s
              = FlowVoting.run txs s).
Proof.
  split; intros env n m sz h d s Hd.
  - pose proof (HederaFacts.hv_createProposal_InvalidDeadline env n m sz h d s Hd) as E.
    assert (HederaVoting.apply s (env, HederaVoting.CreateProposal n m sz h d) = s) as Ea.
    { unfold HederaVoting.apply. simpl. by rewrite E. }
    split_and!; [done | simpl; by rewrite E | done |].
    intros txs. by rewrite HederaFacts.hv_run_cons, Ea.
  - pose proof (FlowFacts.fv_createProposal_InvalidDeadline env n m sz h d s Hd) as E.
    assert (FlowVoting.apply s (env, FlowVoting.CreateProposal n m sz h d) = s) as Ea.
    { unfold FlowVoting.apply. simpl. by rewrite E. }
    split_and!; [done | simpl; by rewrite E | done |].
    intros txs. by rewrite FlowFacts.fv_run_cons, Ea.
Qed.

Lemma createProposal_invalid_deadline_witness :
  HederaVoting.createProposal (Sample.at_ 7 200) "Elm" "pave it" 10 "t" 200
    Sample.hederaState = Revert InvalidDeadline
  ∧ HederaVoting.getTotalProposals
      (HederaVoting.apply Sample.hederaState
         (Sample.at_ 7 200, HederaVoting.CreateProposal "Elm" "pave it" 10 "t" 200)) = 1
  ∧ FlowVoting.createProposal (Sample.at_ 7 200) "Elm" "pave it" 10 "t" 199
      Sample.flowState = Revert InvalidDeadline.
Proof.
  destruct createProposal_invalid_deadline as [HH HF].
  destruct (HH (Sample.at_ 7 200) "Elm" "pave it" 10 "t" 200 Sample.hederaState)
    as (E1 & _ & E2 & _); [simpl; lia|].
  destruct (HF (Sample.at_ 7 200) "Elm" "pave it" 10 "t" 199 Sample.flowState)
    as (E3 & _); [simpl; lia|].
  split_and!; [exact E1 | rewrite E2; reflexivity | exact E3].
Defined.

(** C8: after a successful [vote] with support [true] the proposal's
    [yesVotes] is one more and its [noVotes] is unchanged, and the other way
    round for [false]; [getProposal] shows every other field of that proposal
    as before, every other proposal is as before, and so is [proposalCount].
    Both contracts. *)
Theorem vote_frame :
  (∀ env pid sup v s s' evs,
     HederaVoting.vote env pid sup v s = Ok (s', evs) →
     (∀ envq, ∃ w w',
        HederaVoting.getProposal envq pid s = Ok w
        ∧ HederaVoting.getProposal envq pid s' = Ok w'
        ∧ v_yesVotes w' = v_yesVotes w + (if sup then 1 else 0)
        ∧ v_noVotes w' = v_noVotes w + (if sup then 0 else 1)
        ∧ v_proposalId w' = v_proposalId w
        ∧ v_parkName w' = v_parkName w
        ∧ v_message w' = v_message w
        ∧ v_parkSize w' = v_parkSize w
        ∧ v_chatTopicHistory w' = v_chatTopicHistory w
        ∧ v_creator w' = v_creator w
        ∧ v_deadline w' = v_deadline w
        ∧ v_active w' = v_active w)
     ∧ exists_ (mapping_get zeroProposal (HederaVoting.proposals s') pid) = true
     ∧ (∀ pid', pid' ≠ pid →
          mapping_get zeroProposal (HederaVoting.proposals s') pid'
          = mapping_get zeroProposal (HederaVoting.proposals s) pid')
     ∧ HederaVoting.proposalCount s' = HederaVoting.proposalCount s)
  ∧
  (∀ env pid sup s s' evs,
     FlowVoting.vote env pid sup s = Ok (s', evs) →
     (∀ envq, ∃ w w',
        FlowVoting.getProposal envq pid s = Ok w
        ∧ FlowVoting.getProposal envq pid s' = Ok w'
        ∧ v_yesVotes w' = v_yesVotes w + (if sup then 1 else 0)
        ∧ v_noVotes w' = v_noVotes w + (if sup then 0 else 1)
        ∧ v_proposalId w' = v_proposalId w
        ∧ v_parkName w' = v_parkName w
        ∧ v_message w' = v_message w
        ∧ v_parkSize w' = v_parkSize w
        ∧ v_chatTopicHistory w' = v_chatTopicHistory w
        ∧ v_creator w' = v_creator w
        ∧ v_deadline w' = v_deadline w
        ∧ v_active w' = v_active w)
     ∧ exists_ (mapping_get zeroProposal (FlowVoting.proposals s') pid) = true
     ∧ (∀ pid', pid' ≠ pid →
          mapping_get zeroProposal (FlowVoting.proposals s') pid'
          = mapping_get zeroProposal (FlowVoting.proposals s) pid')
     ∧ FlowVoting.proposalCount s' = FlowVoting.proposalCount s).
Proof.
  split.
  - intros env pid sup v s s' evs Hv.
    apply HederaFacts.hv_vote_Ok in Hv as (Hex & _ & _ & -> & _). cbv zeta in Hex.
    assert (exists_ (castOn sup (mapping_get zeroProposal (HederaVoting.proposals s) pid))
            = true) as Hex' by (by destruct sup).
    split_and!.
    + intros envq. do 2 eexists.
      rewrite !HederaFacts.hv_getProposal_Ok
        by (simpl; rewrite ?mapping_get_insert_eq; done).
      cbv zeta. simpl HederaVoting.proposals. rewrite mapping_get_insert_eq.
      split; [reflexivity|]. split; [reflexivity|].
      destruct sup; simpl; split_and!; try done; lia.
    + simpl. by rewrite mapping_get_insert_eq.
    + intros pid' Hne. simpl. by rewrite mapping_get_insert_ne.
    + done.
  - intros env pid sup s s' evs Hv.
    apply FlowFacts.fv_vote_Ok in Hv as (Hex & _ & _ & _ & -> & _). cbv zeta in Hex.
    assert (exists_ (castOn sup (mapping_get zeroProposal (FlowVoting.proposals s) pid))
            = true) as Hex' by (by destruct sup).
    split_and!.
    + intros envq. do 2 eexists.
      rewrite !FlowFacts.fv_getProposal_Ok
        by (simpl; rewrite ?mapping_get_insert_eq; done).
      cbv zeta. simpl FlowVoting.proposals. rewrite mapping_get_insert_eq.
      split; [reflexivity|]. split; [reflexivity|].
      destruct sup; simpl; split_and!; try done; lia.
    + simpl. by rewrite mapping_get_insert_eq.
    + intros pid' Hne. simpl. by rewrite mapping_get_insert_ne.
    + done.
Qed.

Lemma vote_frame_witness :
  (∃ w w',
     HederaVoting.getProposal (Sample.at_ 0 200) 1 Sample.hederaState = Ok w
     ∧ HederaVoting.getProposal (Sample.at_ 0 200) 1
         (HederaVoting.apply Sample.hederaState (Sample.at_ 9 130, HederaVoting.Vote 1 true 8))
       = Ok w'
     ∧ v_yesVotes w' = v_yesVotes w + 1 ∧ v_noVotes w' = v_noVotes w + 0)
  ∧ (∃ w w',
     FlowVoting.getProposal (Sample.at_ 0 200) 1 Sample.flowState = Ok w
     ∧ FlowVoting.getProposal (Sample.at_ 0 200) 1
         (FlowVoting.apply Sample.flowState (Sample.at_ 8 130, FlowVoting.Vote 1 false))
       = Ok w'
     ∧ v_yesVotes w' = v_yesVotes w + 0 ∧ v_noVotes w' = v_noVotes w + 1).
Proof.
  destruct vote_frame as [HH HF]. split.
  - assert (HederaVoting.vote (Sample.at_ 9 130) 1 true 8 Sample.hederaState
            = Ok (HederaVoting.apply Sample.hederaState
                    (Sample.at_ 9 130, HederaVoting.Vote 1 true 8),
                  [VoteCast 1 8 true])) as E by (vm_compute; reflexivity).
    destruct (HH _ _ _ _ _ _ _ E) as (Hq & _).
    destruct (Hq (Sample.at_ 0 200)) as (w & w' & E1 & E2 & Hy & Hn & _).
    exists w, w'. split_and!; assumption.
  - assert (FlowVoting.vote (Sample.at_ 8 130) 1 false Sample.flowState
            = Ok (FlowVoting.apply Sample.flowState
                    (Sample.at_ 8 130, FlowVoting.Vote 1 false),
                  [VoteCast 1 8 false])) as E by (vm_compute; reflexivity).
    destruct (HF _ _ _ _ _ _ E) as (Hq & _).
    destruct (Hq (Sample.at_ 0 200)) as (w & w' & E1 & E2 & Hy & Hn & _).
    exists w, w'. split_and!; assumption.
Defined.

(** C9: when [createProposal] succeeds (its deadline is then strictly after
    the block time), [getProposal] of the allocated id, called at the same
    block time on the resulting ledger, returns the id, the five input fields
    as given, the caller as creator, [yesVotes = noVotes = 0] and
    [active = true].  The call does succeed whenever the deadline is in the future
    and [proposalCount] is below the largest [uint256].  Both contracts. *)
Theorem createProposal_getProposal_roundtrip :
  (∀ env n m sz h d s s' evs envq,
     HederaVoting.createProposal env n m sz h d s = Ok (s', evs) →
     block_timestamp envq = block_timestamp env →
     block_timestamp env < d
     ∧ HederaVoting.getProposal envq (HederaVoting.proposalCount s') s'
       = Ok {| v_proposalId := HederaVoting.proposalCount s'; v_parkName := n;
               v_message := m; v_parkSize := sz; v_chatTopicHistory := h;
               v_creator := msg_sender env; v_yesVotes := 0; v_noVotes := 0;
               v_deadline := d; v_active := true |})
  ∧ (∀ env n m sz h d s,
     block_timestamp env < d →
     HederaVoting.proposalCount s < MAX_UINT256 →
     ∃ s' evs, HederaVoting.createProposal env n m sz h d s = Ok (s', evs))
  ∧ (∀ env n m sz h d s s' evs envq,
     FlowVoting.createProposal env n m sz h d s = Ok (s', evs) →
     block_timestamp envq = block_timestamp env →
     block_timestamp env < d
     ∧ FlowVoting.getProposal envq (FlowVoting.proposalCount s') s'
       = Ok {| v_proposalId := FlowVoting.proposalCount s'; v_parkName := n;
               v_message := m; v_parkSize := sz; v_chatTopicHistory := h;
               v_creator := msg_sender env; v_yesVotes := 0; v_noVotes := 0;
               v_deadline := d; v_active := true |})
  ∧ (∀ env n m sz h d s,
     block_timestamp env < d →
     FlowVoting.proposalCount s < MAX_UINT256 →
     ∃ s' evs, FlowVoting.createProposal env n m sz h d s = Ok (s', evs)).
Proof.
  split_and!.
  - intros env n m sz h d s s' evs envq Hc Ht.
    apply HederaFacts.hv_createProposal_Ok in Hc as (Hd & _ & -> & _).
    split; [done|].
    rewrite HederaFacts.hv_getProposal_Ok
      by (simpl; by rewrite mapping_get_insert_eq).
    cbv zeta. simpl. rewrite mapping_get_insert_eq. simpl.
    rewrite Ht. destruct (Z.leb_spec (block_timestamp env) d); [done | lia].
  - intros env n m sz h d s Hd Hc. do 2 eexists.
    apply HederaFacts.hv_createProposal_Ok. split_and!; [done | lia | done | done].
  - intros env n m sz h d s s' evs envq Hc Ht.
    apply FlowFacts.fv_createProposal_Ok in Hc as (Hd & _ & -> & _).
    split; [done|].
    rewrite FlowFacts.fv_getProposal_Ok
      by (simpl; by rewrite mapping_get_insert_eq).
    cbv zeta. simpl. rewrite mapping_get_insert_eq. simpl.
    rewrite Ht. destruct (Z.leb_spec (block_timestamp env) d); [done | lia].
  - intros env n m sz h d s Hd Hc. do 2 eexists.
    apply FlowFacts.fv_createProposal_Ok. split_and!; [done | lia | done | done].
Qed.

Lemma createProposal_getProposal_roundtrip_witness :
  HederaVoting.getProposal (Sample.at_ 3 200) 2
    (HederaVoting.apply Sample.hederaState
       (Sample.at_ 7 200, HederaVoting.CreateProposal "Elm" "plant trees" 45 "topic-2" 900))
  = Ok {| v_proposalId := 2; v_parkName := "Elm"; v_message := "plant trees";
          v_parkSize := 45; v_chatTopicHistory := "topic-2"; v_creator := 7;
          v_yesVotes := 0; v_noVotes := 0; v_deadline := 900; v_active := true |}
  ∧ FlowVoting.getProposal (Sample.at_ 3 200) 2
    (FlowVoting.apply Sample.flowState
       (Sample.at_ 7 200, FlowVoting.CreateProposal "Elm" "plant trees" 45 "topic-2" 900))
  = Ok {| v_proposalId := 2; v_parkName := "Elm"; v_message := "plant trees";
          v_parkSize := 45; v_chatTopicHistory := "topic-2"; v_creator := 7;
          v_yesVotes := 0; v_noVotes := 0; v_deadline := 900; v_active := true |}.
Proof.
  destruct createProposal_getProposal_roundtrip as (HH & _ & HF & _). split.
  - destruct (HH (Sample.at_ 7 200) "Elm" "plant trees" 45 "topic-2" 900
                Sample.hederaState
                (HederaVoting.apply Sample.hederaState
                   (Sample.at_ 7 200,
                    HederaVoting.CreateProposal "Elm" "plant trees" 45 "topic-2" 900))
                [ProposalCreated 2 "Elm" "plant trees" 45 "topic-2" 7 900]
                (Sample.at_ 3 200)) as [_ E];
      [vm_compute; reflexivity | reflexivity | exact E].
  - destruct (HF (Sample.at_ 7 200) "Elm" "plant trees" 45 "topic-2" 900
                Sample.flowState
                (FlowVoting.apply Sample.flowState
                   (Sample.at_ 7 200,
                    FlowVoting.CreateProposal "Elm" "plant trees" 45 "topic-2" 900))
                [ProposalCreated 2 "Elm" "plant trees" 45 "topic-2" 7 900]
                (Sample.at_ 3 200)) as [_ E];
      [vm_compute; reflexivity | reflexivity | exact E].
Defined.


(** * Histories of HederaVoting *)

Module HederaHistory.
Import HederaVoting HederaFacts.

(** the three ways a transaction can end *)
Lemma hv_step_cases (tx : Tx) s :
  (∃ e, transact tx.1 tx.2 s = Revert e ∧ apply s tx = s)
  ∨ (∃ n m sz h d s' evs,
       tx.2 = CreateProposal n m sz h d
       ∧ transact tx.1 tx.2 s = Ok ([], s', evs)
       ∧ createProposal tx.1 n m sz h d s = Ok (s', evs)
       ∧ apply s tx = s')
  ∨ (∃ pid sup v s' evs,
       tx.2 = Vote pid sup v
       ∧ transact tx.1 tx.2 s = Ok ([], s', evs)
       ∧ vote tx.1 pid sup v s = Ok (s', evs)
       ∧ apply s tx = s').
Proof.
  destruct tx as [env c]. unfold apply. simpl fst. simpl snd.
  destruct (transact env c s) as [[[rd s'] evs]|e] eqn:E.
  - right. destruct c as [n m sz h d | pid sup v].
    + left. apply hv_transact_create_Ok in E as [-> E]. naive_solver.
    + right. apply hv_transact_vote_Ok in E as [-> E]. naive_solver.
  - left. eauto.
Qed.

Lemma hv_Consistent_init : Consistent init.
Proof.
  split; [done|]. intros pid. unfold getVoters. simpl.
  rewrite !mapping_get_empty. simpl. done.
Qed.

Lemma hv_Consistent_create env n m sz h d s s' evs :
  Consistent s → createProposal env n m sz h d s = Ok (s', evs) → Consistent s'.
Proof.
  intros [Hpos Hs] Hc. apply hv_createProposal_Ok in Hc as (_ & _ & -> & _).
  split; [simpl; lia|]. intros pid. unfold getVoters. simpl.
  destruct (decide (pid = proposalCount s + 1)) as [->|Hne].
  - rewrite mapping_get_insert_eq. simpl.
    destruct (Hs (proposalCount s + 1)) as (_ & Hrange & Hnone). cbv zeta in *.
    destruct (exists_ (mapping_get zeroProposal (proposals s) (proposalCount s + 1))).
    + destruct Hrange; [done | lia].
    + unfold getVoters in Hnone. rewrite Hnone by done.
      split_and!; [done | intros _; lia | done].
  - rewrite mapping_get_insert_ne by done.
    destruct (Hs pid) as (Hsum & Hrange & Hnone). cbv zeta in *.
    split_and!; [done | | done].
    intros Hex. destruct (Hrange Hex). lia.
Qed.

Lemma hv_Consistent_vote env pid0 sup v s s' evs :
  Consistent s → vote env pid0 sup v s = Ok (s', evs) → Consistent s'.
Proof.
  intros [Hpos Hs] Hv. apply hv_vote_Ok in Hv as (Hex & _ & _ & -> & _). cbv zeta in Hex.
  split; [done|]. intros pid. unfold getVoters. simpl.
  destruct (decide (pid = pid0)) as [->|Hne].
  - rewrite !mapping_get_insert_eq.
    destruct (Hs pid0) as (Hsum & Hrange & _). cbv zeta in *.
    unfold getVoters in Hsum. rewrite length_app. simpl.
    split_and!.
    + destruct sup; simpl; lia.
    + intros _. destruct (Hrange Hex). by destruct sup.
    + destruct sup; simpl; rewrite Hex; discriminate.
  - rewrite !mapping_get_insert_ne by done. apply Hs.
Qed.

Lemma hv_Consistent_apply s tx : Consistent s → Consistent (apply s tx).
Proof.
  intros Hs.
  destruct (hv_step_cases tx s)
    as [(e & _ & ->) | [(n & m & sz & h & d & s' & evs & _ & _ & Hc & ->)
                       | (pid & sup & v & s' & evs & _ & _ & Hv & ->)]].
  - done.
  - by eapply hv_Consistent_create.
  - by eapply hv_Consistent_vote.
Qed.

Lemma hv_Consistent_run txs : ∀ s, Consistent s → Consistent (run txs s).
Proof.
  induction txs as [|tx txs IH]; intros s Hs; [done|].
  rewrite hv_run_cons. apply IH. by apply hv_Consistent_apply.
Qed.

(** [getVoters] grows by the voters of the accepted votes, in call order *)
Lemma hv_getVoters_run pid txs : ∀ s,
  getVoters pid (run txs s) = getVoters pid s ++ votersOf pid (accepted txs s).
Proof.
  induction txs as [|tx txs IH]; intros s.
  - simpl. by rewrite app_nil_r.
  - rewrite hv_run_cons, IH. simpl accepted.
    destruct (hv_step_cases tx s)
      as [(e & E & ->) | [(n & m & sz & h & d & s' & evs & Etx & E & Hc & ->)
                         | (pid0 & sup & v & s' & evs & Etx & E & Hv & ->)]];
      rewrite E.
    + done.
    + apply hv_createProposal_Ok in Hc as (_ & _ & -> & _).
      unfold votersOf at 2. simpl omap. rewrite Etx. done.
    + apply hv_vote_Ok in Hv as (_ & _ & _ & -> & _).
      unfold votersOf at 2. simpl omap. rewrite Etx.
      unfold getVoters. simpl voters.
      destruct (decide (pid0 = pid)) as [->|Hne].
      * rewrite mapping_get_insert_eq, <- app_assoc. done.
      * rewrite mapping_get_insert_ne by done. done.
Qed.

(** the ids of the [ProposalCreated] events are consecutive *)
Lemma hv_createdIds_run txs : ∀ s,
  proposalCount s ≤ proposalCount (run txs s)
  ∧ createdIds (emitted txs s)
    = seqZ (proposalCount s + 1) (proposalCount (run txs s) - proposalCount s).
Proof.
  induction txs as [|tx txs IH]; intros s.
  - simpl. rewrite Z.sub_diag. done.
  - rewrite hv_run_cons. simpl emitted.
    destruct (hv_step_cases tx s)
      as [(e & E & ->) | [(n & m & sz & h & d & s' & evs & Etx & E & Hc & ->)
                         | (pid0 & sup & v & s' & evs & Etx & E & Hv & ->)]];
      rewrite E.
    + apply IH.
    + destruct (IH s') as [Hle Hids].
      apply hv_createProposal_Ok in Hc as (_ & _ & -> & ->).
      simpl in *. split; [lia|].
      rewrite Hids. rewrite (seqZ_cons (proposalCount s + 1)) by lia.
      f_equal. f_equal; lia.
    + destruct (IH s') as [Hle Hids].
      apply hv_vote_Ok in Hv as (_ & _ & _ & -> & ->).
      simpl in *. done.
Qed.

End HederaHistory.

(** * Histories of FlowVoting *)

Module FlowHistory.
Import FlowVoting FlowFacts.

Lemma fv_step_cases (tx : Tx) s :
  (∃ e, transact tx.1 tx.2 s = Revert e ∧ apply s tx = s)
  ∨ (∃ n m sz h d s' evs,
       tx.2 = CreateProposal n m sz h d
       ∧ transact tx.1 tx.2 s = Ok ([], s', evs)
       ∧ createProposal tx.1 n m sz h d s = Ok (s', evs)
       ∧ apply s tx = s')
  ∨ (∃ pid sup s' evs,
       tx.2 = Vote pid sup
       ∧ transact tx.1 tx.2 s = Ok ([], s', evs)
       ∧ vote tx.1 pid sup s = Ok (s', evs)
       ∧ apply s tx = s').
Proof.
  destruct tx as [env c]. unfold apply. simpl fst. simpl snd.
  destruct (transact env c s) as [[[rd s'] evs]|e] eqn:E.
  - right. destruct c as [n m sz h d | pid sup].
    + left. apply fv_transact_create_Ok in E as [-> E]. naive_solver.
    + right. apply fv_transact_vote_Ok in E as [-> E]. naive_solver.
  - left. eauto.
Qed.

(** what an accepted vote does to [hasVoted] *)
Lemma fv_hasVoted_get_vote env pid0 sup s s' evs pid a :
  vote env pid0 sup s = Ok (s', evs) →
  hasVoted_get s' pid a =
    if decide (pid = pid0 ∧ a = msg_sender env) then true else hasVoted_get s pid a.
Proof.
  intros Hv. apply fv_vote_Ok in Hv as (_ & _ & _ & _ & -> & _).
  unfold hasVoted_get. simpl.
  destruct (decide (pid = pid0)) as [->|Hne].
  - rewrite mapping_get_insert_eq.
    destruct (decide (a = msg_sender env)) as [->|Hne].
    + rewrite lookup_insert_eq. by rewrite decide_True.
    + rewrite lookup_insert_ne by done. rewrite decide_False by (try intros [??]; congruence). done.
  - rewrite mapping_get_insert_ne by done. rewrite decide_False by (try intros [??]; congruence). done.
Qed.

Lemma fv_hasVoted_get_create env n m sz h d s s' evs pid a :
  createProposal env n m sz h d s = Ok (s', evs) →
  hasVoted_get s' pid a = hasVoted_get s pid a.
Proof. intros Hc. by apply fv_createProposal_Ok in Hc as (_ & _ & -> & _). Qed.

Lemma fv_votedSet_lookup s pid a :
  votedSet s pid !! a = if hasVoted_get s pid a then Some true else None.
Proof.
  unfold votedSet, hasVoted_get.
  destruct (mapping_get ∅ (hasVoted s) pid !! a) as [[|]|] eqn:E; simpl.
  - apply map_lookup_filter_Some. done.
  - apply map_lookup_filter_None. right. intros x. rewrite E. by intros [= <-].
  - apply map_lookup_filter_None. by left.
Qed.

Lemma fv_votedSet_vote env pid0 sup s s' evs pid :
  vote env pid0 sup s = Ok (s', evs) →
  votedSet s' pid =
    if decide (pid = pid0) then <[msg_sender env := true]> (votedSet s pid)
    else votedSet s pid.
Proof.
  intros Hv. apply map_eq. intros a.
  rewrite fv_votedSet_lookup, (fv_hasVoted_get_vote _ _ _ _ _ _ _ _ Hv).
  destruct (decide (pid = pid0)) as [->|Hne].
  - destruct (decide (a = msg_sender env)) as [->|Hne].
    + rewrite decide_True by done. by rewrite lookup_insert_eq.
    + rewrite decide_False by (try intros [??]; congruence).
      rewrite lookup_insert_ne by done. by rewrite fv_votedSet_lookup.
  - rewrite decide_False by (try intros [??]; congruence). by rewrite fv_votedSet_lookup.
Qed.

Lemma fv_votedSet_size_vote env pid0 sup s s' evs pid :
  vote env pid0 sup s = Ok (s', evs) →
  size (votedSet s' pid) =
    if decide (pid0 = pid) then S (size (votedSet s pid)) else size (votedSet s pid).
Proof.
  intros Hv. rewrite (fv_votedSet_vote _ _ _ _ _ _ _ Hv).
  apply fv_vote_Ok in Hv as (_ & _ & Hfresh & _).
  destruct (decide (pid = pid0)) as [->|Hne].
  - rewrite decide_True by done. apply map_size_insert_None.
    rewrite fv_votedSet_lookup. by rewrite Hfresh.
  - rewrite decide_False by (try intros [??]; congruence). done.
Qed.

Lemma fv_Consistent_init : Consistent init.
Proof.
  split; [done|]. intros pid. unfold votedSet. simpl.
  rewrite !mapping_get_empty. simpl. rewrite map_filter_empty. done.
Qed.

Lemma fv_Consistent_create env n m sz h d s s' evs :
  Consistent s → createProposal env n m sz h d s = Ok (s', evs) → Consistent s'.
Proof.
  intros [Hpos Hs] Hc. apply fv_createProposal_Ok in Hc as (_ & _ & -> & _).
  split; [simpl; lia|]. intros pid. unfold votedSet. simpl.
  destruct (decide (pid = proposalCount s + 1)) as [->|Hne].
  - rewrite mapping_get_insert_eq. simpl.
    destruct (Hs (proposalCount s + 1)) as (_ & Hrange & Hnone). cbv zeta in *.
    destruct (exists_ (mapping_get zeroProposal (proposals s) (proposalCount s + 1))).
    + destruct Hrange; [done | lia].
    + unfold votedSet in Hnone. rewrite Hnone by done.
      split_and!; [done | intros _; lia | done].
  - rewrite mapping_get_insert_ne by done.
    destruct (Hs pid) as (Hsum & Hrange & Hnone). cbv zeta in *.
    split_and!; [done | | done].
    intros Hex. destruct (Hrange Hex). lia.
Qed.

Lemma fv_Consistent_vote env pid0 sup s s' evs :
  Consistent s → vote env pid0 sup s = Ok (s', evs) → Consistent s'.
Proof.
  intros [Hpos Hs] Hv.
  pose proof (fv_votedSet_size_vote _ _ _ _ _ _ pid0 Hv) as Hsize.
  pose proof (λ pid, fv_votedSet_vote _ _ _ _ _ _ pid Hv) as Hset.
  rewrite decide_True in Hsize by done.
  apply fv_vote_Ok in Hv as (Hex & _ & _ & _ & Es & _). cbv zeta in Hex.
  split; [by subst s'|]. intros pid. cbv zeta.
  destruct (decide (pid = pid0)) as [->|Hne].
  - rewrite Hsize. subst s'. simpl. rewrite mapping_get_insert_eq.
    destruct (Hs pid0) as (Hsum & Hrange & _). cbv zeta in *.
    split_and!.
    + destruct sup; simpl; lia.
    + intros _. destruct (Hrange Hex). by destruct sup.
    + destruct sup; simpl; rewrite Hex; discriminate.
  - rewrite Hset, decide_False by done. subst s'. simpl.
    rewrite mapping_get_insert_ne by done. apply Hs.
Qed.

Lemma fv_Consistent_apply s tx : Consistent s → Consistent (apply s tx).
Proof.
  intros Hs.
  destruct (fv_step_cases tx s)
    as [(e & _ & ->) | [(n & m & sz & h & d & s' & evs & _ & _ & Hc & ->)
                       | (pid & sup & s' & evs & _ & _ & Hv & ->)]].
  - done.
  - by eapply fv_Consistent_create.
  - by eapply fv_Consistent_vote.
Qed.

Lemma fv_Consistent_run txs : ∀ s, Consistent s → Consistent (run txs s).
Proof.
  induction txs as [|tx txs IH]; intros s Hs; [done|].
  rewrite fv_run_cons. apply IH. by apply fv_Consistent_apply.
Qed.

End FlowHistory.

Module FlowTraces.
Import FlowVoting FlowFacts FlowHistory.

Lemma fv_votersOf_cons pid (tx : Tx) txs :
  votersOf pid (tx :: txs) =
    match tx.2 with
    | Vote p _ =>
        if decide (p = pid) then msg_sender tx.1 :: votersOf pid txs
        else votersOf pid txs
    | CreateProposal _ _ _ _ _ => votersOf pid txs
    end.
Proof.
  unfold votersOf. simpl. destruct (tx.2); [done|]. by case_decide.
Qed.

(** [hasVoted] is true exactly for the callers of the accepted votes *)
Lemma fv_hasVoted_run pid a txs : ∀ s,
  hasVoted_get (run txs s) pid a = true ↔
  hasVoted_get s pid a = true ∨ a ∈ votersOf pid (accepted txs s).
Proof.
  induction txs as [|tx txs IH]; intros s.
  - simpl. unfold votersOf. simpl. rewrite elem_of_nil. tauto.
  - rewrite fv_run_cons, IH. simpl accepted.
    destruct (fv_step_cases tx s)
      as [(e & E & ->) | [(n & m & sz & h & d & s' & evs & Etx & E & Hc & ->)
                         | (pid0 & sup & s' & evs & Etx & E & Hv & ->)]];
      rewrite E.
    + done.
    + rewrite (fv_hasVoted_get_create _ _ _ _ _ _ _ _ _ pid a Hc).
      rewrite fv_votersOf_cons, Etx. done.
    + rewrite (fv_hasVoted_get_vote _ _ _ _ _ _ pid a Hv).
      rewrite fv_votersOf_cons, Etx.
      destruct (decide (pid0 = pid)) as [->|Hne].
      * rewrite elem_of_cons.
        destruct (decide (a = msg_sender tx.1)) as [->|Hna].
        -- rewrite decide_True by done. tauto.
        -- rewrite decide_False by (intros [??]; done). tauto.
      * rewrite decide_False by (intros [??]; congruence). done.
Qed.

Lemma fv_votedSet_size_run pid txs : ∀ s,
  size (votedSet (run txs s) pid)
  = (size (votedSet s pid) + length (votersOf pid (accepted txs s)))%nat.
Proof.
  induction txs as [|tx txs IH]; intros s.
  - simpl. unfold votersOf. simpl. lia.
  - rewrite fv_run_cons, IH. simpl accepted.
    destruct (fv_step_cases tx s)
      as [(e & E & ->) | [(n & m & sz & h & d & s' & evs & Etx & E & Hc & ->)
                         | (pid0 & sup & s' & evs & Etx & E & Hv & ->)]];
      rewrite E.
    + done.
    + apply fv_createProposal_Ok in Hc as (_ & _ & -> & _).
      rewrite fv_votersOf_cons, Etx. done.
    + rewrite (fv_votedSet_size_vote _ _ _ _ _ _ pid Hv).
      rewrite fv_votersOf_cons, Etx.
      destruct (decide (pid0 = pid)); simpl; lia.
Qed.

(** a stored proposal stays stored *)
Lemma fv_exists_run pid txs : ∀ s,
  exists_ (mapping_get zeroProposal (proposals s) pid) = true →
  exists_ (mapping_get zeroProposal (proposals (run txs s)) pid) = true.
Proof.
  induction txs as [|tx txs IH]; intros s Hex; [done|].
  rewrite fv_run_cons. apply IH.
  destruct (fv_step_cases tx s)
    as [(e & E & ->) | [(n & m & sz & h & d & s' & evs & Etx & E & Hc & ->)
                       | (pid0 & sup & s' & evs & Etx & E & Hv & ->)]].
  - done.
  - apply fv_createProposal_Ok in Hc as (_ & _ & -> & _). simpl.
    destruct (decide (proposalCount s + 1 = pid)) as [<-|Hne].
    + by rewrite mapping_get_insert_eq.
    + by rewrite mapping_get_insert_ne.
  - apply fv_vote_Ok in Hv as (Hex0 & _ & _ & _ & -> & _). simpl.
    destruct (decide (pid0 = pid)) as [->|Hne].
    + rewrite mapping_get_insert_eq. by destruct sup.
    + by rewrite mapping_get_insert_ne.
Qed.

Lemma fv_createdIds_run txs : ∀ s,
  proposalCount s ≤ proposalCount (run txs s)
  ∧ createdIds (emitted txs s)
    = seqZ (proposalCount s + 1) (proposalCount (run txs s) - proposalCount s).
Proof.
  induction txs as [|tx txs IH]; intros s.
  - simpl. rewrite Z.sub_diag. done.
  - rewrite fv_run_cons. simpl emitted.
    destruct (fv_step_cases tx s)
      as [(e & E & ->) | [(n & m & sz & h & d & s' & evs & Etx & E & Hc & ->)
                         | (pid0 & sup & s' & evs & Etx & E & Hv & ->)]];
      rewrite E.
    + apply IH.
    + destruct (IH s') as [Hle Hids].
      apply fv_createProposal_Ok in Hc as (_ & _ & -> & ->).
      simpl in *. split; [lia|].
      rewrite Hids. rewrite (seqZ_cons (proposalCount s + 1)) by lia.
      f_equal. f_equal; lia.
    + destruct (IH s') as [Hle Hids].
      apply fv_vote_Ok in Hv as (_ & _ & _ & _ & -> & ->).
      simpl in *. done.
Qed.

(** every accepted transaction returns no data *)
Lemma fv_proposalCount_run txs : ∀ s,
  proposalCount (run txs s) ≤ proposalCount s + Z.of_nat (length txs).
Proof.
  induction txs as [|tx txs IH]; intros s; [simpl; lia|].
  rewrite fv_run_cons. specialize (IH (apply s tx)). simpl length.
  destruct (fv_step_cases tx s)
    as [(e & _ & Ea) | [(n & m & sz & h & d & s' & evs & _ & _ & Hc & Ea)
                       | (pid0 & sup & s' & evs & _ & _ & Hv & Ea)]];
    rewrite Ea in *.
  - lia.
  - apply fv_createProposal_Ok in Hc as (_ & _ & -> & _). simpl in *. lia.
  - apply fv_vote_Ok in Hv as (_ & _ & _ & _ & -> & _). simpl in *. lia.
Qed.

Lemma fv_returned_run txs : ∀ s, Forall (λ rd, rd = []) (returned txs s).
Proof.
  induction txs as [|tx txs IH]; intros s; simpl; [constructor|].
  destruct (fv_step_cases tx s)
    as [(e & E & _) | [(n & m & sz & h & d & s' & evs & _ & E & _)
                      | (pid0 & sup & s' & evs & _ & E & _)]];
    rewrite E; [apply IH | constructor; [done | apply IH] ..].
Qed.

End FlowTraces.

Module HederaTraces.
Import HederaVoting HederaFacts HederaHistory.

Lemma hv_returned_run txs : ∀ s, Forall (λ rd, rd = []) (returned txs s).
Proof.
  induction txs as [|tx txs IH]; intros s; simpl; [constructor|].
  destruct (hv_step_cases tx s)
    as [(e & E & _) | [(n & m & sz & h & d & s' & evs & _ & E & _)
                      | (pid0 & sup & v & s' & evs & _ & E & _)]];
    rewrite E; [apply IH | constructor; [done | apply IH] ..].
Qed.

(** each accepted creation adds one to [proposalCount], nothing else changes it *)
Lemma hv_proposalCount_run txs : ∀ s,
  proposalCount (run txs s) ≤ proposalCount s + Z.of_nat (length txs).
Proof.
  induction txs as [|tx txs IH]; intros s; [simpl; lia|].
  rewrite hv_run_cons. specialize (IH (apply s tx)). simpl length.
  destruct (hv_step_cases tx s)
    as [(e & _ & Ea) | [(n & m & sz & h & d & s' & evs & _ & _ & Hc & Ea)
                       | (pid0 & sup & v & s' & evs & _ & _ & Hv & Ea)]];
    rewrite Ea in *.
  - lia.
  - apply hv_createProposal_Ok in Hc as (_ & _ & -> & _). simpl in *. lia.
  - apply hv_vote_Ok in Hv as (_ & _ & _ & -> & _). simpl in *. lia.
Qed.

Lemma hv_counts_nonneg_run txs : ∀ s,
  (∀ pid, 0 ≤ yesVotes (mapping_get zeroProposal (proposals s) pid)
          ∧ 0 ≤ noVotes (mapping_get zeroProposal (proposals s) pid)) →
  ∀ pid, 0 ≤ yesVotes (mapping_get zeroProposal (proposals (run txs s)) pid)
         ∧ 0 ≤ noVotes (mapping_get zeroProposal (proposals (run txs s)) pid).
Proof.
  induction txs as [|tx txs IH]; intros s Hs; [done|].
  rewrite hv_run_cons. apply IH. intros pid.
  destruct (hv_step_cases tx s)
    as [(e & _ & ->) | [(n & m & sz & h & d & s' & evs & _ & _ & Hc & ->)
                       | (pid0 & sup & v & s' & evs & _ & _ & Hv & ->)]].
  - apply Hs.
  - apply hv_createProposal_Ok in Hc as (_ & _ & -> & _). simpl.
    destruct (decide (proposalCount s + 1 = pid)) as [<-|Hne].
    + rewrite mapping_get_insert_eq. simpl. lia.
    + rewrite mapping_get_insert_ne by done. apply Hs.
  - apply hv_vote_Ok in Hv as (_ & _ & _ & -> & _). simpl.
    destruct (decide (pid0 = pid)) as [->|Hne].
    + rewrite mapping_get_insert_eq. destruct (Hs pid). destruct sup; simpl; lia.
    + rewrite mapping_get_insert_ne by done. apply Hs.
Qed.

Lemma hv_accepted_length txs : ∀ s, (length (accepted txs s) ≤ length txs)%nat.
Proof.
  induction txs as [|tx txs IH]; intros s; simpl; [lia|].
  destruct (transact tx.1 tx.2 s) as [[[??]?]|]; simpl.
  - specialize (IH s0). lia.
  - specialize (IH s). lia.
Qed.

Lemma hv_votersOf_cons pid (tx : Tx) txs :
  votersOf pid (tx :: txs) =
    match tx.2 with
    | Vote p _ v =>
        if decide (p = pid) then v :: votersOf pid txs else votersOf pid txs
    | CreateProposal _ _ _ _ _ => votersOf pid txs
    end.
Proof.
  unfold votersOf. simpl. destruct (tx.2); [done|]. by case_decide.
Qed.

Lemma hv_votersOf_length pid txs : (length (votersOf pid txs) ≤ length txs)%nat.
Proof.
  induction txs as [|tx txs IH]; [done|].
  rewrite hv_votersOf_cons. destruct (tx.2); simpl; [lia|].
  case_decide; simpl; lia.
Qed.

(** a history of fewer than [2^256 - 1] transactions overflows no counter *)
Lemma hv_counters_fit txs pid sup :
  Z.of_nat (length txs) < MAX_UINT256 →
  proposalCount (run txs init) < MAX_UINT256
  ∧ chosenVotes sup (mapping_get zeroProposal (proposals (run txs init)) pid)
    < MAX_UINT256.
Proof.
  intros Hlen. split.
  - pose proof (hv_proposalCount_run txs init). simpl in *. lia.
  - destruct (hv_Consistent_run txs _ hv_Consistent_init) as [_ Hs].
    destruct (Hs pid) as (Hsum & _). cbv zeta in Hsum.
    rewrite hv_getVoters_run in Hsum.
    unfold getVoters at 1 in Hsum. simpl in Hsum.
    rewrite mapping_get_empty in Hsum. simpl in Hsum.
    pose proof (hv_votersOf_length pid (accepted txs init)).
    pose proof (hv_accepted_length txs init).
    destruct (hv_counts_nonneg_run txs init) with (pid := pid) as [Hy Hn].
    { intros pid'. simpl. rewrite mapping_get_empty. simpl. lia. }
    unfold chosenVotes. destruct sup; lia.
Qed.

End HederaTraces.

(** * The claims about histories *)

(** C2 as stated fails on one point: [createProposal] declares no [returns],
    so the call hands back no id.  On the empty ledger the first call
    succeeds and allocates id 1, yet its return data is empty.  Both
    contracts. *)
Lemma createProposal_returns_no_id :
  (∃ rd s' evs,
     HederaVoting.transact (Sample.at_ 7 100)
       (HederaVoting.CreateProposal "Oak Park" "add benches" 120 "topic-1" 3700)
       HederaVoting.init = Ok (rd, s', evs)
     ∧ HederaVoting.getTotalProposals s' = 1
     ∧ rd = []
     ∧ rd ≠ [AUint 1])
  ∧ (∃ rd s' evs,
     FlowVoting.transact (Sample.at_ 7 100)
       (FlowVoting.CreateProposal "Oak Park" "add benches" 120 "topic-1" 3700)
       FlowVoting.init = Ok (rd, s', evs)
     ∧ FlowVoting.getTotalProposals s' = 1
     ∧ rd = []
     ∧ rd ≠ [AUint 1]).
Proof.
  split.
  - exists [],
      (HederaVoting.apply HederaVoting.init
         (Sample.at_ 7 100,
          HederaVoting.CreateProposal "Oak Park" "add benches" 120 "topic-1" 3700)),
      [ProposalCreated 1 "Oak Park" "add benches" 120 "topic-1" 7 3700].
    split_and!; [vm_compute; reflexivity | reflexivity | reflexivity | discriminate].
  - exists [],
      (FlowVoting.apply FlowVoting.init
         (Sample.at_ 7 100,
          FlowVoting.CreateProposal "Oak Park" "add benches" 120 "topic-1" 3700)),
      [ProposalCreated 1 "Oak Park" "add benches" 120 "topic-1" 7 3700].
    split_and!; [vm_compute; reflexivity | reflexivity | reflexivity | discriminate].
Qed.

(** C2, amended: a successful [createProposal] returns no data and allocates
    the next id: [proposalCount] (read back by [getTotalProposals]) becomes
    its old value plus one, the record is stored under that id and carries it
    in [proposalId], and the [ProposalCreated] event carries it.  Over any
    history from the empty ledger the ids so allocated are [1, 2, 3, ...] in
    call order, the k-th accepted creation allocating id k, so no id is
    allocated twice.  Both contracts. *)
Theorem createProposal_allocates_consecutive_ids :
  (∀ env n m sz h d s rd s' evs,
     HederaVoting.transact env (HederaVoting.CreateProposal n m sz h d) s
       = Ok (rd, s', evs) →
     rd = []
     ∧ HederaVoting.getTotalProposals s' = HederaVoting.getTotalProposals s + 1
     ∧ evs = [ProposalCreated (HederaVoting.getTotalProposals s') n m sz h
                (msg_sender env) d]
     ∧ exists_ (mapping_get zeroProposal (HederaVoting.proposals s')
                  (HederaVoting.getTotalProposals s')) = true
     ∧ proposalId (mapping_get zeroProposal (HederaVoting.proposals s')
                     (HederaVoting.getTotalProposals s'))
       = HederaVoting.getTotalProposals s')
  ∧ (∀ txs,
     let ids := createdIds (HederaVoting.emitted txs HederaVoting.init) in
     ids = seqZ 1 (HederaVoting.getTotalProposals
                     (HederaVoting.run txs HederaVoting.init))
     ∧ (∀ (k : nat) i, ids !! k = Some i → i = Z.of_nat k + 1)
     ∧ NoDup ids
     ∧ Forall (λ rd, rd = []) (HederaVoting.returned txs HederaVoting.init))
  ∧ (∀ env n m sz h d s rd s' evs,
     FlowVoting.transact env (FlowVoting.CreateProposal n m sz h d) s
       = Ok (rd, s', evs) →
     rd = []
     ∧ FlowVoting.getTotalProposals s' = FlowVoting.getTotalProposals s + 1
     ∧ evs = [ProposalCreated (FlowVoting.getTotalProposals s') n m sz h
                (msg_sender env) d]
     ∧ exists_ (mapping_get zeroProposal (FlowVoting.proposals s')
                  (FlowVoting.getTotalProposals s')) = true
     ∧ proposalId (mapping_get zeroProposal (FlowVoting.proposals s')
                     (FlowVoting.getTotalProposals s'))
       = FlowVoting.getTotalProposals s')
  ∧ (∀ txs,
     let ids := createdIds (FlowVoting.emitted txs FlowVoting.init) in
     ids = seqZ 1 (FlowVoting.getTotalProposals
                     (FlowVoting.run txs FlowVoting.init))
     ∧ (∀ (k : nat) i, ids !! k = Some i → i = Z.of_nat k + 1)
     ∧ NoDup ids
     ∧ Forall (λ rd, rd = []) (FlowVoting.returned txs FlowVoting.init)).
Proof.
  split_and!.
  - intros env n m sz h d s rd s' evs E.
    apply HederaFacts.hv_transact_create_Ok in E as [-> E].
    apply HederaFacts.hv_createProposal_Ok in E as (_ & _ & -> & ->).
    unfold HederaVoting.getTotalProposals. simpl.
    rewrite mapping_get_insert_eq. done.
  - intros txs ids.
    destruct (HederaHistory.hv_createdIds_run txs HederaVoting.init) as [_ Hids].
    simpl in Hids. rewrite Z.sub_0_r in Hids. fold ids in Hids.
    unfold HederaVoting.getTotalProposals. split_and!.
    + done.
    + intros k i Hk. rewrite Hids in Hk. apply lookup_seqZ in Hk. lia.
    + rewrite Hids. apply NoDup_seqZ.
    + apply HederaTraces.hv_returned_run.
  - intros env n m sz h d s rd s' evs E.
    apply FlowFacts.fv_transact_create_Ok in E as [-> E].
    apply FlowFacts.fv_createProposal_Ok in E as (_ & _ & -> & ->).
    unfold FlowVoting.getTotalProposals. simpl.
    rewrite mapping_get_insert_eq. done.
  - intros txs ids.
    destruct (FlowTraces.fv_createdIds_run txs FlowVoting.init) as [_ Hids].
    simpl in Hids. rewrite Z.sub_0_r in Hids. fold ids in Hids.
    unfold FlowVoting.getTotalProposals. split_and!.
    + done.
    + intros k i Hk. rewrite Hids in Hk. apply lookup_seqZ in Hk. lia.
    + rewrite Hids. apply NoDup_seqZ.
    + apply FlowTraces.fv_returned_run.
Qed.

Lemma createProposal_allocates_consecutive_ids_witness :
  HederaVoting.getTotalProposals
    (HederaVoting.apply Sample.hederaState
       (Sample.at_ 7 200, HederaVoting.CreateProposal "Elm" "plant trees" 45 "topic-2" 900))
  = HederaVoting.getTotalProposals Sample.hederaState + 1
  ∧ FlowVoting.getTotalProposals
    (FlowVoting.apply Sample.flowState
       (Sample.at_ 7 200, FlowVoting.CreateProposal "Elm" "plant trees" 45 "topic-2" 900))
  = FlowVoting.getTotalProposals Sample.flowState + 1.
Proof.
  destruct createProposal_allocates_consecutive_ids as (HH & _ & HF & _). split.
  - refine (proj1 (proj2 (HH (Sample.at_ 7 200) "Elm" "plant trees" 45 "topic-2" 900
             Sample.hederaState []
             (HederaVoting.apply Sample.hederaState
                (Sample.at_ 7 200,
                 HederaVoting.CreateProposal "Elm" "plant trees" 45 "topic-2" 900))
             [ProposalCreated 2 "Elm" "plant trees" 45 "topic-2" 7 900] _))).
    vm_compute. reflexivity.
  - refine (proj1 (proj2 (HF (Sample.at_ 7 200) "Elm" "plant trees" 45 "topic-2" 900
             Sample.flowState []
             (FlowVoting.apply Sample.flowState
                (Sample.at_ 7 200,
                 FlowVoting.CreateProposal "Elm" "plant trees" 45 "topic-2" 900))
             [ProposalCreated 2 "Elm" "plant trees" 45 "topic-2" 7 900] _))).
    vm_compute. reflexivity.
Defined.

(** C3: HederaVoting's [vote] makes no duplicate check.  On a stored proposal
    whose deadline has not passed, and whose chosen counter is below the
    largest [uint256] (as it is after any history of fewer than [2^256 - 1]
    transactions), a [vote] naming any identity succeeds, adds one to the
    chosen counter and appends the identity to the proposal's voter list,
    also when that identity is already on the list; so after a successful
    vote naming [v], a second vote naming [v] succeeds and [v] is on the list
    twice.  Over any history from the empty ledger [getVoters] returns the
    identities named by the accepted votes on the proposal, in call order. *)
Theorem hedera_vote_allows_repeats :
  (∀ env pid sup v s,
     let p := mapping_get zeroProposal (HederaVoting.proposals s) pid in
     exists_ p = true →
     block_timestamp env ≤ deadline p →
     chosenVotes sup p < MAX_UINT256 →
     ∃ s',
       HederaVoting.vote env pid sup v s = Ok (s', [VoteCast pid v sup])
       ∧ chosenVotes sup (mapping_get zeroProposal (HederaVoting.proposals s') pid)
         = chosenVotes sup p + 1
       ∧ HederaVoting.getVoters pid s' = HederaVoting.getVoters pid s ++ [v])
  ∧ (∀ env1 env2 pid sup1 sup2 v s s1 evs1,
     HederaVoting.vote env1 pid sup1 v s = Ok (s1, evs1) →
     let p1 := mapping_get zeroProposal (HederaVoting.proposals s1) pid in
     block_timestamp env2 ≤ deadline p1 →
     chosenVotes sup2 p1 < MAX_UINT256 →
     ∃ s2,
       HederaVoting.vote env2 pid sup2 v s1 = Ok (s2, [VoteCast pid v sup2])
       ∧ chosenVotes sup2 (mapping_get zeroProposal (HederaVoting.proposals s2) pid)
         = chosenVotes sup2 p1 + 1
       ∧ HederaVoting.getVoters pid s2 = HederaVoting.getVoters pid s ++ [v; v])
  ∧ (∀ txs pid,
     HederaVoting.getVoters pid (HederaVoting.run txs HederaVoting.init)
     = HederaVoting.votersOf pid (HederaVoting.accepted txs HederaVoting.init))
  ∧ (∀ txs env pid sup v,
     Z.of_nat (length txs) < MAX_UINT256 →
     let s := HederaVoting.run txs HederaVoting.init in
     let p := mapping_get zeroProposal (HederaVoting.proposals s) pid in
     exists_ p = true →
     block_timestamp env ≤ deadline p →
     v ∈ HederaVoting.getVoters pid s →
     ∃ s',
       HederaVoting.vote env pid sup v s = Ok (s', [VoteCast pid v sup])
       ∧ chosenVotes sup (mapping_get zeroProposal (HederaVoting.proposals s') pid)
         = chosenVotes sup p + 1
       ∧ HederaVoting.getVoters pid s' = HederaVoting.getVoters pid s ++ [v]).
Proof.
  assert (∀ env pid sup v s,
     let p := mapping_get zeroProposal (HederaVoting.proposals s) pid in
     exists_ p = true →
     block_timestamp env ≤ deadline p →
     chosenVotes sup p < MAX_UINT256 →
     ∃ s',
       HederaVoting.vote env pid sup v s = Ok (s', [VoteCast pid v sup])
       ∧ chosenVotes sup (mapping_get zeroProposal (HederaVoting.proposals s') pid)
         = chosenVotes sup p + 1
       ∧ HederaVoting.getVoters pid s' = HederaVoting.getVoters pid s ++ [v]) as Hone.
  { intros env pid sup v s p Hex Hdl Hfit. eexists. split.
    - apply HederaFacts.hv_vote_Ok. cbv zeta. fold p.
      split_and!; [done | done | lia | reflexivity | reflexivity].
    - unfold HederaVoting.getVoters. simpl. rewrite !mapping_get_insert_eq.
      split; [|done]. by destruct sup. }
  split_and!.
  - exact Hone.
  - intros env1 env2 pid sup1 sup2 v s s1 evs1 Hv p1 Hdl Hfit.
    assert (exists_ p1 = true ∧ HederaVoting.getVoters pid s1
                                = HederaVoting.getVoters pid s ++ [v]) as [Hex Hvs].
    { apply HederaFacts.hv_vote_Ok in Hv as (Hex & _ & _ & Es & _). subst p1 s1.
      unfold HederaVoting.getVoters. simpl. rewrite !mapping_get_insert_eq.
      split; [|done]. cbv zeta in Hex. by destruct sup1. }
    destruct (Hone env2 pid sup2 v s1 Hex Hdl Hfit) as (s2 & E & Hc & Hg).
    exists s2. split_and!; [done | done |].
    rewrite Hg, Hvs, <- app_assoc. done.
  - intros txs pid. rewrite HederaHistory.hv_getVoters_run.
    unfold HederaVoting.getVoters at 1. simpl. by rewrite mapping_get_empty.
  - intros txs env pid sup v Hlen s p Hex Hdl _.
    apply Hone; [done | done |].
    by apply HederaTraces.hv_counters_fit.
Qed.

Lemma hedera_vote_allows_repeats_witness :
  (∃ s', HederaVoting.vote (Sample.at_ 9 3700) 1 true 5 Sample.hederaState
         = Ok (s', [VoteCast 1 5 true])
         ∧ HederaVoting.getVoters 1 s' = [5; 6; 5])
  ∧ HederaVoting.getVoters 1 Sample.hederaState = [5; 6].
Proof.
  destruct hedera_vote_allows_repeats as (Hone & _ & Hhist & _). split.
  - destruct (Hone (Sample.at_ 9 3700) 1 true 5 Sample.hederaState)
      as (s' & E & _ & Hg);
      [reflexivity | vm_compute; discriminate | vm_compute; reflexivity |].
    exists s'. split; [exact E | exact Hg].
  - exact (Hhist Sample.hederaTxs 1).
Defined.

(** C4 as stated fails on one point: the deadline is checked before the
    duplicate, so a second vote by the same identity made after the deadline
    fails with [VotingClosed], not with [DuplicateVote].  Identity 5 has voted
    on proposal 1 (deadline 3700) and votes again at time 3701. *)
Lemma flow_second_vote_after_deadline :
  FlowVoting.hasUserVoted 1 5 Sample.flowState = true
  ∧ FlowVoting.vote (Sample.at_ 5 3701) 1 true Sample.flowState = Revert VotingClosed
  ∧ VotingClosed ≠ DuplicateVote.
Proof. split_and!; [reflexivity | vm_compute; reflexivity | discriminate]. Qed.

(** C4, amended: in FlowVoting, once an identity has completed a successful
    vote on a proposal, every later [vote] by that identity on that proposal
    fails, whatever happened in between: with [DuplicateVote] as long as the
    block time is not after the proposal's deadline, and with [VotingClosed]
    once it is.  Over any history from the empty ledger
    [hasUserVoted(proposalId, identity)] is true exactly for the identities
    that completed a successful vote on that proposal. *)
Theorem flow_vote_rejects_repeats :
  (∀ env1 env2 pid sup1 sup2 s s1 evs1 txs,
     FlowVoting.vote env1 pid sup1 s = Ok (s1, evs1) →
     msg_sender env2 = msg_sender env1 →
     let s2 := FlowVoting.run txs s1 in
     let p2 := mapping_get zeroProposal (FlowVoting.proposals s2) pid in
     (block_timestamp env2 ≤ deadline p2 →
        FlowVoting.vote env2 pid sup2 s2 = Revert DuplicateVote)
     ∧ (deadline p2 < block_timestamp env2 →
        FlowVoting.vote env2 pid sup2 s2 = Revert VotingClosed))
  ∧ (∀ txs pid a,
     FlowVoting.hasUserVoted pid a (FlowVoting.run txs FlowVoting.init) = true
     ↔ a ∈ FlowVoting.votersOf pid (FlowVoting.accepted txs FlowVoting.init)).
Proof.
  split.
  - intros env1 env2 pid sup1 sup2 s s1 evs1 txs Hv Hsender s2 p2.
    assert (FlowVoting.hasVoted_get s2 pid (msg_sender env2) = true) as Hvoted.
    { subst s2. apply FlowTraces.fv_hasVoted_run. left.
      rewrite (FlowHistory.fv_hasVoted_get_vote _ _ _ _ _ _ pid (msg_sender env2) Hv).
      by rewrite decide_True. }
    assert (exists_ p2 = true) as Hex.
    { subst p2 s2. apply FlowTraces.fv_exists_run.
      apply FlowFacts.fv_vote_Ok in Hv as (Hex & _ & _ & _ & -> & _). simpl.
      rewrite mapping_get_insert_eq. cbv zeta in Hex. by destruct sup1. }
    split; intros Hdl.
    + by apply FlowFacts.fv_vote_duplicate.
    + by apply FlowFacts.fv_vote_closed.
  - intros txs pid a. unfold FlowVoting.hasUserVoted.
    rewrite FlowTraces.fv_hasVoted_run.
    unfold FlowVoting.hasVoted_get at 1. simpl.
    rewrite mapping_get_empty, lookup_empty. simpl. split; [|tauto].
    intros [?|?]; [discriminate | done].
Qed.

Lemma flow_vote_rejects_repeats_witness :
  FlowVoting.vote (Sample.at_ 8 3700) 1 false
    (FlowVoting.run
       [(Sample.at_ 7 200, FlowVoting.CreateProposal "Elm" "plant trees" 45 "t" 900)]
       (FlowVoting.apply Sample.flowState (Sample.at_ 8 130, FlowVoting.Vote 1 true)))
  = Revert DuplicateVote
  ∧ FlowVoting.vote (Sample.at_ 8 3701) 1 false
    (FlowVoting.run
       [(Sample.at_ 7 200, FlowVoting.CreateProposal "Elm" "plant trees" 45 "t" 900)]
       (FlowVoting.apply Sample.flowState (Sample.at_ 8 130, FlowVoting.Vote 1 true)))
  = Revert VotingClosed.
Proof.
  destruct flow_vote_rejects_repeats as (Hrep & _).
  assert (FlowVoting.vote (Sample.at_ 8 130) 1 true Sample.flowState
          = Ok (FlowVoting.apply Sample.flowState (Sample.at_ 8 130, FlowVoting.Vote 1 true),
                [VoteCast 1 8 true])) as E by (vm_compute; reflexivity).
  split.
  - apply (Hrep (Sample.at_ 8 130) (Sample.at_ 8 3700) 1 true false _ _ _
             [(Sample.at_ 7 200, FlowVoting.CreateProposal "Elm" "plant trees" 45 "t" 900)]
             E); [reflexivity | vm_compute; discriminate].
  - apply (Hrep (Sample.at_ 8 130) (Sample.at_ 8 3701) 1 true false _ _ _
             [(Sample.at_ 7 200, FlowVoting.CreateProposal "Elm" "plant trees" 45 "t" 900)]
             E); [reflexivity | vm_compute; reflexivity].
Defined.

(** C7: on every ledger reached from the empty one, each proposal's
    [yesVotes + noVotes] equals the number of accepted votes on it: in
    HederaVoting the length of its voter list, in FlowVoting the number of
    identities whose [hasVoted] flag is true.  The equality is part of
    [Consistent], which holds of the empty ledger and is kept by every
    transaction (a newly created proposal starts with both counters 0 and no
    recorded voter). *)
Theorem votes_add_up :
  (HederaVoting.Consistent HederaVoting.init
   ∧ (∀ s tx, HederaVoting.Consistent s → HederaVoting.Consistent (HederaVoting.apply s tx))
   ∧ ∀ txs pid,
       let s := HederaVoting.run txs HederaVoting.init in
       let p := mapping_get zeroProposal (HederaVoting.proposals s) pid in
       yesVotes p + noVotes p = Z.of_nat (length (HederaVoting.getVoters pid s))
       ∧ length (HederaVoting.getVoters pid s)
         = length (HederaVoting.votersOf pid
                     (HederaVoting.accepted txs HederaVoting.init)))
  ∧
  (FlowVoting.Consistent FlowVoting.init
   ∧ (∀ s tx, FlowVoting.Consistent s → FlowVoting.Consistent (FlowVoting.apply s tx))
   ∧ ∀ txs pid,
       let s := FlowVoting.run txs FlowVoting.init in
       let p := mapping_get zeroProposal (FlowVoting.proposals s) pid in
       yesVotes p + noVotes p = Z.of_nat (size (FlowVoting.votedSet s pid))
       ∧ (∀ a, is_Some (FlowVoting.votedSet s pid !! a)
               ↔ FlowVoting.hasUserVoted pid a s = true)
       ∧ size (FlowVoting.votedSet s pid)
         = length (FlowVoting.votersOf pid
                     (FlowVoting.accepted txs FlowVoting.init))).
Proof.
  split; split_and!.
  - apply HederaHistory.hv_Consistent_init.
  - intros s tx. apply HederaHistory.hv_Consistent_apply.
  - intros txs pid s p.
    destruct (HederaHistory.hv_Consistent_run txs _ HederaHistory.hv_Consistent_init)
      as [_ Hs].
    destruct (Hs pid) as (Hsum & _). split; [exact Hsum|].
    subst s. rewrite HederaHistory.hv_getVoters_run.
    unfold HederaVoting.getVoters at 1. simpl. by rewrite mapping_get_empty.
  - apply FlowHistory.fv_Consistent_init.
  - intros s tx. apply FlowHistory.fv_Consistent_apply.
  - intros txs pid s p.
    destruct (FlowHistory.fv_Consistent_run txs _ FlowHistory.fv_Consistent_init)
      as [_ Hs].
    destruct (Hs pid) as (Hsum & _). split_and!; [exact Hsum | |].
    + intros a. rewrite FlowHistory.fv_votedSet_lookup.
      unfold FlowVoting.hasUserVoted.
      destruct (FlowVoting.hasVoted_get s pid a); split; done.
    + subst s. rewrite FlowTraces.fv_votedSet_size_run.
      unfold FlowVoting.votedSet at 1. simpl.
      rewrite mapping_get_empty, map_filter_empty. done.
Qed.

Lemma votes_add_up_witness :
  HederaVoting.Consistent Sample.hederaState
  ∧ FlowVoting.Consistent Sample.flowState.
Proof.
  destruct votes_add_up as [(H0 & Hstep & _) (F0 & Fstep & _)]. split.
  - unfold Sample.hederaState, Sample.hederaTxs, HederaVoting.run. simpl foldl.
    repeat apply Hstep. exact H0.
  - unfold Sample.flowState, Sample.flowTxs, FlowVoting.run. simpl foldl.
    repeat apply Fstep. exact F0.
Defined.

(** the scenario of the specification: size 120, deadline one hour ahead,
    one yes by the first address and one no by the second *)
Example scenario_hedera :
  HederaVoting.getProposal (Sample.at_ 0 200) 1 Sample.hederaState
  = Ok {| v_proposalId := 1; v_parkName := "Oak Park"; v_message := "add benches";
          v_parkSize := 120; v_chatTopicHistory := "topic-1"; v_creator := 7;
          v_yesVotes := 1; v_noVotes := 1; v_deadline := 3700; v_active := true |}
  ∧ HederaVoting.getVoters 1 Sample.hederaState = [5; 6].
Proof. split; vm_compute; reflexivity. Qed.

(** C5: on a ledger whose [proposalCount] is below the largest [uint256]
    (every ledger reached from the empty one by fewer than [2^256 - 1]
    transactions is one), [getActiveProposals] returns exactly the ids [i] of
    [1 .. proposalCount] with [proposals[i].exists] and block time
    [<= proposals[i].deadline], in strictly ascending order.  The listing is a
    function of the storage and the block time alone: on one and the same
    ledger an id listed at a time up to its deadline is absent at any time
    after it.  Both contracts. *)
Theorem getActiveProposals_exact :
  (∀ env s,
     HederaVoting.proposalCount s < MAX_UINT256 →
     ActiveListing (HederaVoting.proposals s) (HederaVoting.proposalCount s)
       (block_timestamp env) (HederaVoting.getActiveProposals env s))
  ∧ (∀ env1 env2 s i,
     HederaVoting.proposalCount s < MAX_UINT256 →
     1 ≤ i ≤ HederaVoting.proposalCount s →
     exists_ (mapping_get zeroProposal (HederaVoting.proposals s) i) = true →
     block_timestamp env1 ≤ deadline (mapping_get zeroProposal (HederaVoting.proposals s) i) →
     deadline (mapping_get zeroProposal (HederaVoting.proposals s) i) < block_timestamp env2 →
     ∃ ids1 ids2,
       HederaVoting.getActiveProposals env1 s = Ok ids1
       ∧ HederaVoting.getActiveProposals env2 s = Ok ids2
       ∧ i ∈ ids1 ∧ i ∉ ids2)
  ∧ (∀ env s,
     FlowVoting.proposalCount s < MAX_UINT256 →
     ActiveListing (FlowVoting.proposals s) (FlowVoting.proposalCount s)
       (block_timestamp env) (FlowVoting.getActiveProposals env s))
  ∧ (∀ env1 env2 s i,
     FlowVoting.proposalCount s < MAX_UINT256 →
     1 ≤ i ≤ FlowVoting.proposalCount s →
     exists_ (mapping_get zeroProposal (FlowVoting.proposals s) i) = true →
     block_timestamp env1 ≤ deadline (mapping_get zeroProposal (FlowVoting.proposals s) i) →
     deadline (mapping_get zeroProposal (FlowVoting.proposals s) i) < block_timestamp env2 →
     ∃ ids1 ids2,
       FlowVoting.getActiveProposals env1 s = Ok ids1
       ∧ FlowVoting.getActiveProposals env2 s = Ok ids2
       ∧ i ∈ ids1 ∧ i ∉ ids2)
  ∧ (∀ txs env,
     Z.of_nat (length txs) < MAX_UINT256 →
     let s := HederaVoting.run txs HederaVoting.init in
     ActiveListing (HederaVoting.proposals s) (HederaVoting.proposalCount s)
       (block_timestamp env) (HederaVoting.getActiveProposals env s))
  ∧ (∀ txs env,
     Z.of_nat (length txs) < MAX_UINT256 →
     let s := FlowVoting.run txs FlowVoting.init in
     ActiveListing (FlowVoting.proposals s) (FlowVoting.proposalCount s)
       (block_timestamp env) (FlowVoting.getActiveProposals env s)).
Proof.
  split_and!; try (intros txs env Hlen s; apply getActiveProposals_body_listing).
  5:{ pose proof (HederaTraces.hv_proposalCount_run txs HederaVoting.init) as Hc.
      simpl in Hc. subst s. lia. }
  5:{ pose proof (FlowTraces.fv_proposalCount_run txs FlowVoting.init) as Hc.
      simpl in Hc. subst s. lia. }
  - intros env s Hfit. by apply getActiveProposals_body_listing.
  - intros env1 env2 s i Hfit Hi Hex H1 H2.
    destruct (getActiveProposals_body_listing (HederaVoting.proposals s)
                (HederaVoting.proposalCount s) (block_timestamp env1) Hfit)
      as (ids1 & E1 & _ & M1).
    destruct (getActiveProposals_body_listing (HederaVoting.proposals s)
                (HederaVoting.proposalCount s) (block_timestamp env2) Hfit)
      as (ids2 & E2 & _ & M2).
    exists ids1, ids2. split_and!; [done | done | by apply M1 |].
    rewrite M2. lia.
  - intros env s Hfit. by apply getActiveProposals_body_listing.
  - intros env1 env2 s i Hfit Hi Hex H1 H2.
    destruct (getActiveProposals_body_listing (FlowVoting.proposals s)
                (FlowVoting.proposalCount s) (block_timestamp env1) Hfit)
      as (ids1 & E1 & _ & M1).
    destruct (getActiveProposals_body_listing (FlowVoting.proposals s)
                (FlowVoting.proposalCount s) (block_timestamp env2) Hfit)
      as (ids2 & E2 & _ & M2).
    exists ids1, ids2. split_and!; [done | done | by apply M1 |].
    rewrite M2. lia.
Qed.

Lemma getActiveProposals_exact_witness :
  ActiveListing (HederaVoting.proposals Sample.hederaState) 1 3700
    (HederaVoting.getActiveProposals (Sample.at_ 0 3700) Sample.hederaState)
  ∧ (∃ ids1 ids2,
       HederaVoting.getActiveProposals (Sample.at_ 0 3700) Sample.hederaState = Ok ids1
       ∧ HederaVoting.getActiveProposals (Sample.at_ 0 3701) Sample.hederaState = Ok ids2
       ∧ 1 ∈ ids1 ∧ 1 ∉ ids2)
  ∧ ActiveListing (FlowVoting.proposals Sample.flowState) 1 3700
    (FlowVoting.getActiveProposals (Sample.at_ 0 3700) Sample.flowState)
  ∧ (∃ ids1 ids2,
       FlowVoting.getActiveProposals (Sample.at_ 0 3700) Sample.flowState = Ok ids1
       ∧ FlowVoting.getActiveProposals (Sample.at_ 0 3701) Sample.flowState = Ok ids2
       ∧ 1 ∈ ids1 ∧ 1 ∉ ids2).
Proof.
  destruct getActiveProposals_exact as (H1 & H2 & F1 & F2 & _).
  assert (1 < MAX_UINT256) as Hfit by (unfold MAX_UINT256; lia).
  split_and!.
  - apply (H1 (Sample.at_ 0 3700) Sample.hederaState). exact Hfit.
  - apply (H2 (Sample.at_ 0 3700) (Sample.at_ 0 3701) Sample.hederaState 1);
      [exact Hfit | vm_compute; split; discriminate | reflexivity
      | vm_compute; discriminate | vm_compute; reflexivity].
  - apply (F1 (Sample.at_ 0 3700) Sample.flowState). exact Hfit.
  - apply (F2 (Sample.at_ 0 3700) (Sample.at_ 0 3701) Sample.flowState 1);
      [exact Hfit | vm_compute; split; discriminate | reflexivity
      | vm_compute; discriminate | vm_compute; reflexivity].
Defined.

(** the scan agrees with the specification on the sample ledger *)
Example getActiveProposals_sample :
  HederaVoting.getActiveProposals (Sample.at_ 0 3700) Sample.hederaState = Ok [1]
  ∧ HederaVoting.getActiveProposals (Sample.at_ 0 3701) Sample.hederaState = Ok [].
Proof. split; vm_compute; reflexivity. Qed.

(** * The listing endpoint *)

Module ServerFacts.
Import HederaVoting.

(** one round of the loop: an entry is pushed exactly when proposal [i] is
    stored and not past its deadline, and it carries the id [i] *)
Lemma tryOne_push chain now s i acc :
  Consistent s →
  default acc (Server.tryOne (λ id, query_getProposal chain id s) now i acc)
  = if isActiveAt (proposals s) (block_timestamp chain) i
    then acc ++ [{| Server.id := i;
                    Server.title :=
                      Server.str_or (parkName (mapping_get zeroProposal (proposals s) i))
                        ("Park Proposal #" +:+ pretty i);
                    Server.description :=
                      Server.str_or (message (mapping_get zeroProposal (proposals s) i))
                        "No description provided";
                    Server.location :=
                      "Park Size: "
                      +:+ pretty (parkSize (mapping_get zeroProposal (proposals s) i))
                      +:+ " sq ft";
                    Server.status := "Active Voting";
                    Server.votes_yes := yesVotes (mapping_get zeroProposal (proposals s) i);
                    Server.votes_no := noVotes (mapping_get zeroProposal (proposals s) i);
                    Server.timeLeft :=
                      Server.calculateTimeLeft now
                        (deadline (mapping_get zeroProposal (proposals s) i));
                    Server.e_creator := creator (mapping_get zeroProposal (proposals s) i);
                    Server.e_deadline := deadline (mapping_get zeroProposal (proposals s) i);
                    Server.e_chatTopicHistory :=
                      chatTopicHistory (mapping_get zeroProposal (proposals s) i);
                    Server.e_parkSize := parkSize (mapping_get zeroProposal (proposals s) i) |}]
    else acc.
Proof.
  intros [_ Hs]. destruct (Hs i) as (_ & Hid & _). cbv zeta in Hid.
  unfold Server.tryOne, query_getProposal, getProposal, require, isActiveAt. cbv zeta.
  destruct (exists_ (mapping_get zeroProposal (proposals s) i)); rsimpl; [|done].
  destruct (Hid eq_refl) as [_ Eid].
  unfold abi_of_view. simpl.
  destruct (block_timestamp chain <=? deadline (mapping_get zeroProposal (proposals s) i));
    simpl; [|done].
  by rewrite Eid.
Qed.

Lemma listProposals_ids chain now s ids : ∀ acc,
  Consistent s →
  Server.id <$> foldl (λ proposals id,
                         default proposals
                           (Server.tryOne (λ id, query_getProposal chain id s) now id proposals))
                      acc ids
  = (Server.id <$> acc)
    ++ filter (λ i, isActiveAt (proposals s) (block_timestamp chain) i = true) ids.
Proof.
  induction ids as [|i ids IH]; intros acc Hs.
  - simpl. by rewrite app_nil_r.
  - simpl foldl. rewrite IH by done. rewrite (tryOne_push chain now s i acc Hs).
    rewrite filter_cons.
    destruct (isActiveAt (proposals s) (block_timestamp chain) i) eqn:Hact.
    + rewrite decide_True by done. rewrite fmap_app, <- app_assoc. done.
    + rewrite decide_False by done. done.
Qed.

(** the ids of the response: the active ones among the first twenty *)
Lemma apiProposals_ids chain now s :
  Consistent s →
  Server.id <$> Server.apiProposals chain now s
  = activeIds (proposals s) Server.totalProposals (block_timestamp chain).
Proof.
  intros Hs. unfold Server.apiProposals, Server.listProposals.
  rewrite listProposals_ids by done. done.
Qed.

End ServerFacts.

(** C10: the endpoint asks for the proposals 1 to 20 only.  On every ledger
    reached from the empty one the ids in its response are the active ids
    among [1 .. 20]; none is above 20, whatever [getTotalProposals] is, so an
    active proposal with a larger id is left out. *)
Theorem apiProposals_only_first_twenty :
  ∀ txs chain now,
    let s := HederaVoting.run txs HederaVoting.init in
    let ids := Server.id <$> Server.apiProposals chain now s in
    ids = activeIds (HederaVoting.proposals s) 20 (block_timestamp chain)
    ∧ Forall (λ i, 1 ≤ i ≤ 20) ids
    ∧ (∀ pid, 20 < pid → pid ∉ ids).
Proof.
  intros txs chain now s ids.
  assert (ids = activeIds (HederaVoting.proposals s) 20 (block_timestamp chain)) as E.
  { apply ServerFacts.apiProposals_ids.
    apply HederaHistory.hv_Consistent_run, HederaHistory.hv_Consistent_init. }
  split_and!; [done | |].
  - rewrite E. apply Forall_forall. intros i Hi.
    apply elem_of_activeIds in Hi. lia.
  - intros pid Hpid Hin. rewrite E in Hin.
    apply elem_of_activeIds in Hin. lia.
Qed.

Lemma apiProposals_only_first_twenty_witness :
  HederaVoting.getTotalProposals Sample.manyState = 21
  ∧ (∃ w, HederaVoting.getProposal (Sample.at_ 0 200) 21 Sample.manyState = Ok w
          ∧ v_active w = true)
  ∧ 21 ∉ Server.id <$> Server.apiProposals (Sample.at_ 0 200) 200 Sample.manyState.
Proof.
  split_and!.
  - vm_compute. reflexivity.
  - eexists. split; [vm_compute; reflexivity | reflexivity].
  - apply (apiProposals_only_first_twenty Sample.manyTxs (Sample.at_ 0 200) 200).
    reflexivity.
Defined.

(** the response on the ledger with twenty-one open proposals *)
Example apiProposals_sample :
  Server.id <$> Server.apiProposals (Sample.at_ 0 200) 200 Sample.manyState
  = seqZ 1 20.
Proof. vm_compute. reflexivity. Qed.

(** * Further properties of the two contracts *)

Module HederaMore.
Import HederaVoting HederaFacts HederaHistory HederaTraces.

Lemma hv_castsOn_app pid evs1 evs2 :
  castsOn pid (evs1 ++ evs2) = castsOn pid evs1 ++ castsOn pid evs2.
Proof. unfold castsOn. apply omap_app. Qed.

Lemma hv_countSupport_app b l1 l2 :
  countSupport b (l1 ++ l2) = countSupport b l1 + countSupport b l2.
Proof. unfold countSupport. rewrite filter_app, length_app. lia. Qed.

(** one transaction leaves the static fields of a stored proposal alone *)
Lemma hv_static_apply s tx pid :
  Consistent s →
  exists_ (mapping_get zeroProposal (proposals s) pid) = true →
  staticFields (mapping_get zeroProposal (proposals (apply s tx)) pid)
  = staticFields (mapping_get zeroProposal (proposals s) pid).
Proof.
  intros [_ Hs] Hex. destruct (Hs pid) as (_ & Hrange & _).
  destruct (Hrange Hex) as [Hr _].
  destruct (hv_step_cases tx s)
    as [(e & _ & ->) | [(n & m & sz & h & d & s' & evs & _ & _ & Hc & ->)
                       | (pid0 & sup & v & s' & evs & _ & _ & Hv & ->)]].
  - done.
  - apply hv_createProposal_Ok in Hc as (_ & _ & -> & _). simpl.
    rewrite mapping_get_insert_ne by lia. done.
  - apply hv_vote_Ok in Hv as (_ & _ & _ & -> & _). simpl.
    destruct (decide (pid0 = pid)) as [->|Hne].
    + rewrite mapping_get_insert_eq. by destruct sup.
    + by rewrite mapping_get_insert_ne.
Qed.

Lemma hv_static_run txs : ∀ s pid,
  Consistent s →
  exists_ (mapping_get zeroProposal (proposals s) pid) = true →
  staticFields (mapping_get zeroProposal (proposals (run txs s)) pid)
  = staticFields (mapping_get zeroProposal (proposals s) pid).
Proof.
  induction txs as [|tx txs IH]; intros s pid Hs Hex; [done|].
  rewrite hv_run_cons.
  pose proof (hv_static_apply s tx pid Hs Hex) as E.
  rewrite IH; [done | by apply hv_Consistent_apply |].
  unfold staticFields in E. congruence.
Qed.

Lemma hv_nonneg_apply s tx :
  (∀ pid, 0 ≤ yesVotes (mapping_get zeroProposal (proposals s) pid)
          ∧ 0 ≤ noVotes (mapping_get zeroProposal (proposals s) pid)) →
  ∀ pid, 0 ≤ yesVotes (mapping_get zeroProposal (proposals (apply s tx)) pid)
         ∧ 0 ≤ noVotes (mapping_get zeroProposal (proposals (apply s tx)) pid).
Proof. intros Hs. apply (hv_counts_nonneg_run [tx] s Hs). Qed.

(** a slot without a proposal holds two zero counters *)
Lemma hv_unused_zero s pid :
  Consistent s →
  (∀ pid, 0 ≤ yesVotes (mapping_get zeroProposal (proposals s) pid)
          ∧ 0 ≤ noVotes (mapping_get zeroProposal (proposals s) pid)) →
  exists_ (mapping_get zeroProposal (proposals s) pid) = false →
  yesVotes (mapping_get zeroProposal (proposals s) pid) = 0
  ∧ noVotes (mapping_get zeroProposal (proposals s) pid) = 0
  ∧ getVoters pid s = [].
Proof.
  intros [_ Hs] Hnn Hex. destruct (Hs pid) as (Hsum & _ & Hnone).
  cbv zeta in *. specialize (Hnone Hex). rewrite Hnone in Hsum. simpl in Hsum.
  destruct (Hnn pid). split_and!; [lia | lia | done].
Qed.

(** the counters and the voter list, in terms of the [VoteCast] events *)
Lemma hv_tally_run pid txs : ∀ s,
  Consistent s →
  (∀ pid, 0 ≤ yesVotes (mapping_get zeroProposal (proposals s) pid)
          ∧ 0 ≤ noVotes (mapping_get zeroProposal (proposals s) pid)) →
  let log := castsOn pid (emitted txs s) in
  yesVotes (mapping_get zeroProposal (proposals (run txs s)) pid)
  = yesVotes (mapping_get zeroProposal (proposals s) pid) + countSupport true log
  ∧ noVotes (mapping_get zeroProposal (proposals (run txs s)) pid)
    = noVotes (mapping_get zeroProposal (proposals s) pid) + countSupport false log
  ∧ getVoters pid (run txs s) = getVoters pid s ++ log.*1.
Proof.
  induction txs as [|tx txs IH]; intros s Hs Hnn log.
  - subst log. simpl. unfold countSupport. simpl. rewrite app_nil_r.
    split_and!; [lia | lia | done].
  - subst log. rewrite hv_run_cons. simpl emitted.
    pose proof (hv_Consistent_apply s tx Hs) as Hs'.
    pose proof (hv_nonneg_apply s tx Hnn) as Hnn'.
    specialize (IH (apply s tx) Hs' Hnn'). cbv zeta in IH.
    destruct IH as (IHy & IHn & IHv).
    destruct (hv_step_cases tx s)
      as [(e & E & Ea) | [(n & m & sz & h & d & s' & evs & _ & E & Hc & Ea)
                         | (pid0 & sup & v & s' & evs & _ & E & Hv & Ea)]];
      rewrite E; rewrite Ea in *.
    + done.
    + rewrite IHy, IHn, IHv.
      rewrite hv_castsOn_app, !hv_countSupport_app, fmap_app.
      apply hv_createProposal_Ok in Hc as (_ & _ & -> & ->).
      unfold getVoters. simpl. unfold countSupport. simpl.
      destruct (decide (proposalCount s + 1 = pid)) as [<-|Hne].
      * rewrite mapping_get_insert_eq. simpl.
        destruct (exists_ (mapping_get zeroProposal (proposals s) (proposalCount s + 1)))
          eqn:Hex.
        -- destruct Hs as [_ Hs]. destruct (Hs (proposalCount s + 1)) as (_ & Hr & _).
           destruct (Hr Hex). lia.
        -- destruct (hv_unused_zero s _ Hs Hnn Hex) as (-> & -> & Hv0).
           unfold getVoters in Hv0. rewrite Hv0. done.
      * rewrite mapping_get_insert_ne by done. split_and!; [lia | lia | done].
    + rewrite IHy, IHn, IHv.
      rewrite hv_castsOn_app, !hv_countSupport_app, fmap_app.
      apply hv_vote_Ok in Hv as (_ & _ & _ & -> & ->).
      unfold getVoters. simpl. unfold countSupport, castsOn. simpl.
      destruct (decide (pid0 = pid)) as [->|Hne].
      * rewrite !mapping_get_insert_eq. simpl.
        rewrite <- app_assoc. simpl.
        destruct sup; simpl; split_and!; try done; lia.
      * rewrite !mapping_get_insert_ne by done. simpl.
        split_and!; [lia | lia | done].
Qed.

(** a stored proposal is not touched by transactions made after its deadline *)
Lemma hv_frozen_run txs : ∀ s pid,
  Consistent s →
  exists_ (mapping_get zeroProposal (proposals s) pid) = true →
  Forall (λ tx : Tx, deadline (mapping_get zeroProposal (proposals s) pid)
                     < block_timestamp tx.1) txs →
  mapping_get zeroProposal (proposals (run txs s)) pid
  = mapping_get zeroProposal (proposals s) pid
  ∧ getVoters pid (run txs s) = getVoters pid s.
Proof.
  induction txs as [|tx txs IH]; intros s pid Hs Hex Hlate; [done|].
  apply Forall_cons in Hlate as [Htx Hlate]. rewrite hv_run_cons.
  assert (mapping_get zeroProposal (proposals (apply s tx)) pid
          = mapping_get zeroProposal (proposals s) pid
          ∧ getVoters pid (apply s tx) = getVoters pid s) as [Ep Ev].
  { destruct Hs as [_ Hs0]. destruct (Hs0 pid) as (_ & Hrange & _).
    destruct (Hrange Hex) as [Hr _].
    destruct (hv_step_cases tx s)
      as [(e & _ & ->) | [(n & m & sz & h & d & s' & evs & _ & _ & Hc & ->)
                         | (pid0 & sup & v & s' & evs & _ & _ & Hv & ->)]].
    - done.
    - apply hv_createProposal_Ok in Hc as (_ & _ & -> & _).
      unfold getVoters. simpl. rewrite mapping_get_insert_ne by lia. done.
    - apply hv_vote_Ok in Hv as (_ & Hdl & _ & -> & _). cbv zeta in Hdl.
      unfold getVoters. simpl.
      destruct (decide (pid0 = pid)) as [->|Hne]; [lia|].
      rewrite !mapping_get_insert_ne by done. done. }
  destruct (IH (apply s tx) pid) as [Ep' Ev'].
  - by apply hv_Consistent_apply.
  - by rewrite Ep.
  - by rewrite Ep.
  - split; congruence.
Qed.

(** the stored ids are exactly [1 .. proposalCount] *)
Lemma hv_exists_run txs : ∀ s,
  0 ≤ proposalCount s →
  (∀ i, exists_ (mapping_get zeroProposal (proposals s) i) = true
        ↔ 1 ≤ i ≤ proposalCount s) →
  ∀ i, exists_ (mapping_get zeroProposal (proposals (run txs s)) i) = true
       ↔ 1 ≤ i ≤ proposalCount (run txs s).
Proof.
  induction txs as [|tx txs IH]; intros s Hpos Hs; [done|].
  rewrite hv_run_cons. apply IH.
  { pose proof (hv_proposalCount_run [] (apply s tx)).
    destruct (hv_createdIds_run [tx] s) as [Hle _]. by etrans. }
  intros i.
  destruct (hv_step_cases tx s)
    as [(e & _ & ->) | [(n & m & sz & h & d & s' & evs & _ & _ & Hc & ->)
                       | (pid0 & sup & v & s' & evs & _ & _ & Hv & ->)]].
  - apply Hs.
  - apply hv_createProposal_Ok in Hc as (_ & _ & -> & _). simpl.
    destruct (decide (proposalCount s + 1 = i)) as [<-|Hne].
    + rewrite mapping_get_insert_eq. simpl.
      pose proof (proj1 (Hs (proposalCount s + 1))) as Hle.
      split; [intros _; lia | done].
    + rewrite mapping_get_insert_ne by done. rewrite Hs. lia.
  - apply hv_vote_Ok in Hv as (Hex & _ & _ & -> & _). cbv zeta in Hex. simpl.
    destruct (decide (pid0 = i)) as [->|Hne].
    + rewrite mapping_get_insert_eq. rewrite <- Hs, Hex. by destruct sup.
    + rewrite mapping_get_insert_ne by done. apply Hs.
Qed.

End HederaMore.

Module FlowMore.
Import FlowVoting FlowFacts FlowHistory FlowTraces.

Lemma fv_static_apply s tx pid :
  Consistent s →
  exists_ (mapping_get zeroProposal (proposals s) pid) = true →
  staticFields (mapping_get zeroProposal (proposals (apply s tx)) pid)
  = staticFields (mapping_get zeroProposal (proposals s) pid).
Proof.
  intros [_ Hs] Hex. destruct (Hs pid) as (_ & Hrange & _).
  destruct (Hrange Hex) as [Hr _].
  destruct (fv_step_cases tx s)
    as [(e & _ & ->) | [(n & m & sz & h & d & s' & evs & _ & _ & Hc & ->)
                       | (pid0 & sup & s' & evs & _ & _ & Hv & ->)]].
  - done.
  - apply fv_createProposal_Ok in Hc as (_ & _ & -> & _). simpl.
    rewrite mapping_get_insert_ne by lia. done.
  - apply fv_vote_Ok in Hv as (_ & _ & _ & _ & -> & _). simpl.
    destruct (decide (pid0 = pid)) as [->|Hne].
    + rewrite mapping_get_insert_eq. by destruct sup.
    + by rewrite mapping_get_insert_ne.
Qed.

Lemma fv_static_run txs : ∀ s pid,
  Consistent s →
  exists_ (mapping_get zeroProposal (proposals s) pid) = true →
  staticFields (mapping_get zeroProposal (proposals (run txs s)) pid)
  = staticFields (mapping_get zeroProposal (proposals s) pid).
Proof.
  induction txs as [|tx txs IH]; intros s pid Hs Hex; [done|].
  rewrite fv_run_cons.
  pose proof (fv_static_apply s tx pid Hs Hex) as E.
  rewrite IH; [done | by apply fv_Consistent_apply |].
  unfold staticFields in E. congruence.
Qed.

Lemma fv_nonneg_apply s tx :
  (∀ pid, 0 ≤ yesVotes (mapping_get zeroProposal (proposals s) pid)
          ∧ 0 ≤ noVotes (mapping_get zeroProposal (proposals s) pid)) →
  ∀ pid, 0 ≤ yesVotes (mapping_get zeroProposal (proposals (apply s tx)) pid)
         ∧ 0 ≤ noVotes (mapping_get zeroProposal (proposals (apply s tx)) pid).
Proof.
  intros Hs pid.
  destruct (fv_step_cases tx s)
    as [(e & _ & ->) | [(n & m & sz & h & d & s' & evs & _ & _ & Hc & ->)
                       | (pid0 & sup & s' & evs & _ & _ & Hv & ->)]].
  - apply Hs.
  - apply fv_createProposal_Ok in Hc as (_ & _ & -> & _). simpl.
    destruct (decide (proposalCount s + 1 = pid)) as [<-|Hne].
    + rewrite mapping_get_insert_eq. simpl. lia.
    + rewrite mapping_get_insert_ne by done. apply Hs.
  - apply fv_vote_Ok in Hv as (_ & _ & _ & _ & -> & _). simpl.
    destruct (decide (pid0 = pid)) as [->|Hne].
    + rewrite mapping_get_insert_eq. destruct (Hs pid).
      unfold castOn. destruct sup; simpl; lia.
    + rewrite mapping_get_insert_ne by done. apply Hs.
Qed.

Lemma fv_unused_zero s pid :
  Consistent s →
  (∀ pid, 0 ≤ yesVotes (mapping_get zeroProposal (proposals s) pid)
          ∧ 0 ≤ noVotes (mapping_get zeroProposal (proposals s) pid)) →
  exists_ (mapping_get zeroProposal (proposals s) pid) = false →
  yesVotes (mapping_get zeroProposal (proposals s) pid) = 0
  ∧ noVotes (mapping_get zeroProposal (proposals s) pid) = 0.
Proof.
  intros [_ Hs] Hnn Hex. destruct (Hs pid) as (Hsum & _ & Hnone).
  cbv zeta in *. specialize (Hnone Hex). rewrite Hnone in Hsum.
  rewrite map_size_empty in Hsum.
  destruct (Hnn pid). lia.
Qed.

Lemma fv_tally_run pid txs : ∀ s,
  Consistent s →
  (∀ pid, 0 ≤ yesVotes (mapping_get zeroProposal (proposals s) pid)
          ∧ 0 ≤ noVotes (mapping_get zeroProposal (proposals s) pid)) →
  let log := castsOn pid (emitted txs s) in
  yesVotes (mapping_get zeroProposal (proposals (run txs s)) pid)
  = yesVotes (mapping_get zeroProposal (proposals s) pid) + countSupport true log
  ∧ noVotes (mapping_get zeroProposal (proposals (run txs s)) pid)
    = noVotes (mapping_get zeroProposal (proposals s) pid) + countSupport false log
  ∧ log.*1 = votersOf pid (accepted txs s).
Proof.
  induction txs as [|tx txs IH]; intros s Hs Hnn log.
  - subst log. simpl. unfold countSupport. simpl.
    split_and!; [lia | lia | done].
  - subst log. rewrite fv_run_cons. simpl emitted. simpl accepted.
    pose proof (fv_Consistent_apply s tx Hs) as Hs'.
    pose proof (fv_nonneg_apply s tx Hnn) as Hnn'.
    specialize (IH (apply s tx) Hs' Hnn'). cbv zeta in IH.
    destruct IH as (IHy & IHn & IHv).
    destruct (fv_step_cases tx s)
      as [(e & E & Ea) | [(n & m & sz & h & d & s' & evs & Etx & E & Hc & Ea)
                         | (pid0 & sup & s' & evs & Etx & E & Hv & Ea)]];
      rewrite E; rewrite Ea in *.
    + done.
    + rewrite IHy, IHn, fv_votersOf_cons, Etx, <- IHv.
      rewrite HederaMore.hv_castsOn_app, !HederaMore.hv_countSupport_app, fmap_app.
      apply fv_createProposal_Ok in Hc as (_ & _ & -> & ->).
      simpl. unfold countSupport. simpl.
      destruct (decide (proposalCount s + 1 = pid)) as [<-|Hne].
      * rewrite mapping_get_insert_eq. simpl.
        destruct (exists_ (mapping_get zeroProposal (proposals s) (proposalCount s + 1)))
          eqn:Hex.
        -- destruct Hs as [_ Hs]. destruct (Hs (proposalCount s + 1)) as (_ & Hr & _).
           destruct (Hr Hex). lia.
        -- destruct (fv_unused_zero s _ Hs Hnn Hex) as (-> & ->). done.
      * rewrite mapping_get_insert_ne by done. split_and!; [lia | lia | done].
    + rewrite IHy, IHn, fv_votersOf_cons, Etx, <- IHv.
      rewrite HederaMore.hv_castsOn_app, !HederaMore.hv_countSupport_app, fmap_app.
      apply fv_vote_Ok in Hv as (_ & _ & _ & _ & -> & ->).
      simpl. unfold countSupport, castsOn. simpl.
      destruct (decide (pid0 = pid)) as [->|Hne].
      * rewrite !mapping_get_insert_eq. simpl.
        destruct sup; simpl; split_and!; try done; lia.
      * rewrite !mapping_get_insert_ne by done. simpl.
        split_and!; [lia | lia | done].
Qed.

Lemma fv_frozen_run txs : ∀ s pid,
  Consistent s →
  exists_ (mapping_get zeroProposal (proposals s) pid) = true →
  Forall (λ tx : Tx, deadline (mapping_get zeroProposal (proposals s) pid)
                     < block_timestamp tx.1) txs →
  mapping_get zeroProposal (proposals (run txs s)) pid
  = mapping_get zeroProposal (proposals s) pid
  ∧ ∀ a, hasVoted_get (run txs s) pid a = hasVoted_get s pid a.
Proof.
  induction txs as [|tx txs IH]; intros s pid Hs Hex Hlate; [done|].
  apply Forall_cons in Hlate as [Htx Hlate]. rewrite fv_run_cons.
  assert (mapping_get zeroProposal (proposals (apply s tx)) pid
          = mapping_get zeroProposal (proposals s) pid
          ∧ ∀ a, hasVoted_get (apply s tx) pid a = hasVoted_get s pid a) as [Ep Ev].
  { destruct Hs as [_ Hs0]. destruct (Hs0 pid) as (_ & Hrange & _).
    destruct (Hrange Hex) as [Hr _].
    destruct (fv_step_cases tx s)
      as [(e & _ & ->) | [(n & m & sz & h & d & s' & evs & _ & _ & Hc & ->)
                         | (pid0 & sup & s' & evs & _ & _ & Hv & ->)]].
    - done.
    - split; [|intros a; by eapply fv_hasVoted_get_create].
      apply fv_createProposal_Ok in Hc as (_ & _ & -> & _).
      simpl. rewrite mapping_get_insert_ne by lia. done.
    - pose proof (λ a, fv_hasVoted_get_vote _ _ _ _ _ _ pid a Hv) as Hh.
      apply fv_vote_Ok in Hv as (_ & Hdl & _ & _ & -> & _). cbv zeta in Hdl.
      destruct (decide (pid0 = pid)) as [->|Hne]; [lia|].
      split.
      + simpl. by rewrite mapping_get_insert_ne.
      + intros a. rewrite Hh. rewrite decide_False by (intros [??]; congruence). done. }
  destruct (IH (apply s tx) pid) as [Ep' Ev'].
  - by apply fv_Consistent_apply.
  - by rewrite Ep.
  - by rewrite Ep.
  - split; [congruence|]. intros a. by rewrite Ev', Ev.
Qed.

Lemma fv_exists_upto_run txs : ∀ s,
  0 ≤ proposalCount s →
  (∀ i, exists_ (mapping_get zeroProposal (proposals s) i) = true
        ↔ 1 ≤ i ≤ proposalCount s) →
  ∀ i, exists_ (mapping_get zeroProposal (proposals (run txs s)) i) = true
       ↔ 1 ≤ i ≤ proposalCount (run txs s).
Proof.
  induction txs as [|tx txs IH]; intros s Hpos Hs; [done|].
  rewrite fv_run_cons. apply IH.
  { destruct (fv_createdIds_run [tx] s) as [Hle _]. by etrans. }
  intros i.
  destruct (fv_step_cases tx s)
    as [(e & _ & ->) | [(n & m & sz & h & d & s' & evs & _ & _ & Hc & ->)
                       | (pid0 & sup & s' & evs & _ & _ & Hv & ->)]].
  - apply Hs.
  - apply fv_createProposal_Ok in Hc as (_ & _ & -> & _). simpl.
    destruct (decide (proposalCount s + 1 = i)) as [<-|Hne].
    + rewrite mapping_get_insert_eq. simpl. split; [intros _; lia | done].
    + rewrite mapping_get_insert_ne by done. rewrite Hs. lia.
  - apply fv_vote_Ok in Hv as (Hex & _ & _ & _ & -> & _). cbv zeta in Hex. simpl.
    destruct (decide (pid0 = i)) as [->|Hne].
    + rewrite mapping_get_insert_eq. rewrite <- Hs, Hex. by destruct sup.
    + rewrite mapping_get_insert_ne by done. apply Hs.
Qed.

(** no identity is among the accepted voters of a proposal twice *)
Lemma fv_voters_NoDup pid txs : ∀ s,
  NoDup (votersOf pid (accepted txs s))
  ∧ ∀ a, a ∈ votersOf pid (accepted txs s) → hasVoted_get s pid a = false.
Proof.
  induction txs as [|tx txs IH]; intros s.
  - simpl. unfold votersOf. simpl. split; [constructor|]. by intros a ?%elem_of_nil.
  - simpl accepted.
    destruct (fv_step_cases tx s)
      as [(e & E & _) | [(n & m & sz & h & d & s' & evs & Etx & E & Hc & _)
                        | (pid0 & sup & s' & evs & Etx & E & Hv & _)]];
      rewrite E.
    + apply IH.
    + rewrite fv_votersOf_cons, Etx. destruct (IH s') as [Hnd Hfresh].
      split; [done|]. intros a Ha.
      rewrite <- (fv_hasVoted_get_create _ _ _ _ _ _ _ _ _ pid a Hc). by apply Hfresh.
    + rewrite fv_votersOf_cons, Etx. destruct (IH s') as [Hnd Hfresh].
      pose proof (λ a, fv_hasVoted_get_vote _ _ _ _ _ _ pid a Hv) as Hh.
      destruct (decide (pid0 = pid)) as [->|Hne].
      * split.
        -- constructor; [|done]. intros Hin. specialize (Hfresh _ Hin).
           rewrite Hh, decide_True in Hfresh by done. done.
        -- intros a [->|Ha]%elem_of_cons.
           ++ by apply fv_vote_Ok in Hv as (_ & _ & ? & _).
           ++ specialize (Hfresh _ Ha). rewrite Hh in Hfresh.
              by case_decide.
      * split; [done|]. intros a Ha. specialize (Hfresh _ Ha).
        rewrite Hh, decide_False in Hfresh by (intros [??]; congruence). done.
Qed.

End FlowMore.

Lemma hv_init_nonneg pid :
  0 ≤ yesVotes (mapping_get zeroProposal (HederaVoting.proposals HederaVoting.init) pid)
  ∧ 0 ≤ noVotes (mapping_get zeroProposal (HederaVoting.proposals HederaVoting.init) pid).
Proof. simpl. rewrite mapping_get_empty. simpl. lia. Qed.

Lemma fv_init_nonneg pid :
  0 ≤ yesVotes (mapping_get zeroProposal (FlowVoting.proposals FlowVoting.init) pid)
  ∧ 0 ≤ noVotes (mapping_get zeroProposal (FlowVoting.proposals FlowVoting.init) pid).
Proof. simpl. rewrite mapping_get_empty. simpl. lia. Qed.

Lemma hv_reached_nonneg txs pid :
  0 ≤ yesVotes (mapping_get zeroProposal
                  (HederaVoting.proposals (HederaVoting.run txs HederaVoting.init)) pid)
  ∧ 0 ≤ noVotes (mapping_get zeroProposal
                   (HederaVoting.proposals (HederaVoting.run txs HederaVoting.init)) pid).
Proof. apply HederaTraces.hv_counts_nonneg_run. apply hv_init_nonneg. Qed.

Lemma fv_reached_nonneg txs : ∀ s,
  (∀ pid, 0 ≤ yesVotes (mapping_get zeroProposal (FlowVoting.proposals s) pid)
          ∧ 0 ≤ noVotes (mapping_get zeroProposal (FlowVoting.proposals s) pid)) →
  ∀ pid, 0 ≤ yesVotes (mapping_get zeroProposal
                         (FlowVoting.proposals (FlowVoting.run txs s)) pid)
         ∧ 0 ≤ noVotes (mapping_get zeroProposal
                          (FlowVoting.proposals (FlowVoting.run txs s)) pid).
Proof.
  induction txs as [|tx txs IH]; intros s Hs; [done|].
  rewrite FlowFacts.fv_run_cons. apply IH. by apply FlowMore.fv_nonneg_apply.
Qed.

Lemma countSupport_nonneg b l : 0 ≤ countSupport b l.
Proof. unfold countSupport. lia. Qed.

(** X1: a proposal, once stored, is never overwritten or deleted: on every
    ledger reached from the empty one, whatever transactions follow, its id,
    name, message, size, topic, creator, deadline and [exists] flag stay as
    they are.  Both contracts. *)
Theorem proposal_static_fields_kept :
  (∀ txs1 txs2 pid,
     let s1 := HederaVoting.run txs1 HederaVoting.init in
     let s2 := HederaVoting.run txs2 s1 in
     exists_ (mapping_get zeroProposal (HederaVoting.proposals s1) pid) = true →
     staticFields (mapping_get zeroProposal (HederaVoting.proposals s2) pid)
     = staticFields (mapping_get zeroProposal (HederaVoting.proposals s1) pid))
  ∧ (∀ txs1 txs2 pid,
     let s1 := FlowVoting.run txs1 FlowVoting.init in
     let s2 := FlowVoting.run txs2 s1 in
     exists_ (mapping_get zeroProposal (FlowVoting.proposals s1) pid) = true →
     staticFields (mapping_get zeroProposal (FlowVoting.proposals s2) pid)
     = staticFields (mapping_get zeroProposal (FlowVoting.proposals s1) pid)).
Proof.
  split; intros txs1 txs2 pid s1 s2 Hex.
  - apply HederaMore.hv_static_run; [|done].
    apply HederaHistory.hv_Consistent_run, HederaHistory.hv_Consistent_init.
  - apply FlowMore.fv_static_run; [|done].
    apply FlowHistory.fv_Consistent_run, FlowHistory.fv_Consistent_init.
Qed.

Lemma proposal_static_fields_kept_witness :
  staticFields
    (mapping_get zeroProposal
       (HederaVoting.proposals
          (HederaVoting.run
             [(Sample.at_ 9 130, HederaVoting.Vote 1 true 8);
              (Sample.at_ 7 200, HederaVoting.CreateProposal "Elm" "plant trees" 45 "t" 900)]
             Sample.hederaState)) 1)
  = (1, "Oak Park", "add benches", 120, "topic-1", 7, 3700, true)
  ∧ staticFields
    (mapping_get zeroProposal
       (FlowVoting.proposals
          (FlowVoting.run
             [(Sample.at_ 8 130, FlowVoting.Vote 1 true);
              (Sample.at_ 7 200, FlowVoting.CreateProposal "Elm" "plant trees" 45 "t" 900)]
             Sample.flowState)) 1)
  = (1, "Oak Park", "add benches", 120, "topic-1", 7, 3700, true).
Proof.
  destruct proposal_static_fields_kept as [HH HF]. split.
  - etrans; [|reflexivity].
    exact (HH Sample.hederaTxs
             [(Sample.at_ 9 130, HederaVoting.Vote 1 true 8);
              (Sample.at_ 7 200, HederaVoting.CreateProposal "Elm" "plant trees" 45 "t" 900)]
             1 eq_refl).
  - etrans; [|reflexivity].
    exact (HF Sample.flowTxs
             [(Sample.at_ 8 130, FlowVoting.Vote 1 true);
              (Sample.at_ 7 200, FlowVoting.CreateProposal "Elm" "plant trees" 45 "t" 900)]
             1 eq_refl).
Defined.

(** X2: the tallies can be rebuilt from the notifications.  Over any history
    from the empty ledger, a proposal's [yesVotes] is the number of its
    [VoteCast] events with vote [true] and its [noVotes] the number with vote
    [false]; in HederaVoting [getVoters] is the list of the voters of these
    events, in order; in FlowVoting [hasUserVoted] is true exactly for them. *)
Theorem tallies_match_vote_events :
  (∀ txs pid,
     let s := HederaVoting.run txs HederaVoting.init in
     let p := mapping_get zeroProposal (HederaVoting.proposals s) pid in
     let log := castsOn pid (HederaVoting.emitted txs HederaVoting.init) in
     yesVotes p = countSupport true log
     ∧ noVotes p = countSupport false log
     ∧ HederaVoting.getVoters pid s = log.*1)
  ∧ (∀ txs pid,
     let s := FlowVoting.run txs FlowVoting.init in
     let p := mapping_get zeroProposal (FlowVoting.proposals s) pid in
     let log := castsOn pid (FlowVoting.emitted txs FlowVoting.init) in
     yesVotes p = countSupport true log
     ∧ noVotes p = countSupport false log
     ∧ ∀ a, FlowVoting.hasUserVoted pid a s = true ↔ a ∈ log.*1).
Proof.
  split; intros txs pid s p log.
  - destruct (HederaMore.hv_tally_run pid txs HederaVoting.init
                HederaHistory.hv_Consistent_init hv_init_nonneg) as (Hy & Hn & Hv).
    fold s log in Hy, Hn, Hv. fold p in Hy, Hn.
    simpl in Hy, Hn. rewrite mapping_get_empty in Hy, Hn. simpl in Hy, Hn.
    unfold HederaVoting.getVoters at 2 in Hv. simpl in Hv.
    rewrite mapping_get_empty in Hv. done.
  - destruct (FlowMore.fv_tally_run pid txs FlowVoting.init
                FlowHistory.fv_Consistent_init fv_init_nonneg) as (Hy & Hn & Hv).
    fold s log in Hy, Hn, Hv. fold p in Hy, Hn.
    simpl in Hy, Hn. rewrite mapping_get_empty in Hy, Hn. simpl in Hy, Hn.
    split_and!; [done | done |].
    intros a. rewrite Hv. unfold FlowVoting.hasUserVoted. subst s.
    rewrite FlowTraces.fv_hasVoted_run.
    unfold FlowVoting.hasVoted_get at 1. simpl.
    rewrite mapping_get_empty, lookup_empty. simpl. split; [|tauto].
    intros [?|?]; [discriminate | done].
Qed.

(** X3: nothing is ever taken back.  Along any history from the empty ledger
    a proposal's [yesVotes] and [noVotes] and the ledger's [proposalCount]
    never decrease; in HederaVoting the voter list only grows at its end,
    and in FlowVoting an identity that has voted keeps having voted. *)
Theorem counters_never_decrease :
  (∀ txs1 txs2 pid,
     let s1 := HederaVoting.run txs1 HederaVoting.init in
     let s2 := HederaVoting.run txs2 s1 in
     yesVotes (mapping_get zeroProposal (HederaVoting.proposals s1) pid)
       ≤ yesVotes (mapping_get zeroProposal (HederaVoting.proposals s2) pid)
     ∧ noVotes (mapping_get zeroProposal (HederaVoting.proposals s1) pid)
       ≤ noVotes (mapping_get zeroProposal (HederaVoting.proposals s2) pid)
     ∧ HederaVoting.getTotalProposals s1 ≤ HederaVoting.getTotalProposals s2
     ∧ HederaVoting.getVoters pid s1 `prefix_of` HederaVoting.getVoters pid s2)
  ∧ (∀ txs1 txs2 pid,
     let s1 := FlowVoting.run txs1 FlowVoting.init in
     let s2 := FlowVoting.run txs2 s1 in
     yesVotes (mapping_get zeroProposal (FlowVoting.proposals s1) pid)
       ≤ yesVotes (mapping_get zeroProposal (FlowVoting.proposals s2) pid)
     ∧ noVotes (mapping_get zeroProposal (FlowVoting.proposals s1) pid)
       ≤ noVotes (mapping_get zeroProposal (FlowVoting.proposals s2) pid)
     ∧ FlowVoting.getTotalProposals s1 ≤ FlowVoting.getTotalProposals s2
     ∧ ∀ a, FlowVoting.hasUserVoted pid a s1 = true
            → FlowVoting.hasUserVoted pid a s2 = true).
Proof.
  split; intros txs1 txs2 pid s1 s2.
  - destruct (HederaMore.hv_tally_run pid txs2 s1) as (Hy & Hn & Hv).
    { apply HederaHistory.hv_Consistent_run, HederaHistory.hv_Consistent_init. }
    { intros pid'. apply hv_reached_nonneg. }
    fold s2 in Hy, Hn, Hv.
    pose proof (countSupport_nonneg true
                  (castsOn pid (HederaVoting.emitted txs2 s1))).
    pose proof (countSupport_nonneg false
                  (castsOn pid (HederaVoting.emitted txs2 s1))).
    destruct (HederaHistory.hv_createdIds_run txs2 s1) as [Hc _].
    split_and!; [lia | lia | done |].
    rewrite Hv. by eexists.
  - destruct (FlowMore.fv_tally_run pid txs2 s1) as (Hy & Hn & _).
    { apply FlowHistory.fv_Consistent_run, FlowHistory.fv_Consistent_init. }
    { apply fv_reached_nonneg. apply fv_init_nonneg. }
    fold s2 in Hy, Hn.
    pose proof (countSupport_nonneg true
                  (castsOn pid (FlowVoting.emitted txs2 s1))).
    pose proof (countSupport_nonneg false
                  (castsOn pid (FlowVoting.emitted txs2 s1))).
    destruct (FlowTraces.fv_createdIds_run txs2 s1) as [Hc _].
    split_and!; [lia | lia | done |].
    intros a Ha. unfold FlowVoting.hasUserVoted in *. subst s2.
    apply FlowTraces.fv_hasVoted_run. by left.
Qed.

(** X4: the tally is final once the deadline has passed.  If a proposal is
    stored on a ledger reached from the empty one, transactions whose block
    time is after its deadline leave its whole record as it is, and with it
    the voter list (HederaVoting) and the [hasVoted] flags (FlowVoting). *)
Theorem tally_final_after_deadline :
  (∀ txs1 txs2 pid,
     let s1 := HederaVoting.run txs1 HederaVoting.init in
     let p := mapping_get zeroProposal (HederaVoting.proposals s1) pid in
     exists_ p = true →
     Forall (λ tx : HederaVoting.Tx, deadline p < block_timestamp tx.1) txs2 →
     mapping_get zeroProposal (HederaVoting.proposals (HederaVoting.run txs2 s1)) pid = p
     ∧ HederaVoting.getVoters pid (HederaVoting.run txs2 s1)
       = HederaVoting.getVoters pid s1)
  ∧ (∀ txs1 txs2 pid,
     let s1 := FlowVoting.run txs1 FlowVoting.init in
     let p := mapping_get zeroProposal (FlowVoting.proposals s1) pid in
     exists_ p = true →
     Forall (λ tx : FlowVoting.Tx, deadline p < block_timestamp tx.1) txs2 →
     mapping_get zeroProposal (FlowVoting.proposals (FlowVoting.run txs2 s1)) pid = p
     ∧ ∀ a, FlowVoting.hasUserVoted pid a (FlowVoting.run txs2 s1)
            = FlowVoting.hasUserVoted pid a s1).
Proof.
  split; intros txs1 txs2 pid s1 p Hex Hlate.
  - apply HederaMore.hv_frozen_run; [|done|done].
    apply HederaHistory.hv_Consistent_run, HederaHistory.hv_Consistent_init.
  - apply FlowMore.fv_frozen_run; [|done|done].
    apply FlowHistory.fv_Consistent_run, FlowHistory.fv_Consistent_init.
Qed.

Lemma tally_final_after_deadline_witness :
  HederaVoting.getProposal (Sample.at_ 0 9000) 1
    (HederaVoting.run
       [(Sample.at_ 9 3701, HederaVoting.Vote 1 true 8);
        (Sample.at_ 7 3800, HederaVoting.CreateProposal "Elm" "plant trees" 45 "t" 9000);
        (Sample.at_ 9 3900, HederaVoting.Vote 1 false 8)]
       Sample.hederaState)
  = HederaVoting.getProposal (Sample.at_ 0 9000) 1 Sample.hederaState
  ∧ FlowVoting.getProposal (Sample.at_ 0 9000) 1
    (FlowVoting.run
       [(Sample.at_ 8 3701, FlowVoting.Vote 1 true);
        (Sample.at_ 7 3800, FlowVoting.CreateProposal "Elm" "plant trees" 45 "t" 9000)]
       Sample.flowState)
  = FlowVoting.getProposal (Sample.at_ 0 9000) 1 Sample.flowState.
Proof.
  destruct tally_final_after_deadline as [HH HF]. split.
  - destruct (HH Sample.hederaTxs
                [(Sample.at_ 9 3701, HederaVoting.Vote 1 true 8);
                 (Sample.at_ 7 3800,
                  HederaVoting.CreateProposal "Elm" "plant trees" 45 "t" 9000);
                 (Sample.at_ 9 3900, HederaVoting.Vote 1 false 8)] 1) as [E _].
    + reflexivity.
    + repeat constructor.
    + unfold HederaVoting.getProposal. cbv zeta.
      change (HederaVoting.run Sample.hederaTxs HederaVoting.init)
        with Sample.hederaState in E.
      rewrite E. reflexivity.
  - destruct (HF Sample.flowTxs
                [(Sample.at_ 8 3701, FlowVoting.Vote 1 true);
                 (Sample.at_ 7 3800,
                  FlowVoting.CreateProposal "Elm" "plant trees" 45 "t" 9000)] 1) as [E _].
    + reflexivity.
    + repeat constructor.
    + unfold FlowVoting.getProposal. cbv zeta.
      change (FlowVoting.run Sample.flowTxs FlowVoting.init)
        with Sample.flowState in E.
      rewrite E. reflexivity.
Defined.

Lemma hv_reached_exists txs i :
  exists_ (mapping_get zeroProposal
             (HederaVoting.proposals (HederaVoting.run txs HederaVoting.init)) i) = true
  ↔ 1 ≤ i ≤ HederaVoting.proposalCount (HederaVoting.run txs HederaVoting.init).
Proof.
  apply HederaMore.hv_exists_run; [done|].
  intros j. simpl. rewrite mapping_get_empty. simpl. split; [done | lia].
Qed.

Lemma fv_reached_exists txs i :
  exists_ (mapping_get zeroProposal
             (FlowVoting.proposals (FlowVoting.run txs FlowVoting.init)) i) = true
  ↔ 1 ≤ i ≤ FlowVoting.proposalCount (FlowVoting.run txs FlowVoting.init).
Proof.
  apply FlowMore.fv_exists_upto_run; [done|].
  intros j. simpl. rewrite mapping_get_empty. simpl. split; [done | lia].
Qed.

(** X5: on a ledger reached from the empty one, [getProposal(i)] succeeds
    exactly for the ids [1 .. getTotalProposals], returning a record whose
    [proposalId] is [i]; for every other id (0 included) it fails with
    [ProposalNotFound].  [getTotalProposals] is the number of
    [ProposalCreated] events, that is of accepted creations.  Both
    contracts. *)
Theorem getProposal_defined_on_allocated_ids :
  (∀ txs env i,
     let s := HederaVoting.run txs HederaVoting.init in
     (1 ≤ i ≤ HederaVoting.getTotalProposals s →
        ∃ w, HederaVoting.getProposal env i s = Ok w ∧ v_proposalId w = i)
     ∧ (¬ (1 ≤ i ≤ HederaVoting.getTotalProposals s) →
        HederaVoting.getProposal env i s = Revert ProposalNotFound)
     ∧ HederaVoting.getTotalProposals s
       = Z.of_nat (length (createdIds (HederaVoting.emitted txs HederaVoting.init))))
  ∧ (∀ txs env i,
     let s := FlowVoting.run txs FlowVoting.init in
     (1 ≤ i ≤ FlowVoting.getTotalProposals s →
        ∃ w, FlowVoting.getProposal env i s = Ok w ∧ v_proposalId w = i)
     ∧ (¬ (1 ≤ i ≤ FlowVoting.getTotalProposals s) →
        FlowVoting.getProposal env i s = Revert ProposalNotFound)
     ∧ FlowVoting.getTotalProposals s
       = Z.of_nat (length (createdIds (FlowVoting.emitted txs FlowVoting.init)))).
Proof.
  split; intros txs env i s.
  - pose proof (hv_reached_exists txs i) as Hex. fold s in Hex.
    destruct (HederaHistory.hv_Consistent_run txs _ HederaHistory.hv_Consistent_init)
      as [Hpos Hs]. fold s in Hpos, Hs.
    unfold HederaVoting.getTotalProposals. split_and!.
    + intros Hi. apply Hex in Hi. eexists. split.
      * by apply HederaFacts.hv_getProposal_Ok.
      * simpl. destruct (Hs i) as (_ & Hr & _). by destruct (Hr Hi).
    + intros Hi. apply HederaFacts.hv_getProposal_not_found.
      destruct (exists_ _) eqn:E; [|done]. destruct Hi. by apply Hex.
    + destruct (HederaHistory.hv_createdIds_run txs HederaVoting.init) as [_ Hids].
      rewrite Hids, length_seqZ. simpl. fold s. lia.
  - pose proof (fv_reached_exists txs i) as Hex. fold s in Hex.
    destruct (FlowHistory.fv_Consistent_run txs _ FlowHistory.fv_Consistent_init)
      as [Hpos Hs]. fold s in Hpos, Hs.
    unfold FlowVoting.getTotalProposals. split_and!.
    + intros Hi. apply Hex in Hi. eexists. split.
      * by apply FlowFacts.fv_getProposal_Ok.
      * simpl. destruct (Hs i) as (_ & Hr & _). by destruct (Hr Hi).
    + intros Hi. unfold FlowVoting.getProposal, require. cbv zeta.
      destruct (exists_ _) eqn:E; [|done]. destruct Hi. by apply Hex.
    + destruct (FlowTraces.fv_createdIds_run txs FlowVoting.init) as [_ Hids].
      rewrite Hids, length_seqZ. simpl. fold s. lia.
Qed.

Lemma getProposal_defined_on_allocated_ids_witness :
  (∃ w, HederaVoting.getProposal (Sample.at_ 0 200) 21 Sample.manyState = Ok w
        ∧ v_proposalId w = 21)
  ∧ HederaVoting.getProposal (Sample.at_ 0 200) 22 Sample.manyState
    = Revert ProposalNotFound
  ∧ HederaVoting.getProposal (Sample.at_ 0 200) 0 Sample.manyState
    = Revert ProposalNotFound
  ∧ FlowVoting.getProposal (Sample.at_ 0 200) 2 Sample.flowState
    = Revert ProposalNotFound.
Proof.
  destruct getProposal_defined_on_allocated_ids as [HH HF]. split_and!.
  - apply (HH Sample.manyTxs (Sample.at_ 0 200) 21). vm_compute. split; discriminate.
  - apply (HH Sample.manyTxs (Sample.at_ 0 200) 22). vm_compute.
    intros [_ H]. apply H. reflexivity.
  - apply (HH Sample.manyTxs (Sample.at_ 0 200) 0). vm_compute.
    intros [H _]. apply H. reflexivity.
  - apply (HF Sample.flowTxs (Sample.at_ 0 200) 2). vm_compute.
    intros [_ H]. apply H. reflexivity.
Defined.

(** X6: FlowVoting's [isProposalActive] gives the [active] flag of
    [getProposal], fails with [ProposalNotFound] where [getProposal] does,
    and on a ledger reached from the empty one by fewer than [2^256 - 1]
    transactions it is true exactly for the ids that [getActiveProposals]
    lists. *)
Theorem isProposalActive_agrees :
  (∀ env i s b,
     FlowVoting.isProposalActive env i s = Ok b
     ↔ ∃ w, FlowVoting.getProposal env i s = Ok w ∧ v_active w = b)
  ∧ (∀ env i s e,
     FlowVoting.isProposalActive env i s = Revert e
     ↔ FlowVoting.getProposal env i s = Revert e)
  ∧ (∀ txs env i,
     let s := FlowVoting.run txs FlowVoting.init in
     ¬ (1 ≤ i ≤ FlowVoting.getTotalProposals s) →
     FlowVoting.isProposalActive env i s = Revert ProposalNotFound)
  ∧ (∀ txs env i,
     let s := FlowVoting.run txs FlowVoting.init in
     Z.of_nat (length txs) < MAX_UINT256 →
     ∃ ids, FlowVoting.getActiveProposals env s = Ok ids
            ∧ (i ∈ ids ↔ FlowVoting.isProposalActive env i s = Ok true)).
Proof.
  split_and!.
  - intros env i s b. unfold FlowVoting.isProposalActive, FlowVoting.getProposal, require.
    cbv zeta. destruct (exists_ _); rsimpl.
    + split; [intros [= <-]; by eexists | intros (w & [= <-] & <-); done].
    + split; [discriminate | intros (w & ? & _); discriminate].
  - intros env i s e. unfold FlowVoting.isProposalActive, FlowVoting.getProposal, require.
    cbv zeta. destruct (exists_ _); rsimpl.
    + split; intros H; inversion H.
    + split; intros H; inversion H; reflexivity.
  - intros txs env i s Hi.
    unfold FlowVoting.isProposalActive, require. cbv zeta.
    destruct (exists_ _) eqn:E; [|done].
    apply fv_reached_exists in E. done.
  - intros txs env i s Hlen.
    destruct (getActiveProposals_body_listing (FlowVoting.proposals s)
                (FlowVoting.proposalCount s) (block_timestamp env))
      as (ids & E & _ & Hmem).
    { pose proof (FlowTraces.fv_proposalCount_run txs FlowVoting.init) as Hc.
      simpl in Hc. subst s. lia. }
    exists ids. split; [exact E|]. rewrite Hmem.
    pose proof (fv_reached_exists txs i) as Hex. fold s in Hex.
    unfold FlowVoting.isProposalActive, require. cbv zeta.
    destruct (exists_ _) eqn:Ee; rsimpl.
    + destruct (Z.leb_spec (block_timestamp env)
                  (deadline (mapping_get zeroProposal (FlowVoting.proposals s) i))).
      * split; [intros _; reflexivity|]. intros _.
        split; [by apply Hex | split; done].
      * split; [lia | intros H'; inversion H'].
    + split; [intros (_ & ? & _); done | intros H'; inversion H'].
Qed.

Lemma isProposalActive_agrees_witness :
  FlowVoting.isProposalActive (Sample.at_ 0 200) 2 Sample.flowState
    = Revert ProposalNotFound
  ∧ ∃ ids, FlowVoting.getActiveProposals (Sample.at_ 0 3700) Sample.flowState = Ok ids
           ∧ (1 ∈ ids ↔ FlowVoting.isProposalActive (Sample.at_ 0 3700) 1 Sample.flowState
                         = Ok true).
Proof.
  destruct isProposalActive_agrees as (_ & _ & H3 & H4). split.
  - apply (H3 Sample.flowTxs (Sample.at_ 0 200) 2). vm_compute.
    intros [_ H]. apply H. reflexivity.
  - apply (H4 Sample.flowTxs (Sample.at_ 0 3700) 1). unfold MAX_UINT256. simpl. lia.
Defined.

(** X7: the listing and the single-proposal view agree.  On a ledger reached
    from the empty one by fewer than [2^256 - 1] transactions
    [getActiveProposals] lists an id exactly when [getProposal] of that id
    succeeds with [active = true], and it lists at most [getTotalProposals]
    ids.  Both contracts. *)
Theorem listing_agrees_with_getProposal :
  (∀ txs env,
     let s := HederaVoting.run txs HederaVoting.init in
     Z.of_nat (length txs) < MAX_UINT256 →
     ∃ ids, HederaVoting.getActiveProposals env s = Ok ids
            ∧ Z.of_nat (length ids) ≤ HederaVoting.getTotalProposals s
            ∧ ∀ i, i ∈ ids ↔ ∃ w, HederaVoting.getProposal env i s = Ok w
                                  ∧ v_active w = true)
  ∧ (∀ txs env,
     let s := FlowVoting.run txs FlowVoting.init in
     Z.of_nat (length txs) < MAX_UINT256 →
     ∃ ids, FlowVoting.getActiveProposals env s = Ok ids
            ∧ Z.of_nat (length ids) ≤ FlowVoting.getTotalProposals s
            ∧ ∀ i, i ∈ ids ↔ ∃ w, FlowVoting.getProposal env i s = Ok w
                                  ∧ v_active w = true).
Proof.
  split; intros txs env s Hlen.
  - assert (HederaVoting.proposalCount s < MAX_UINT256) as Hfit.
    { pose proof (HederaTraces.hv_proposalCount_run txs HederaVoting.init) as Hc.
      simpl in Hc. subst s. lia. }
    assert (0 ≤ HederaVoting.proposalCount s) as Hpos.
    { by destruct (HederaHistory.hv_Consistent_run txs _
                     HederaHistory.hv_Consistent_init). }
    exists (activeIds (HederaVoting.proposals s) (HederaVoting.proposalCount s)
              (block_timestamp env)).
    split_and!.
    + by apply getActiveProposals_body_spec.
    + unfold activeIds, HederaVoting.getTotalProposals.
      pose proof (length_filter
        (λ i, isActiveAt (HederaVoting.proposals s) (block_timestamp env) i = true)
        (seqZ 1 (HederaVoting.proposalCount s))) as Hl.
      rewrite length_seqZ in Hl. lia.
    + intros i. rewrite elem_of_activeIds.
      pose proof (hv_reached_exists txs i) as Hex. fold s in Hex.
      unfold HederaVoting.getProposal, require. cbv zeta.
      destruct (exists_ _) eqn:Ee; rsimpl.
      * split.
        -- intros (_ & _ & Hd). eexists. split; [reflexivity|]. simpl. by apply Z.leb_le.
        -- intros (w & Hw & Ha). inversion Hw; subst w. simpl in Ha. apply Z.leb_le in Ha.
           split; [by apply Hex | split; done].
      * split; [intros (_ & ? & _); done | intros (w & Hw & _); inversion Hw].
  - assert (FlowVoting.proposalCount s < MAX_UINT256) as Hfit.
    { pose proof (FlowTraces.fv_proposalCount_run txs FlowVoting.init) as Hc.
      simpl in Hc. subst s. lia. }
    assert (0 ≤ FlowVoting.proposalCount s) as Hpos.
    { by destruct (FlowHistory.fv_Consistent_run txs _
                     FlowHistory.fv_Consistent_init). }
    exists (activeIds (FlowVoting.proposals s) (FlowVoting.proposalCount s)
              (block_timestamp env)).
    split_and!.
    + by apply getActiveProposals_body_spec.
    + unfold activeIds, FlowVoting.getTotalProposals.
      pose proof (length_filter
        (λ i, isActiveAt (FlowVoting.proposals s) (block_timestamp env) i = true)
        (seqZ 1 (FlowVoting.proposalCount s))) as Hl.
      rewrite length_seqZ in Hl. lia.
    + intros i. rewrite elem_of_activeIds.
      pose proof (fv_reached_exists txs i) as Hex. fold s in Hex.
      unfold FlowVoting.getProposal, require. cbv zeta.
      destruct (exists_ _) eqn:Ee; rsimpl.
      * split.
        -- intros (_ & _ & Hd). eexists. split; [reflexivity|]. simpl. by apply Z.leb_le.
        -- intros (w & Hw & Ha). inversion Hw; subst w. simpl in Ha. apply Z.leb_le in Ha.
           split; [by apply Hex | split; done].
      * split; [intros (_ & ? & _); done | intros (w & Hw & _); inversion Hw].
Qed.

Lemma listing_agrees_with_getProposal_witness :
  ∃ ids, HederaVoting.getActiveProposals (Sample.at_ 0 3700) Sample.manyState = Ok ids
         ∧ Z.of_nat (length ids) ≤ 21
         ∧ ∀ i, i ∈ ids ↔ ∃ w, HederaVoting.getProposal (Sample.at_ 0 3700) i
                                 Sample.manyState = Ok w
                               ∧ v_active w = true.
Proof.
  destruct listing_agrees_with_getProposal as [HH _].
  apply (HH Sample.manyTxs (Sample.at_ 0 3700)).
  unfold MAX_UINT256. vm_compute. reflexivity.
Defined.

(** X8: FlowVoting records each identity at most once per proposal: over any
    history from the empty ledger the callers of the accepted votes on a
    proposal are pairwise distinct, and so are the voters of its [VoteCast]
    events. *)
Theorem flow_voters_distinct :
  ∀ txs pid,
    NoDup (FlowVoting.votersOf pid (FlowVoting.accepted txs FlowVoting.init))
    ∧ NoDup (castsOn pid (FlowVoting.emitted txs FlowVoting.init)).*1.
Proof.
  intros txs pid.
  destruct (FlowMore.fv_voters_NoDup pid txs FlowVoting.init) as [Hnd _].
  split; [done|].
  destruct (FlowMore.fv_tally_run pid txs FlowVoting.init
              FlowHistory.fv_Consistent_init fv_init_nonneg) as (_ & _ & ->).
  done.
Qed.

(** * Further properties of the listing endpoint *)

Lemma string_length_app (s1 s2 : string) :
  String.length (s1 +:+ s2) = (String.length s1 + String.length s2)%nat.
Proof. induction s1 as [|c s1 IH]; simpl; [done | by rewrite IH]. Qed.




Module ServerMore.
Import HederaVoting.




End ServerMore.



(** * The topic-id extraction *)

#[local] Arguments String.append !_ _ / : simpl nomatch.

Module AgentFacts.
Import Agent.

Lemma string_app_assoc (a b c : string) : (a +:+ b) +:+ c = a +:+ b +:+ c.
Proof. induction a as [|x a IH]; simpl; [done | by f_equal]. Qed.

Lemma prefix_app (p s : string) :
  String.prefix p s = true → ∃ b, s = p +:+ b.
Proof.
  revert s. induction p as [|x p IH]; intros s H; simpl in *.
  - by exists s.
  - destruct s as [|y s]; simpl in H; [done|].
    destruct (ascii_dec x y) as [->|]; [|done].
    destruct (IH s H) as [b ->]. by exists b.
Qed.

Lemma index_cons (p : string) c (s : string) :
  String.index 0 p (String c s)
  = if String.prefix p (String c s) then Some 0%nat
    else match String.index 0 p s with Some n => Some (S n) | None => None end.
Proof. reflexivity. Qed.

Lemma lastIndex_cons (p : string) c (s : string) :
  lastIndex p (String c s)
  = match lastIndex p s with
    | Some n => Some (S n)
    | None => if String.prefix p (String c s) then Some 0%nat else None
    end.
Proof. reflexivity. Qed.

Lemma index_app (p s : string) : ∀ i,
  String.index 0 p s = Some i →
  ∃ a b, s = a +:+ p +:+ b ∧ String.length a = i.
Proof.
  induction s as [|c s IH]; intros i H.
  - simpl in H. destruct p; [|done]. inversion H; subst; clear H. by exists "", "".
  - rewrite index_cons in H. destruct (String.prefix p (String c s)) eqn:Hp.
    + inversion H; subst; clear H. destruct (prefix_app _ _ Hp) as [b Hb].
      by exists "", b.
    + destruct (String.index 0 p s) as [n|] eqn:Hn; [|done].
      inversion H; subst; clear H. destruct (IH n eq_refl) as (a & b & -> & <-).
      by exists (String c a), b.
Qed.

Lemma lastIndex_app (p s : string) : ∀ j,
  lastIndex p s = Some j →
  ∃ a b, s = a +:+ p +:+ b ∧ String.length a = j.
Proof.
  induction s as [|c s IH]; intros j H.
  - cbn [lastIndex] in H. destruct (String.prefix p "") eqn:Hp; [|done].
    inversion H; subst; clear H. destruct (prefix_app _ _ Hp) as [b Hb]. by exists "", b.
  - rewrite lastIndex_cons in H. destruct (lastIndex p s) as [n|] eqn:Hn.
    + inversion H; subst; clear H. destruct (IH n eq_refl) as (a & b & -> & <-).
      by exists (String c a), b.
    + destruct (String.prefix p (String c s)) eqn:Hp; [|done].
      inversion H; subst; clear H. destruct (prefix_app _ _ Hp) as [b Hb].
      by exists "", b.
Qed.

(** two ways of cutting one string *)
Lemma string_app_split (s1 : string) : ∀ t1 s2 t2,
  s1 +:+ t1 = s2 +:+ t2 →
  (String.length s1 ≤ String.length s2)%nat →
  ∃ m, s2 = s1 +:+ m ∧ t1 = m +:+ t2.
Proof.
  induction s1 as [|c s1 IH]; intros t1 s2 t2 E Hl; simpl in *.
  - by exists s2.
  - destruct s2 as [|d s2]; simpl in *; [lia|].
    injection E as -> E. destruct (IH _ _ _ E) as (m & -> & ->); [lia|].
    by exists m.
Qed.

Lemma substring_middle (a m b : string) :
  String.substring (String.length a) (String.length m) (a +:+ m +:+ b) = m.
Proof.
  induction a as [|c a IH]; simpl; [|done].
  induction m as [|d m IHm]; simpl.
  - by destruct b.
  - by rewrite IHm.
Qed.

Lemma prefix_stars_other c (s : string) :
  "*"%char ≠ c → String.prefix "**" (String c s) = false.
Proof.
  intros Hc.
  change (String.prefix "**" (String c s))
    with (match ascii_dec "*" c with
          | left _ => String.prefix "*" s
          | right _ => false
          end).
  destruct (ascii_dec "*" c); [done | reflexivity].
Qed.

Lemma prefix_stars_single c (s : string) :
  "*"%char ≠ c → String.prefix "**" (String "*" (String c s)) = false.
Proof.
  intros Hc.
  change (String.prefix "**" (String "*" (String c s)))
    with (match ascii_dec "*" "*" with
          | left _ => match ascii_dec "*" c with
                      | left _ => String.prefix "" s
                      | right _ => false
                      end
          | right _ => false
          end).
  destruct (ascii_dec "*" "*"); [|done].
  destruct (ascii_dec "*" c); [done | reflexivity].
Qed.

Lemma prefix_stars_stars (s : string) :
  String.prefix "**" (String "*" (String "*" s)) = true.
Proof. by destruct s. Qed.

(** a text without a star holds no "**" *)
Lemma index_no_star (s : string) :
  "*"%char ∉ String.list_ascii_of_string s → String.index 0 "**" s = None.
Proof.
  induction s as [|c s IH]; intros Hs; [reflexivity|].
  simpl in Hs. apply not_elem_of_cons in Hs as [Hc Hs].
  rewrite index_cons, prefix_stars_other by done. by rewrite IH.
Qed.

Lemma lastIndex_no_star (s : string) :
  "*"%char ∉ String.list_ascii_of_string s → lastIndex "**" s = None.
Proof.
  induction s as [|c s IH]; intros Hs; [reflexivity|].
  simpl in Hs. apply not_elem_of_cons in Hs as [Hc Hs].
  rewrite lastIndex_cons, IH, prefix_stars_other by done. done.
Qed.

Lemma index_skip (pre rest : string) :
  "*"%char ∉ String.list_ascii_of_string pre →
  String.index 0 "**" (pre +:+ "**" +:+ rest) = Some (String.length pre).
Proof.
  induction pre as [|c pre IH]; intros Hs.
  { change ("" +:+ "**" +:+ rest) with (String "*" (String "*" rest)).
    by rewrite index_cons, prefix_stars_stars. }
  simpl in Hs. apply not_elem_of_cons in Hs as [Hc Hs].
  change (String c pre +:+ "**" +:+ rest) with (String c (pre +:+ "**" +:+ rest)).
  rewrite index_cons, prefix_stars_other by done. by rewrite IH.
Qed.

Lemma lastIndex_shift (p s t : string) n :
  lastIndex p t = Some n →
  lastIndex p (s +:+ t) = Some (String.length s + n)%nat.
Proof.
  intros H. induction s as [|c s IH]; [done|].
  change (String c s +:+ t) with (String c (s +:+ t)).
  by rewrite lastIndex_cons, IH.
Qed.

Lemma lastIndex_closing (post : string) :
  "*"%char ∉ String.list_ascii_of_string post →
  lastIndex "**" ("**" +:+ post) = Some 0%nat.
Proof.
  intros Hs.
  change ("**" +:+ post) with (String "*" (String "*" post)).
  rewrite !lastIndex_cons, (lastIndex_no_star post Hs).
  destruct post as [|c post]; [reflexivity|].
  simpl in Hs. apply not_elem_of_cons in Hs as [Hc _].
  rewrite (prefix_stars_single c post Hc). reflexivity.
Qed.

Lemma substring_js (a m b : string) :
  substring (Z.of_nat (String.length a))
            (Z.of_nat (String.length a + String.length m)) (a +:+ m +:+ b) = m.
Proof.
  unfold substring. cbv zeta.
  replace (Z.to_nat (Z.min (Z.max 0 (Z.of_nat (String.length a)))
             (Z.max 0 (Z.of_nat (String.length a + String.length m)))))
    with (String.length a) by lia.
  replace (Z.to_nat (Z.max (Z.max 0 (Z.of_nat (String.length a)))
             (Z.max 0 (Z.of_nat (String.length a + String.length m)))
           - Z.min (Z.max 0 (Z.of_nat (String.length a)))
             (Z.max 0 (Z.of_nat (String.length a + String.length m)))))
    with (String.length m) by lia.
  apply substring_middle.
Qed.

End AgentFacts.

(** X11: [extractTopicIdString].  A result, when there is one, is a
    non-empty piece of the text that stands between two "**" markers; a text
    with no star, or with a single "**" and no other star, gives [null]; and
    a text made of a piece without star, "**", a non-empty id, "**" and a
    piece without star gives back exactly the id. *)
Theorem extractTopicIdString_spec :
  (∀ text r,
     Agent.extractTopicIdString text = Some r →
     r ≠ "" ∧ ∃ pre post, text = pre +:+ "**" +:+ r +:+ "**" +:+ post)
  ∧ (∀ text,
     "*"%char ∉ String.list_ascii_of_string text →
     Agent.extractTopicIdString text = None)
  ∧ (∀ pre post,
     "*"%char ∉ String.list_ascii_of_string pre →
     "*"%char ∉ String.list_ascii_of_string post →
     Agent.extractTopicIdString (pre +:+ "**" +:+ post) = None)
  ∧ (∀ pre r post,
     "*"%char ∉ String.list_ascii_of_string pre →
     "*"%char ∉ String.list_ascii_of_string post →
     r ≠ "" →
     Agent.extractTopicIdString (pre +:+ "**" +:+ r +:+ "**" +:+ post) = Some r).
Proof.
  split_and!.
  - intros text r. unfold Agent.extractTopicIdString, Agent.indexOf, Agent.lastIndexOf.
    cbv zeta.
    destruct (String.index 0 "**" text) as [i|] eqn:Hi; [|done].
    destruct (Agent.lastIndex "**" text) as [j|] eqn:Hj;
      [|destruct (Z.ltb_spec (Z.of_nat i + 2) (-1)); [lia|];
        by rewrite andb_false_r].
    destruct (Z.ltb_spec 1 (Z.of_nat i + 2)); [|done].
    destruct (Z.ltb_spec (Z.of_nat i + 2) (Z.of_nat j)); [|done].
    cbn [andb]. intros [= <-].
    destruct (AgentFacts.index_app _ _ _ Hi) as (a1 & b1 & E1 & L1).
    destruct (AgentFacts.lastIndex_app _ _ _ Hj) as (a2 & b2 & E2 & L2).
    assert (String.length (a1 +:+ "**") = (i + 2)%nat) as La
      by (rewrite string_length_app, L1; reflexivity).
    destruct (AgentFacts.string_app_split (a1 +:+ "**") b1 a2 ("**" +:+ b2))
      as (m & Ea & Eb).
    { rewrite AgentFacts.string_app_assoc. congruence. }
    { lia. }
    assert (String.length a2 = (String.length (a1 +:+ "**") + String.length m)%nat)
      as Lm by (rewrite Ea at 1; apply string_length_app).
    assert (text = (a1 +:+ "**") +:+ m +:+ "**" +:+ b2) as Et.
    { rewrite E2, Ea. by rewrite !AgentFacts.string_app_assoc. }
    replace (Z.of_nat i + 2) with (Z.of_nat (String.length (a1 +:+ "**"))) by lia.
    replace (Z.of_nat j)
      with (Z.of_nat (String.length (a1 +:+ "**") + String.length m)) by lia.
    assert (Agent.substring (Z.of_nat (String.length (a1 +:+ "**")))
              (Z.of_nat (String.length (a1 +:+ "**") + String.length m)) text = m)
      as -> by (rewrite Et; apply AgentFacts.substring_js).
    split.
    + intros ->. simpl in Lm. lia.
    + exists a1, b2. rewrite Et. by rewrite !AgentFacts.string_app_assoc.
  - intros text Hs. unfold Agent.extractTopicIdString, Agent.indexOf. cbv zeta.
    by rewrite (AgentFacts.index_no_star text Hs).
  - intros pre post Hpre Hpost.
    unfold Agent.extractTopicIdString, Agent.indexOf, Agent.lastIndexOf. cbv zeta.
    rewrite (AgentFacts.index_skip pre post Hpre).
    rewrite (AgentFacts.lastIndex_shift "**" pre ("**" +:+ post) 0
               (AgentFacts.lastIndex_closing post Hpost)).
    destruct (Z.ltb_spec (Z.of_nat (String.length pre) + 2)
                (Z.of_nat (String.length pre + 0))); [lia|].
    by rewrite andb_false_r.
  - intros pre r post Hpre Hpost Hr.
    unfold Agent.extractTopicIdString, Agent.indexOf, Agent.lastIndexOf. cbv zeta.
    rewrite (AgentFacts.index_skip pre _ Hpre).
    assert (pre +:+ "**" +:+ r +:+ "**" +:+ post
            = ((pre +:+ "**") +:+ r) +:+ "**" +:+ post) as Et
      by (by rewrite !AgentFacts.string_app_assoc).
    rewrite Et.
    rewrite (AgentFacts.lastIndex_shift "**" ((pre +:+ "**") +:+ r) ("**" +:+ post) 0
               (AgentFacts.lastIndex_closing post Hpost)).
    assert (String.length (pre +:+ "**") = (String.length pre + 2)%nat) as La
      by (rewrite string_length_app; reflexivity).
    assert (0 < String.length r)%nat by (destruct r; simpl; [done | lia]).
    replace (Z.of_nat (String.length pre) + 2)
      with (Z.of_nat (String.length (pre +:+ "**"))) by lia.
    replace (Z.of_nat (String.length ((pre +:+ "**") +:+ r) + 0))
      with (Z.of_nat (String.length (pre +:+ "**") + String.length r))
      by (rewrite (string_length_app (pre +:+ "**") r); lia).
    destruct (Z.ltb_spec 1 (Z.of_nat (String.length (pre +:+ "**")))); [|lia].
    destruct (Z.ltb_spec (Z.of_nat (String.length (pre +:+ "**")))
                (Z.of_nat (String.length (pre +:+ "**") + String.length r))); [|lia].
    cbn [andb]. f_equal.
    rewrite (AgentFacts.string_app_assoc (pre +:+ "**") r).
    apply AgentFacts.substring_js.
Qed.

Lemma extractTopicIdString_spec_witness :
  Agent.extractTopicIdString "I created the topic **0.0.6590612** for you" = Some "0.0.6590612"
  ∧ Agent.extractTopicIdString "Topic created: 0.0.6590612" = None
  ∧ Agent.extractTopicIdString "Topic **0.0.6590612" = None
  ∧ ∃ pre post, "a **b** c" = pre +:+ "**" +:+ "b" +:+ "**" +:+ post.
Proof.
  destruct extractTopicIdString_spec as (Hsound & Hnone & Hone & Hround).
  split_and!.
  - apply (Hround "I created the topic " "0.0.6590612" " for you");
      [vm_compute; intros H; repeat (apply elem_of_cons in H as [H|H]; [discriminate|]);
       by apply elem_of_nil in H ..|done].
  - apply Hnone. vm_compute. intros H.
    repeat (apply elem_of_cons in H as [H|H]; [discriminate|]). by apply elem_of_nil in H.
  - apply (Hone "Topic " "0.0.6590612");
      vm_compute; intros H; repeat (apply elem_of_cons in H as [H|H]; [discriminate|]);
      by apply elem_of_nil in H.
  - apply (Hsound "a **b** c" "b"). reflexivity.
Defined.

(** * The vote endpoint *)

Module VoteEndpointFacts.
Import HederaVoting VoteEndpoint.



End VoteEndpointFacts.


(** X13: a failed reply does not mean that no vote was cast.  When the
    contract accepts the vote and the token transfer then fails, the
    endpoint answers 500 "Failed to vote" although the ledger has recorded
    the vote; sending the same request again (with the voting still open)
    is accepted, so that the voter is listed twice and the chosen counter
    has grown by two. *)
Theorem apiVote_retry_counts_twice :
  ∀ addU toAddr show chain1 chain2 n b account pid voter s,
    addU n = Some pid →
    toAddr account = Some voter →
    VoteEndpoint.not_ account = false →
    let p := mapping_get zeroProposal (HederaVoting.proposals s) pid in
    exists_ p = true →
    block_timestamp chain1 ≤ deadline p →
    block_timestamp chain2 ≤ deadline p →
    chosenVotes b p + 2 ≤ MAX_UINT256 →
    let body := {| VoteEndpoint.b_proposalId := VoteEndpoint.JNumber n;
                   VoteEndpoint.b_vote := VoteEndpoint.JBool b;
                   VoteEndpoint.b_voterAddress := account |} in
    let o1 := VoteEndpoint.apiVote addU toAddr show chain1 false body s in
    let o2 := VoteEndpoint.apiVote addU toAddr show chain2 true body
                (VoteEndpoint.ledger o1) in
    VoteEndpoint.reply o1
      = {| VoteEndpoint.r_code := 500; VoteEndpoint.r_success := false;
           VoteEndpoint.r_text := "Failed to vote" |}
    ∧ HederaVoting.getVoters pid (VoteEndpoint.ledger o1)
      = HederaVoting.getVoters pid s ++ [voter]
    ∧ VoteEndpoint.r_code (VoteEndpoint.reply o2) = 200
    ∧ HederaVoting.getVoters pid (VoteEndpoint.ledger o2)
      = HederaVoting.getVoters pid s ++ [voter; voter]
    ∧ chosenVotes b (mapping_get zeroProposal
                       (HederaVoting.proposals (VoteEndpoint.ledger o2)) pid)
      = chosenVotes b p + 2.
Proof.
  intros addU toAddr show chain1 chain2 n b account pid voter s Eu Ea Hacc p
    Hex Hd1 Hd2 Hfit body o1 o2.
  set (s1 := {| HederaVoting.proposals := <[pid := castOn b p]> (HederaVoting.proposals s);
                HederaVoting.voters :=
                  <[pid := mapping_get [] (HederaVoting.voters s) pid ++ [voter]]>
                    (HederaVoting.voters s);
                HederaVoting.proposalCount := HederaVoting.proposalCount s |}).
  assert (HederaVoting.vote chain1 pid b voter s = Ok (s1, [VoteCast pid voter b])) as E1.
  { apply HederaFacts.hv_vote_Ok. cbv zeta. fold p. split_and!; try done. lia. }
  set (p1 := mapping_get zeroProposal (HederaVoting.proposals s1) pid).
  assert (p1 = castOn b p) as Ep1.
  { unfold p1, s1. simpl. by rewrite mapping_get_insert_eq. }
  set (s2 := {| HederaVoting.proposals := <[pid := castOn b p1]> (HederaVoting.proposals s1);
                HederaVoting.voters :=
                  <[pid := mapping_get [] (HederaVoting.voters s1) pid ++ [voter]]>
                    (HederaVoting.voters s1);
                HederaVoting.proposalCount := HederaVoting.proposalCount s1 |}).
  assert (HederaVoting.vote chain2 pid b voter s1 = Ok (s2, [VoteCast pid voter b])) as E2.
  { apply HederaFacts.hv_vote_Ok. cbv zeta. fold p1.
    split_and!; [| | |done|done]; rewrite Ep1;
      unfold castOn, chosenVotes in *; destruct b; simpl; first [done | lia]. }
  assert (o1 = {| VoteEndpoint.reply :=
                    {| VoteEndpoint.r_code := 500; VoteEndpoint.r_success := false;
                       VoteEndpoint.r_text := "Failed to vote" |};
                  VoteEndpoint.ledger := s1; VoteEndpoint.transferred := false |}) as Eo1.
  { unfold o1, VoteEndpoint.apiVote, body. simpl VoteEndpoint.b_vote.
    simpl VoteEndpoint.b_proposalId. simpl VoteEndpoint.b_voterAddress.
    rewrite Hacc. simpl negb. cbn [orb]. rewrite Eu, Ea.
    unfold HederaVoting.transact. rewrite E1. rsimpl. done. }
  assert (VoteEndpoint.ledger o2 = s2 ∧ VoteEndpoint.r_code (VoteEndpoint.reply o2) = 200)
    as [El2 Ec2].
  { unfold o2. rewrite Eo1. cbn [VoteEndpoint.ledger].
    unfold VoteEndpoint.apiVote, body. simpl VoteEndpoint.b_vote.
    simpl VoteEndpoint.b_proposalId. simpl VoteEndpoint.b_voterAddress.
    rewrite Hacc. simpl negb. cbn [orb]. rewrite Eu, Ea.
    unfold HederaVoting.transact. rewrite E2. rsimpl. done. }
  rewrite El2, Eo1. simpl VoteEndpoint.reply. simpl VoteEndpoint.ledger.
  split_and!; try done.
  - unfold HederaVoting.getVoters, s1. simpl. by rewrite mapping_get_insert_eq.
  - unfold HederaVoting.getVoters, s2, s1. simpl.
    rewrite !mapping_get_insert_eq, <- app_assoc. done.
  - unfold s2. simpl. rewrite mapping_get_insert_eq, Ep1.
    unfold castOn, chosenVotes. destruct b; simpl; lia.
Qed.

Lemma apiVote_retry_counts_twice_witness :
  let body := SampleSdk.voteBody 1 true "0.0.5" in
  let o1 := VoteEndpoint.apiVote SampleSdk.addUint256 SampleSdk.toSolidityAddress
              SampleSdk.numberToString (Sample.at_ 9 200) false body Sample.hederaState in
  let o2 := VoteEndpoint.apiVote SampleSdk.addUint256 SampleSdk.toSolidityAddress
              SampleSdk.numberToString (Sample.at_ 9 210) true body
              (VoteEndpoint.ledger o1) in
  VoteEndpoint.r_code (VoteEndpoint.reply o1) = 500
  ∧ VoteEndpoint.r_code (VoteEndpoint.reply o2) = 200
  ∧ HederaVoting.getVoters 1 (VoteEndpoint.ledger o2) = [5; 6; 5; 5].
Proof.
  intros body o1 o2.
  destruct (apiVote_retry_counts_twice SampleSdk.addUint256 SampleSdk.toSolidityAddress
              SampleSdk.numberToString (Sample.at_ 9 200) (Sample.at_ 9 210)
              (VoteEndpoint.NInt 1) true (VoteEndpoint.JString "0.0.5") 1 5
              Sample.hederaState)
    as (H1 & _ & H2 & H3 & _);
    [reflexivity | reflexivity | reflexivity | reflexivity
    | vm_compute; discriminate | vm_compute; discriminate | vm_compute; discriminate |].
  split_and!.
  - unfold o1, body, SampleSdk.voteBody. by rewrite H1.
  - exact H2.
  - etrans; [exact H3|]. reflexivity.
Defined.

(** * The scripts that read the ledger *)

Module ScriptFacts.
Import HederaVoting Scripts.

Lemma length_be_bytes len : ∀ n, length (Abi.be_bytes len n) = len.
Proof.
  induction len as [|len IH]; intros n; simpl; [done|].
  rewrite length_app, IH. simpl. lia.
Qed.

Lemma drop_be_bytes d k : ∀ n, drop d (Abi.be_bytes (d + k) n) = Abi.be_bytes k n.
Proof.
  induction k as [|k IH]; intros n.
  - rewrite Nat.add_0_r. apply drop_ge. by rewrite length_be_bytes.
  - rewrite Nat.add_succ_r. simpl.
    rewrite drop_app_le by (rewrite length_be_bytes; lia). by rewrite IH.
Qed.

Lemma length_word n : length (Abi.word n) = 32%nat.
Proof. apply length_be_bytes. Qed.

Lemma drop_word n : drop 12 (Abi.word n) = Abi.be_bytes 20 n.
Proof. apply (drop_be_bytes 12 20). Qed.

Lemma length_toHex bytes :
  String.length (toHex bytes) = (2 * length bytes)%nat.
Proof.
  induction bytes as [|b bytes IH]; [done|].
  cbn [toHex]. unfold hexByte. simpl. rewrite IH. lia.
Qed.

Lemma slice_chunk {A} (pre w rest : list A) :
  length w = 32%nat →
  slice (length pre + 12) (length pre + 32) (pre ++ w ++ rest) = drop 12 w.
Proof.
  intros Hw. unfold slice.
  replace (length pre + 32 - (length pre + 12))%nat with 20%nat by lia.
  rewrite drop_app_add, drop_app_le by lia.
  apply take_app_length'. rewrite length_drop. lia.
Qed.

Lemma slice_tail {A} (pre tail : list A) :
  (length tail < 32)%nat →
  slice (length pre + 12) (length pre + 32) (pre ++ tail) = drop 12 tail.
Proof.
  intros Ht. unfold slice.
  replace (length pre + 32 - (length pre + 12))%nat with 20%nat by lia.
  rewrite drop_app_add. apply take_ge. rewrite length_drop. lia.
Qed.

(** the loop over a byte array made of full 32-byte chunks and a shorter
    rest, for a body that only looks at bytes 12 .. 31 of its chunk *)
Lemma forStep32_chunks {A} (g : list Z → A → A) (tail : list Z) :
  (length tail < 32)%nat →
  ∀ ws pre acc steps,
    Forall (λ w, length w = 32%nat) ws →
    (length ws + length tail < steps)%nat →
    let encoded := pre ++ concat ws ++ tail in
    forStep32 steps (length encoded) (length pre)
      (λ i acc, g (slice (i + 12) (i + 32) encoded) acc) acc
    = Some (let acc' := foldl (λ a w, g (drop 12 w) a) acc ws in
            match tail with [] => acc' | _ => g (drop 12 tail) acc' end).
Proof.
  intros Ht. induction ws as [|w ws IH]; intros pre acc steps Hws Hsteps encoded.
  - subst encoded. simpl concat. rewrite app_nil_l.
    destruct steps as [|steps]; [simpl in Hsteps; lia|].
    cbn [forStep32 foldl]. rewrite length_app.
    destruct tail as [|b tail].
    + simpl. rewrite Nat.add_0_r, Nat.ltb_irrefl. done.
    + destruct steps as [|steps]; [simpl in Hsteps; lia|]. cbn [forStep32].
      destruct (Nat.ltb_spec (length pre) (length pre + length (b :: tail)));
        [|simpl in *; lia].
      destruct (Nat.ltb_spec (length pre + 32) (length pre + length (b :: tail)));
        [simpl in *; lia|].
      by rewrite slice_tail.
  - apply Forall_cons in Hws as [Hw Hws].
    destruct steps as [|steps]; [simpl in Hsteps; lia|].
    cbn [forStep32 foldl].
    destruct (Nat.ltb_spec (length pre) (length encoded)) as [_|Hge].
    2:{ subst encoded. rewrite !length_app in Hge. simpl in Hge.
        rewrite length_app in Hge. lia. }
    assert (encoded = (pre ++ w) ++ concat ws ++ tail) as Henc.
    { subst encoded. simpl. by rewrite <- !app_assoc. }
    replace (g (slice (length pre + 12) (length pre + 32) encoded) acc)
      with (g (drop 12 w) acc).
    2:{ f_equal. subst encoded. simpl concat. rewrite <- (app_assoc w).
        by rewrite slice_chunk. }
    replace (length pre + 32)%nat with (length (pre ++ w))
      by (rewrite length_app; lia).
    rewrite Henc. apply (IH (pre ++ w)); [done | simpl in Hsteps; lia].
Qed.

Lemma length_concat_chunks (ws : list (list Z)) :
  Forall (λ w, length w = 32%nat) ws → length (concat ws) = (32 * length ws)%nat.
Proof.
  induction 1 as [|w ws Hw _ IH]; [done|].
  simpl. rewrite length_app, IH, Hw. lia.
Qed.

Lemma foldl_snoc_map {A B} (f : A → B) (l : list A) : ∀ acc,
  foldl (λ a x, a ++ [f x]) acc l = acc ++ (f <$> l).
Proof.
  induction l as [|x l IH]; intros acc; simpl; [by rewrite app_nil_r|].
  by rewrite IH, <- app_assoc.
Qed.

Lemma decodeVoters_chunks ws tail :
  Forall (λ w, length w = 32%nat) ws →
  (length tail < 32)%nat →
  decodeVoters (concat ws ++ tail)
  = Some (((λ w, "0x" +:+ toHex (drop 12 w)) <$> ws)
          ++ match tail with [] => [] | _ => ["0x" +:+ toHex (drop 12 tail)] end).
Proof.
  intros Hws Ht. unfold decodeVoters.
  pose proof (forStep32_chunks (λ bytes voters, voters ++ ["0x" +:+ toHex bytes])
                tail Ht ws [] [] (S (length (concat ws ++ tail))) Hws) as H.
  etrans; [apply H; rewrite length_app, length_concat_chunks by done; lia|].
  cbv zeta. rewrite foldl_snoc_map. simpl. destruct tail; by rewrite ?app_nil_r.
Qed.

Lemma decodeVotersChecked_chunks ws tail :
  Forall (λ w, length w = 32%nat) ws →
  (length tail < 32)%nat →
  decodeVotersChecked (concat ws ++ tail)
  = Some ((λ w, "0x" +:+ toHex (drop 12 w)) <$> ws).
Proof.
  intros Hws Ht. unfold decodeVotersChecked.
  pose proof (forStep32_chunks
                (λ bytes voters, if (length bytes =? 20)%nat
                                 then voters ++ ["0x" +:+ toHex bytes] else voters)
                tail Ht ws [] [] (S (length (concat ws ++ tail))) Hws) as H.
  etrans; [apply H; rewrite length_app, length_concat_chunks by done; lia|].
  cbv zeta. clear H. f_equal.
  assert (∀ acc, foldl (λ a w, if (length (drop 12 w) =? 20)%nat
                               then a ++ ["0x" +:+ toHex (drop 12 w)] else a) acc ws
                 = acc ++ ((λ w, "0x" +:+ toHex (drop 12 w)) <$> ws)) as ->.
  { induction Hws as [|w ws Hw _ IH]; intros acc; simpl;
      [by rewrite app_nil_r|].
    rewrite length_drop, Hw. simpl. by rewrite IH, <- app_assoc. }
  simpl. destruct tail as [|b tail]; [done|].
  destruct (Nat.eqb_spec (length (drop 12 (b :: tail))) 20) as [E|_]; [|done].
  rewrite length_drop in E. lia.
Qed.

End ScriptFacts.

Module ScriptFacts2.
Import HederaVoting Scripts ScriptFacts.

Lemma chunks_split (n : nat) : ∀ l : list Z,
  (length l ≤ n)%nat →
  ∃ ws tail, l = concat ws ++ tail
             ∧ Forall (λ w, length w = 32%nat) ws
             ∧ (length tail < 32)%nat.
Proof.
  induction n as [|n IH]; intros l Hl.
  - exists [], l. split_and!; [done | done | lia].
  - destruct (decide (length l < 32)%nat) as [Hlt|Hge].
    + exists [], l. by split_and!.
    + destruct (IH (drop 32 l)) as (ws & tail & E & Hws & Ht).
      { rewrite length_drop. lia. }
      exists (take 32 l :: ws), tail. split_and!; [| |done].
      * simpl. rewrite <- app_assoc, <- E. by rewrite take_drop.
      * constructor; [|done]. rewrite length_take. lia.
Qed.

Lemma query_getVoters_chunks pid s :
  query_getVoters pid s
  = concat (Abi.word 32 :: Abi.word (Z.of_nat (length (getVoters pid s)))
            :: (Abi.word <$> getVoters pid s)) ++ [].
Proof.
  unfold query_getVoters, Abi.encode_address_array. cbn [concat].
  by rewrite app_nil_r.
Qed.

Lemma Forall_words (l : list Z) :
  Forall (λ w : list Z, length w = 32%nat) (Abi.word <$> l).
Proof. apply Forall_fmap, Forall_forall. intros a _. apply length_word. Qed.

Lemma map_entry_words (l : list Z) :
  (λ w, "0x" +:+ toHex (drop 12 w)) <$> (Abi.word <$> l) = addressHex <$> l.
Proof.
  rewrite <- list_fmap_compose. apply list_fmap_ext. intros _ a _.
  unfold compose, addressHex. by rewrite drop_word.
Qed.

Lemma votersReport_eq pid s :
  votersReport pid s
  = Some (addressHex <$> (32 :: Z.of_nat (length (getVoters pid s)) :: getVoters pid s)).
Proof.
  unfold votersReport. rewrite query_getVoters_chunks.
  rewrite decodeVoters_chunks; [| |simpl; lia].
  - rewrite app_nil_r.
    by rewrite <- (map_entry_words (32 :: _ :: getVoters pid s)).
  - repeat (constructor; [apply length_word|]). apply Forall_words.
Qed.


End ScriptFacts2.

(** X14: what the two decoding loops make of a byte array.  Every array is
    a run of full 32-byte chunks followed by a rest of fewer than 32 bytes.
    Both loops yield, for each full chunk in order, ["0x"] and the hex of its
    bytes 12 .. 31 (42 characters); the loop of getVoterAddress.js then adds
    one shorter entry for a non-empty rest, which the archive's loop leaves
    out.  Neither loop runs out of steps. *)
Theorem decodeVoters_by_chunks :
  ∀ encoded : list Z,
    ∃ ws tail,
      encoded = concat ws ++ tail
      ∧ Forall (λ w, length w = 32%nat) ws
      ∧ (length tail < 32)%nat
      ∧ let entry := λ bytes, "0x" +:+ Scripts.toHex (drop 12 bytes) in
        Scripts.decodeVoters encoded
        = Some ((entry <$> ws) ++ match tail with [] => [] | _ => [entry tail] end)
        ∧ Scripts.decodeVotersChecked encoded = Some (entry <$> ws)
        ∧ Forall (λ e, String.length e = 42%nat) (entry <$> ws)
        ∧ (String.length (entry tail) < 42)%nat.
Proof.
  intros encoded.
  destruct (ScriptFacts2.chunks_split (length encoded) encoded (Nat.le_refl _))
    as (ws & tail & -> & Hws & Ht).
  exists ws, tail. split_and!; [done | done | done|]. intros entry. split_and!.
  - by apply ScriptFacts.decodeVoters_chunks.
  - by apply ScriptFacts.decodeVotersChecked_chunks.
  - apply Forall_fmap. eapply Forall_impl; [exact Hws|].
    intros w Hw. unfold entry. simpl.
    rewrite ScriptFacts.length_toHex, length_drop, Hw. done.
  - unfold entry. simpl. rewrite ScriptFacts.length_toHex, length_drop. lia.
Qed.

(** X15: what getVoterAddress.js prints.  The return data of [getVoters]
    is the ABI encoding of an address array: an offset word, a length word,
    then one word per voter.  The loop reads every word as an address, so
    the printed array has two entries more than there are voters: the first
    is always 0x..20 (the offset), the second is the number of voters, and
    the voters proper, in voting order, start at index 2. *)
Theorem votersReport_entries :
  ∀ proposalId s,
    let vs := HederaVoting.getVoters proposalId s in
    ∃ report,
      Scripts.votersReport proposalId s = Some report
      ∧ length report = (length vs + 2)%nat
      ∧ report !! 0%nat = Some "0x0000000000000000000000000000000000000020"
      ∧ report !! 1%nat = Some (Scripts.addressHex (Z.of_nat (length vs)))
      ∧ drop 2 report = Scripts.addressHex <$> vs
      ∧ Scripts.getVoterAddress_main s
        = Some (Scripts.addressHex
                  <$> (32 :: Z.of_nat (length (HederaVoting.getVoters 2 s))
                          :: HederaVoting.getVoters 2 s)).
Proof.
  intros proposalId s vs.
  exists (Scripts.addressHex <$> (32 :: Z.of_nat (length vs) :: vs)).
  split_and!.
  - apply ScriptFacts2.votersReport_eq.
  - rewrite length_fmap. simpl. lia.
  - reflexivity.
  - reflexivity.
  - reflexivity.
  - apply ScriptFacts2.votersReport_eq.
Qed.

Example votersReport_sample :
  Scripts.votersReport 1 Sample.hederaState
  = Some [ "0x0000000000000000000000000000000000000020";
           "0x0000000000000000000000000000000000000002";
           "0x0000000000000000000000000000000000000005";
           "0x0000000000000000000000000000000000000006" ].
Proof. vm_compute. reflexivity. Qed.

Module ArchiveFacts.
Import HederaVoting Scripts ScriptFacts ScriptFacts2.




End ArchiveFacts.


Example archive_sample :
  Scripts.a_proposalId <$> default [] (Scripts.archive (Sample.at_ 0 3701) Sample.hederaState)
  = [1]
  ∧ Scripts.archive (Sample.at_ 0 3700) Sample.hederaState = Some [].
Proof. split; vm_compute; reflexivity. Qed.

(** X17: the id the create script announces.  The script reads
    [proposalCount] before it sends the transaction, so the message it hands
    to the topic names the count before the creation: the proposal it has
    just created has the next id (and the message's other fields), while the
    announced id still denotes whatever it denoted before, that is nothing at
    all for the first proposal.  A message is produced exactly when the
    transaction is accepted; otherwise the ledger is unchanged. *)
Theorem createAndNotify_announces_previous_count :
  ∀ txs chain now later,
    let s := HederaVoting.run txs HederaVoting.init in
    let r := Scripts.createAndNotify chain now later s in
    (is_Some r.2 ↔ block_timestamp chain < now / 1000 + 3600
                    ∧ HederaVoting.proposalCount s + 1 ≤ MAX_UINT256)
    ∧ (r.2 = None → r.1 = s)
    ∧ ∀ m, r.2 = Some m →
        Scripts.m_proposalId m = HederaVoting.getTotalProposals s
        ∧ HederaVoting.getTotalProposals r.1 = Scripts.m_proposalId m + 1
        ∧ Scripts.m_deadline m = now / 1000 + 3600
        ∧ HederaVoting.getProposal chain (Scripts.m_proposalId m + 1) r.1
          = Ok {| v_proposalId := Scripts.m_proposalId m + 1;
                  v_parkName := Scripts.m_parkName m;
                  v_message := Scripts.m_message m;
                  v_parkSize := Scripts.m_parkSize m;
                  v_chatTopicHistory := Scripts.m_chatTopicHistory m;
                  v_creator := msg_sender chain;
                  v_yesVotes := 0; v_noVotes := 0;
                  v_deadline := Scripts.m_deadline m;
                  v_active := true |}
        ∧ HederaVoting.getProposal chain (Scripts.m_proposalId m) r.1
          = HederaVoting.getProposal chain (Scripts.m_proposalId m) s
        ∧ (Scripts.m_proposalId m = 0 →
           HederaVoting.getProposal chain (Scripts.m_proposalId m) r.1
           = Revert ProposalNotFound)
        ∧ (1 ≤ Scripts.m_proposalId m →
           ∃ w, HederaVoting.getProposal chain (Scripts.m_proposalId m) r.1 = Ok w
                ∧ v_proposalId w = Scripts.m_proposalId m).
Proof.
  intros txs chain now later s r.
  pose proof (HederaHistory.hv_Consistent_run txs _ HederaHistory.hv_Consistent_init)
    as [Hpos Hs]. fold s in Hpos, Hs.
  unfold Scripts.createAndNotify in r. cbv zeta in r.
  change (Server.getUint256 0 (HederaVoting.query_proposalCount s))
    with (Some (HederaVoting.proposalCount s)) in r.
  cbv iota beta in r.
  destruct (HederaVoting.transact chain
              (HederaVoting.CreateProposal "Aoma Park" "Add no trees" 120
                 "Initial proposal created" (now / 1000 + 3600)) s)
    as [[[rd s'] evs]|err] eqn:Et.
  - apply HederaFacts.hv_transact_create_Ok in Et as [-> Ec].
    apply HederaFacts.hv_createProposal_Ok in Ec as (Hd & Hfit & Es' & _).
    subst r. cbn [fst snd]. split_and!.
    + split; [done | by eexists].
    + discriminate.
    + intros m [= <-]. cbn [Scripts.m_proposalId Scripts.m_deadline Scripts.m_parkName
        Scripts.m_message Scripts.m_parkSize Scripts.m_chatTopicHistory].
      unfold HederaVoting.getTotalProposals.
      assert (HederaVoting.getProposal chain (HederaVoting.proposalCount s) s'
              = HederaVoting.getProposal chain (HederaVoting.proposalCount s) s) as Hsame.
      { unfold HederaVoting.getProposal. rewrite Es'. cbn [HederaVoting.proposals].
        rewrite mapping_get_insert_ne by lia. done. }
      split_and!.
      * done.
      * by rewrite Es'.
      * done.
      * rewrite HederaFacts.hv_getProposal_Ok;
          rewrite Es'; cbn [HederaVoting.proposals]; rewrite mapping_get_insert_eq;
          [|done].
        cbv zeta. simpl.
        destruct (Z.leb_spec (block_timestamp chain) (now / 1000 + 3600)); [done | lia].
      * exact Hsame.
      * intros E0. rewrite Hsame. apply HederaFacts.hv_getProposal_not_found.
        destruct (exists_ (mapping_get zeroProposal (HederaVoting.proposals s)
                             (HederaVoting.proposalCount s))) eqn:Hex; [|done].
        apply hv_reached_exists in Hex. fold s in Hex. lia.
      * intros Hge. rewrite Hsame.
        assert (exists_ (mapping_get zeroProposal (HederaVoting.proposals s)
                           (HederaVoting.proposalCount s)) = true) as Hex.
        { apply hv_reached_exists. fold s. lia. }
        rewrite (HederaFacts.hv_getProposal_Ok _ _ _ Hex). cbv zeta.
        eexists. split; [reflexivity|]. simpl.
        destruct (Hs (HederaVoting.proposalCount s)) as (_ & Hid & _). by apply Hid.
  - subst r. cbn [fst snd]. split_and!.
    + split; [intros [? ?]; done|]. intros [Hd Hfit]. exfalso.
      assert (∃ s' evs, HederaVoting.createProposal chain "Aoma Park" "Add no trees" 120
                "Initial proposal created" (now / 1000 + 3600) s = Ok (s', evs))
        as (s' & evs & Ec).
      { eexists _, _. apply HederaFacts.hv_createProposal_Ok. by split_and!. }
      simpl in Et. rewrite Ec in Et. done.
    + done.
    + discriminate.
Qed.

Example createAndNotify_first_proposal :
  let r := Scripts.createAndNotify (Sample.at_ 7 1700000000) 1700000000123 1700000004567
             HederaVoting.init in
  Scripts.m_proposalId <$> r.2 = Some 0
  ∧ HederaVoting.getTotalProposals r.1 = 1
  ∧ HederaVoting.getProposal (Sample.at_ 7 1700000000) 0 r.1 = Revert ProposalNotFound.
Proof. vm_compute. by split_and!. Qed.

Module HexFacts.
Import Scripts.

Lemma hexDigit_inj d1 d2 :
  0 ≤ d1 < 16 → 0 ≤ d2 < 16 → hexDigit d1 = hexDigit d2 → d1 = d2.
Proof.
  intros H1 H2.
  assert (∃ n1, d1 = Z.of_nat n1 ∧ (n1 < 16)%nat) as (n1 & -> & Hn1)
    by (exists (Z.to_nat d1); lia).
  assert (∃ n2, d2 = Z.of_nat n2 ∧ (n2 < 16)%nat) as (n2 & -> & Hn2)
    by (exists (Z.to_nat d2); lia).
  unfold hexDigit. rewrite !Nat2Z.id. intros E. f_equal.
  do 16 (destruct n1 as [|n1]; [do 16 (destruct n2 as [|n2]; [by vm_compute in E|]); lia|]).
  lia.
Qed.

Lemma hexByte_inj b1 b2 :
  0 ≤ b1 < 256 → 0 ≤ b2 < 256 → hexByte b1 = hexByte b2 → b1 = b2.
Proof.
  intros H1 H2 E. unfold hexByte in E. injection E as Eh El.
  apply hexDigit_inj in Eh;
    [|split; [apply Z.div_pos; lia | apply Z.div_lt_upper_bound; lia]..].
  apply hexDigit_inj in El; [|apply Z.mod_pos_bound; lia..].
  rewrite (Z.div_mod b1 16), (Z.div_mod b2 16) by lia. congruence.
Qed.

Lemma toHex_inj (l1 : list Z) : ∀ l2,
  Forall (λ b, 0 ≤ b < 256) l1 → Forall (λ b, 0 ≤ b < 256) l2 →
  toHex l1 = toHex l2 → l1 = l2.
Proof.
  induction l1 as [|b1 l1 IH]; intros [|b2 l2] Hl1 Hl2 E; try done.
  apply Forall_cons in Hl1 as [Hb1 Hl1]. apply Forall_cons in Hl2 as [Hb2 Hl2].
  cbn [toHex] in E. unfold hexByte in E. simpl in E.
  injection E as Eh El E.
  f_equal; [|by apply IH].
  apply hexByte_inj; [done | done|]. unfold hexByte. by rewrite Eh, El.
Qed.

Lemma be_bytes_range len : ∀ n, Forall (λ b, 0 ≤ b < 256) (Abi.be_bytes len n).
Proof.
  induction len as [|len IH]; intros n; simpl; [constructor|].
  apply Forall_app. split; [apply IH|]. constructor; [|constructor].
  apply Z.mod_pos_bound. lia.
Qed.

Lemma be_bytes_inj len : ∀ a b,
  Abi.be_bytes len a = Abi.be_bytes len b →
  a mod 256 ^ Z.of_nat len = b mod 256 ^ Z.of_nat len.
Proof.
  induction len as [|len IH]; intros a b E.
  - simpl. by rewrite !Z.mod_1_r.
  - simpl in E. apply app_inj_tail in E as [E Em]. apply IH in E.
    rewrite Nat2Z.inj_succ, Z.pow_succ_r by lia.
    rewrite !Z.rem_mul_r by lia. by rewrite E, Em.
Qed.

Lemma addressHex_inj a b :
  0 ≤ a < 2 ^ 160 → 0 ≤ b < 2 ^ 160 → addressHex a = addressHex b → a = b.
Proof.
  intros Ha Hb E. unfold addressHex in E.
  assert (∀ x y : string, "0x" +:+ x = "0x" +:+ y → x = y) as Hinj.
  { intros x y H. cbn in H. by injection H. }
  apply Hinj in E.
  apply toHex_inj in E; [|apply be_bytes_range..].
  apply be_bytes_inj in E.
  change (256 ^ Z.of_nat 20) with (2 ^ 160) in E.
  by rewrite !Z.mod_small in E.
Qed.

End HexFacts.

(** X18: the decoded voters tell addresses apart.  For two 160-bit
    addresses the entries the loops produce from their ABI words (0x and the
    hex of bytes 12 .. 31) are equal only if the addresses are; the twelve
    bytes the loops skip carry nothing of an address, so adding [2^160] to
    a word does not change its entry. *)
Theorem decoded_address_identifies_voter :
  ∀ a b,
    0 ≤ a < 2 ^ 160 →
    0 ≤ b < 2 ^ 160 →
    let entry := λ n, "0x" +:+ Scripts.toHex (Scripts.slice 12 32 (Abi.word n)) in
    (entry a = entry b ↔ a = b)
    ∧ entry a = Scripts.addressHex a
    ∧ String.length (entry a) = 42%nat
    ∧ entry (a + 2 ^ 160) = entry a.
Proof.
  intros a b Ha Hb entry.
  assert (∀ n, entry n = Scripts.addressHex n) as He.
  { intros n. unfold entry, Scripts.addressHex, Scripts.slice.
    rewrite ScriptFacts.drop_word. rewrite take_ge; [done|].
    rewrite ScriptFacts.length_be_bytes. lia. }
  split_and!.
  - rewrite (He a), (He b). split; [by apply HexFacts.addressHex_inj | by intros ->].
  - apply He.
  - rewrite He. unfold Scripts.addressHex. cbn [String.append String.length].
    rewrite ScriptFacts.length_toHex, ScriptFacts.length_be_bytes. done.
  - rewrite (He a), (He (a + 2 ^ 160)). unfold Scripts.addressHex. do 2 f_equal.
    assert (∀ len x y, x mod 256 ^ Z.of_nat len = y mod 256 ^ Z.of_nat len →
                       Abi.be_bytes len x = Abi.be_bytes len y) as Hmod.
    { induction len as [|len IH]; intros x y E; [done|]. simpl.
      rewrite Nat2Z.inj_succ, Z.pow_succ_r in E by lia.
      rewrite !Z.rem_mul_r in E by lia.
      assert (x mod 256 = y mod 256 ∧
              (x / 256) mod 256 ^ Z.of_nat len = (y / 256) mod 256 ^ Z.of_nat len)
        as [E1 E2].
      { pose proof (Z.mod_pos_bound x 256). pose proof (Z.mod_pos_bound y 256).
        pose proof (Z.mod_pos_bound (x / 256) (256 ^ Z.of_nat len)).
        pose proof (Z.mod_pos_bound (y / 256) (256 ^ Z.of_nat len)).
        assert (0 < 256 ^ Z.of_nat len) by (apply Z.pow_pos_nonneg; lia). lia. }
      by rewrite (IH _ _ E2), E1. }
    apply Hmod. change (256 ^ Z.of_nat 20) with (2 ^ 160).
    rewrite <- (Z.mul_1_l (2 ^ 160)) at 1. by rewrite Z.mod_add.
Qed.

Lemma decoded_address_identifies_voter_witness :
  (("0x" +:+ Scripts.toHex (Scripts.slice 12 32 (Abi.word 5))
    = "0x" +:+ Scripts.toHex (Scripts.slice 12 32 (Abi.word 6))) ↔ 5 = 6)
  ∧ "0x" +:+ Scripts.toHex (Scripts.slice 12 32 (Abi.word 5))
    = "0x0000000000000000000000000000000000000005".
Proof.
  destruct (decoded_address_identifies_voter 5 6) as (H & _); [lia | lia |].
  split; [exact H | reflexivity].
Defined.
